(** * pi-cursor-provider: the Cursor Agent CLI provider of src/index.ts

    A shallow embedding of the discovery client ([parseAgentModelsOutput],
    [inferReasoning], [runAgentModels]), of the line parser ([parseLine]),
    of the tool-name mapper ([toPiToolName]) and of the stream translator
    ([streamCursorCli]) with the properties the specification states about
    them, and of the prompt serialisation ([contentBlockToText],
    [serializeContext]), the authentication commands ([runAgentLogin],
    [runAgentStatus]) and the entry point ([toProviderModels]) with
    properties read off the code.

    JavaScript strings are sequences of UTF-16 code units, and [length],
    [slice], [trim] and the regular expressions of the source all work on
    code units: a string is a [list N] here. *)

From Stdlib Require Import String Ascii NArith ZArith List Bool Lia.
From Stdlib Require Import DecimalString.
From stdpp Require Import base option list gmap.
Import ListNotations.

Local Open Scope N_scope.
Local Open Scope list_scope.
#[local] Set Warnings "-register-all".

(** ** Strings *)

Definition jstring : Type := list N.

(** An ASCII literal of the source as code units. *)
Definition lit (s : string) : jstring :=
  map N_of_ascii (list_ascii_of_string s).
Arguments lit s%_string.

(** A literal in which the apostrophe stands for the double quote, for the
    JSON texts of the scenarios. *)
Definition dq (s : string) : jstring :=
  map (fun c => if c =? 39 then 34 else c) (lit s).
Arguments dq s%_string.

(** [WhiteSpace] and [LineTerminator] of ECMAScript: what [\s] matches and
    what [String.prototype.trim] strips. *)
Definition is_white_space (c : N) : bool :=
  ((9 <=? c) && (c <=? 13)) || (c =? 32) || (c =? 160) || (c =? 5760)
  || ((8192 <=? c) && (c <=? 8202)) || (c =? 8232) || (c =? 8233)
  || (c =? 8239) || (c =? 8287) || (c =? 12288) || (c =? 65279).

(** [LineTerminator]: the code units [.] does not match. *)
Definition is_line_terminator (c : N) : bool :=
  (c =? 10) || (c =? 13) || (c =? 8232) || (c =? 8233).

Fixpoint drop_while {A} (p : A -> bool) (l : list A) : list A :=
  match l with
  | [] => []
  | x :: l' => if p x then drop_while p l' else l
  end.

Definition trimStart (s : jstring) : jstring := drop_while is_white_space s.
Definition trimEnd (s : jstring) : jstring :=
  rev (drop_while is_white_space (rev s)).

(** [s.trim()] *)
Definition trim (s : jstring) : jstring := trimEnd (trimStart s).

(** [s.startsWith(p)] *)
Fixpoint startsWith (p s : jstring) : bool :=
  match p, s with
  | [], _ => true
  | a :: p', b :: s' => (a =? b) && startsWith p' s'
  | _ :: _, [] => false
  end.

Definition jstring_eqb (a b : jstring) : bool := bool_decide (a = b).

(** Every suffix of [s], the longest first: the positions at which an
    unanchored regular expression is tried, in order. *)
Fixpoint tails (s : jstring) : list jstring :=
  match s with
  | [] => [[]]
  | _ :: s' => s :: tails s'
  end.

(** [s.split("\n")] *)
Fixpoint split_lines (s : jstring) : list jstring :=
  match s with
  | [] => [[]]
  | c :: s' =>
      if c =? 10 then [] :: split_lines s'
      else match split_lines s' with
           | l :: ls => (c :: l) :: ls
           | [] => [[c]]
           end
  end.

(** ** Regular expressions

    The regular expressions of the source are written with matchers in
    continuation-passing style. A matcher consumes a prefix of the input and
    gives the rest to its continuation; [None] means that this branch fails
    and the caller backtracks, in the order a JavaScript engine tries the
    branches (greedy: longest first; lazy: shortest first; alternatives
    from left to right). *)

Section Matchers.
Context {R : Type}.

(** one code unit of the class [p] *)
Definition re_one (p : N -> bool) (k : N -> jstring -> option R)
    (s : jstring) : option R :=
  match s with
  | c :: s' => if p c then k c s' else None
  | [] => None
  end.

(** [p*], greedy; [acc] is the text matched so far *)
Fixpoint re_star (p : N -> bool) (k : jstring -> jstring -> option R)
    (acc s : jstring) : option R :=
  match s with
  | c :: s' =>
      if p c then
        match re_star p k (acc ++ [c]) s' with
        | Some r => Some r
        | None => k acc s
        end
      else k acc s
  | [] => k acc s
  end.

(** [p+], greedy *)
Definition re_plus (p : N -> bool) (k : jstring -> jstring -> option R)
    (s : jstring) : option R :=
  re_one p (fun c s' => re_star p k [c] s') s.

(** [p*?], lazy *)
Fixpoint re_star_lazy (p : N -> bool) (k : jstring -> jstring -> option R)
    (acc s : jstring) : option R :=
  match k acc s with
  | Some r => Some r
  | None =>
      match s with
      | c :: s' => if p c then re_star_lazy p k (acc ++ [c]) s' else None
      | [] => None
      end
  end.

(** [p+?], lazy *)
Definition re_plus_lazy (p : N -> bool) (k : jstring -> jstring -> option R)
    (s : jstring) : option R :=
  re_one p (fun c s' => re_star_lazy p k [c] s') s.

(** a literal text *)
Fixpoint re_str (t : jstring) (k : jstring -> option R) (s : jstring)
    : option R :=
  match t with
  | [] => k s
  | a :: t' =>
      match s with
      | c :: s' => if a =? c then re_str t' k s' else None
      | [] => None
      end
  end.

(** [a|b] *)
Definition re_alt (a b : (jstring -> option R) -> jstring -> option R)
    (k : jstring -> option R) (s : jstring) : option R :=
  match a k s with
  | Some r => Some r
  | None => b k s
  end.

(** [(?:a)?], greedy *)
Definition re_opt (a : (jstring -> option R) -> jstring -> option R)
    (k : jstring -> option R) (s : jstring) : option R :=
  match a k s with
  | Some r => Some r
  | None => k s
  end.

(** [$] without the [m] flag: the end of the input *)
Definition re_end (r : R) (s : jstring) : option R :=
  match s with
  | [] => Some r
  | _ :: _ => None
  end.
End Matchers.

(** ** Model definitions *)

Record CursorModelDef := {
  id : jstring;
  name : jstring;
  reasoning : bool;
  contextWindow : Z;
  maxTokens : Z
}.

Definition mk (i n : string) (r : bool) (cw mt : Z) : CursorModelDef :=
  {| id := lit i; name := lit n; reasoning := r;
     contextWindow := cw; maxTokens := mt |}.

Definition STATIC_MODELS : list CursorModelDef := [
  mk "auto" "Auto" false 200000 32768;
  mk "composer-1.5" "Composer 1.5" false 200000 32768;
  mk "composer-1" "Composer 1" false 200000 32768;
  mk "opus-4.6-thinking" "Claude 4.6 Opus (Thinking)" true 200000 32000;
  mk "opus-4.6" "Claude 4.6 Opus" false 200000 32000;
  mk "opus-4.5-thinking" "Claude 4.5 Opus (Thinking)" true 200000 32000;
  mk "opus-4.5" "Claude 4.5 Opus" false 200000 32000;
  mk "sonnet-4.6-thinking" "Claude 4.6 Sonnet (Thinking)" true 200000 32000;
  mk "sonnet-4.6" "Claude 4.6 Sonnet" false 200000 32000;
  mk "sonnet-4.5-thinking" "Claude 4.5 Sonnet (Thinking)" true 200000 32000;
  mk "sonnet-4.5" "Claude 4.5 Sonnet" false 200000 32000;
  mk "gpt-5.3-codex" "GPT-5.3 Codex" false 200000 32768;
  mk "gpt-5.3-codex-low" "GPT-5.3 Codex Low" false 200000 32768;
  mk "gpt-5.3-codex-high" "GPT-5.3 Codex High" true 200000 32768;
  mk "gpt-5.3-codex-xhigh" "GPT-5.3 Codex Extra High" true 200000 32768;
  mk "gpt-5.3-codex-fast" "GPT-5.3 Codex Fast" false 200000 32768;
  mk "gpt-5.3-codex-low-fast" "GPT-5.3 Codex Low Fast" false 200000 32768;
  mk "gpt-5.3-codex-high-fast" "GPT-5.3 Codex High Fast" true 200000 32768;
  mk "gpt-5.3-codex-xhigh-fast" "GPT-5.3 Codex Extra High Fast" true 200000 32768;
  mk "gpt-5.2" "GPT-5.2" false 200000 32768;
  mk "gpt-5.2-high" "GPT-5.2 High" true 200000 32768;
  mk "gpt-5.2-codex" "GPT-5.2 Codex" false 200000 32768;
  mk "gpt-5.2-codex-high" "GPT-5.2 Codex High" true 200000 32768;
  mk "gpt-5.2-codex-low" "GPT-5.2 Codex Low" false 200000 32768;
  mk "gpt-5.2-codex-xhigh" "GPT-5.2 Codex Extra High" true 200000 32768;
  mk "gpt-5.2-codex-fast" "GPT-5.2 Codex Fast" false 200000 32768;
  mk "gpt-5.2-codex-high-fast" "GPT-5.2 Codex High Fast" true 200000 32768;
  mk "gpt-5.2-codex-low-fast" "GPT-5.2 Codex Low Fast" false 200000 32768;
  mk "gpt-5.2-codex-xhigh-fast" "GPT-5.2 Codex Extra High Fast" true 200000 32768;
  mk "gpt-5.1-high" "GPT-5.1 High" true 200000 32768;
  mk "gpt-5.1-codex-max" "GPT-5.1 Codex Max" true 200000 32768;
  mk "gpt-5.1-codex-max-high" "GPT-5.1 Codex Max High" true 200000 32768;
  mk "gpt-5.1-codex-mini" "GPT-5.1 Codex Mini" false 200000 32768;
  mk "gemini-3-pro" "Gemini 3 Pro" false 1000000 65536;
  mk "gemini-3-flash" "Gemini 3 Flash" false 1000000 65536;
  mk "grok" "Grok" false 131072 32768
]%Z.

(** [new Map(STATIC_MODELS.map((m) => [m.id, m]))]: the entries are set from
    left to right, a later entry replacing an earlier one of the same key. *)
Definition STATIC_MODELS_MAP : gmap jstring CursorModelDef :=
  fold_left (fun m d => <[id d := d]> m) STATIC_MODELS ∅.

(** ** Dynamic model discovery *)

(** [[a-zA-Z0-9]] *)
Definition is_alnum (c : N) : bool :=
  ((97 <=? c) && (c <=? 122)) || ((65 <=? c) && (c <=? 90))
  || ((48 <=? c) && (c <=? 57)).

(** [[a-zA-Z0-9._-]] *)
Definition is_id_char (c : N) : bool :=
  is_alnum c || (c =? 46) || (c =? 95) || (c =? 45).

(** [.] without the [s] flag *)
Definition is_dot (c : N) : bool := negb (is_line_terminator c).

(** [(-thinking|-high|-xhigh|-max-high)$] tried at one position *)
Definition reasoning_re (s : jstring) : option unit :=
  re_alt (re_str (lit "-thinking"))
    (re_alt (re_str (lit "-high"))
      (re_alt (re_str (lit "-xhigh")) (re_str (lit "-max-high"))))
    (re_end tt) s.

(** [/(-thinking|-high|-xhigh|-max-high)$/.test(id)]: the expression is not
    anchored at the start, so every position is tried. *)
Definition inferReasoning (id : jstring) : bool :=
  existsb (fun t => bool_decide (is_Some (reasoning_re t))) (tails id).

(** [\s+\((?:current|default|current,\s*default)\)] *)
Definition status_marker {R} (k : jstring -> option R) : jstring -> option R :=
  re_plus is_white_space (fun _ =>
  re_str (lit "(")
    (re_alt (re_str (lit "current"))
      (re_alt (re_str (lit "default"))
        (fun k' =>
           re_str (lit "current,")
             (re_star is_white_space (fun _ => re_str (lit "default") k') [])))
      (re_str (lit ")") k))).

(** [lineRe.exec(trimmed)], the two capture groups. The expression, its
    parts set apart by blanks:
    [^ ( [a-zA-Z0-9] [a-zA-Z0-9._-]* ) \s+ - \s+ ( .+? )
       (?: \s+ \( (?: current | default | current, \s* default ) \) )? $] *)
Definition lineRe_exec (s : jstring) : option (jstring * jstring) :=
  re_one is_alnum (fun c0 =>
  re_star is_id_char (fun g1 =>
  re_plus is_white_space (fun _ =>
  re_str (lit "-")
  (re_plus is_white_space (fun _ =>
  re_plus_lazy is_dot (fun g2 =>
  re_opt status_marker (re_end (g1, g2))))))) [c0]) s.

(** The object that [results.push] gets for an identifier and a name: the
    attributes of the static table if the identifier is known there,
    otherwise the inferred flag and the defaults. *)
Definition discovered (id rawName : jstring) : CursorModelDef :=
  let known := STATIC_MODELS_MAP !! id in
  {| id := id;
     name := rawName;
     reasoning := match known with
                  | Some k => reasoning k
                  | None => inferReasoning id
                  end;
     contextWindow := match known with
                      | Some k => contextWindow k
                      | None => 200000%Z
                      end;
     maxTokens := match known with
                  | Some k => maxTokens k
                  | None => 32768%Z
                  end |}.

(** The body of the loop of [parseAgentModelsOutput] for one line: [None]
    where the source [continue]s, the pushed definition otherwise. *)
Definition parse_model_line (line : jstring) : option CursorModelDef :=
  let trimmed := trim line in
  if bool_decide (trimmed = []) || startsWith (lit "Available") trimmed
     || startsWith (lit "Tip:") trimmed
  then None
  else
    match lineRe_exec trimmed with
    | None => None
    | Some (g1, g2) => Some (discovered (trim g1) (trim g2))
    end.

Definition parseAgentModelsOutput (output : jstring) : list CursorModelDef :=
  omap parse_model_line (split_lines output).

(** *** [runAgentModels]

    The promise of [runAgentModels] and the callbacks registered on the
    child process. The events are what the runtime delivers to them. *)

(** What [child.kill("SIGTERM")] does: it returns, or the signal cannot
    be sent and the child emits [error] inside the call, before it
    returns. *)
Inductive kill_result :=
| Kill_returns
| Kill_fails (err : jstring).

Inductive child_event :=
| StdoutData (chunk : jstring)
| StderrData (chunk : jstring)
| TimerFired (kill : kill_result)   (* the timeout, with what its kill does *)
| ChildError (err : jstring)        (* [error]: the child was not spawned *)
| ChildClose (code : option Z).

(** The [Error] a rejection carries, by the place that builds it. *)
Inductive rejection :=
| TimedOut
| ErrorEvent (err : jstring)        (* [reject(err)] of the [error] handler *)
| ExitedWithCode (code : option Z) (stderr_text : jstring)
| NoModels.

Inductive promise_state :=
| Pending
| Resolved (models : list CursorModelDef)
| Rejected (why : rejection).

Record discovery := {
  d_stdout : jstring;
  d_stderr : jstring;
  d_timer : bool;          (* the timeout is armed *)
  d_sigterm : nat;         (* child.kill("SIGTERM") calls *)
  d_promise : promise_state
}.

Definition discovery_init : discovery :=
  {| d_stdout := []; d_stderr := []; d_timer := true; d_sigterm := 0%nat;
     d_promise := Pending |}.

(** [resolve] and [reject] settle a promise once; later calls do nothing. *)
Definition settle (p : promise_state) (s : discovery) : discovery :=
  match d_promise s with
  | Pending =>
      {| d_stdout := d_stdout s; d_stderr := d_stderr s; d_timer := d_timer s;
         d_sigterm := d_sigterm s; d_promise := p |}
  | _ => s
  end.

Definition clearTimeout (s : discovery) : discovery :=
  {| d_stdout := d_stdout s; d_stderr := d_stderr s; d_timer := false;
     d_sigterm := d_sigterm s; d_promise := d_promise s |}.

(** [child.on("error", (err) => ...)] *)
Definition discovery_on_error (err : jstring) (s : discovery) : discovery :=
  settle (Rejected (ErrorEvent err)) (clearTimeout s).

Definition discovery_step (s : discovery) (e : child_event) : discovery :=
  match e with
  | StdoutData chunk =>
      {| d_stdout := d_stdout s ++ chunk; d_stderr := d_stderr s;
         d_timer := d_timer s; d_sigterm := d_sigterm s;
         d_promise := d_promise s |}
  | StderrData chunk =>
      {| d_stdout := d_stdout s; d_stderr := d_stderr s ++ chunk;
         d_timer := d_timer s; d_sigterm := d_sigterm s;
         d_promise := d_promise s |}
  | TimerFired kill =>
      if d_timer s then
        let s := {| d_stdout := d_stdout s; d_stderr := d_stderr s;
                    d_timer := false; d_sigterm := S (d_sigterm s);
                    d_promise := d_promise s |} in
        let s := match kill with
                 | Kill_returns => s
                 | Kill_fails err => discovery_on_error err s
                 end in
        settle (Rejected TimedOut) s
      else s
  | ChildError err => discovery_on_error err s
  | ChildClose code =>
      let s := clearTimeout s in
      if negb (bool_decide (code = Some 0%Z)) then
        settle (Rejected (ExitedWithCode code (trim (d_stderr s)))) s
      else
        let models := parseAgentModelsOutput (d_stdout s) in
        if bool_decide (length models = 0%nat) then
          settle (Rejected NoModels) s
        else settle (Resolved models) s
  end.

Definition runAgentModels (events : list child_event) : discovery :=
  fold_left discovery_step events discovery_init.

(** ** JavaScript values of the NDJSON stream

    What [JSON.parse] returns, and [undefined], which reading a missing
    property gives. A number is a double; nothing in the provider computes
    with one, so it is held as the text [Number.prototype.toString] gives
    for it, which is also what [JSON.stringify] writes (["0"] for both
    zeros). The properties of an object are in the order [Object.keys]
    lists them. *)

Inductive value :=
| VUndefined
| VNull
| VBool (b : bool)
| VNumber (repr : jstring)
| VString (s : jstring)
| VArray (items : list value)
| VObject (props : list (jstring * value)).

(** The own property [k] of an object. *)
Fixpoint lookup_own (k : jstring) (props : list (jstring * value)) : value :=
  match props with
  | [] => VUndefined
  | (k', v) :: rest => if jstring_eqb k' k then v else lookup_own k rest
  end.

(** [v.k] for a property name [k] that no prototype defines ([type],
    [message], [content], [text], [subtype], [tool_call], [args]): [None]
    is the [TypeError] of reading a property of [undefined] or [null]. *)
Definition get (k : jstring) (v : value) : option value :=
  match v with
  | VUndefined | VNull => None
  | VObject props => Some (lookup_own k props)
  | _ => Some VUndefined
  end.

(** [!v] is false *)
Definition truthy (v : value) : bool :=
  match v with
  | VUndefined | VNull => false
  | VBool b => b
  | VNumber r => negb (jstring_eqb r (lit "0") || jstring_eqb r (lit "NaN"))
  | VString s => negb (jstring_eqb s [])
  | VArray _ | VObject _ => true
  end.

(** [v === "s"] *)
Definition is_string (s : jstring) (v : value) : bool :=
  match v with
  | VString s' => jstring_eqb s' s
  | _ => false
  end.

Definition is_high_surrogate (c : N) : bool := (55296 <=? c) && (c <=? 56319).
Definition is_low_surrogate (c : N) : bool := (56320 <=? c) && (c <=? 57343).

(** The values [for (const x of v)] goes through: the elements of an array,
    the code points of a string; [None] where [v] is not iterable. *)
Fixpoint code_points (s : jstring) : list jstring :=
  match s with
  | [] => []
  | c :: s' =>
      match s' with
      | d :: s'' =>
          if is_high_surrogate c && is_low_surrogate d
          then [c; d] :: code_points s''
          else [c] :: code_points s'
      | [] => [[c]]
      end
  end.

Definition iterate (v : value) : option (list value) :=
  match v with
  | VArray items => Some items
  | VString s => Some (map VString (code_points s))
  | _ => None
  end.

(** [Object.keys(v)[0]]: [None] is the [TypeError] for [undefined] and
    [null]; [Some None] is [undefined], when there is no key. An array and a
    string have their indices as keys. *)
Definition first_key (v : value) : option (option jstring) :=
  match v with
  | VUndefined | VNull => None
  | VBool _ | VNumber _ => Some None
  | VString [] | VArray [] | VObject [] => Some None
  | VString (_ :: _) | VArray (_ :: _) => Some (Some (lit "0"))
  | VObject ((k, _) :: _) => Some (Some k)
  end.

(** [v[k]] for the key [k] that [first_key] gave. *)
Definition get_first (k : jstring) (v : value) : value :=
  match v with
  | VString (c :: _) => VString [c]
  | VArray (x :: _) => x
  | VObject props => lookup_own k props
  | _ => VUndefined
  end.

(** *** [JSON.stringify] *)

Definition hex_digit (d : N) : N := if d <? 10 then 48 + d else 87 + d.

(** [\uXXXX], in lower case *)
Definition unicode_escape (c : N) : jstring :=
  [92; 117; hex_digit (c / 4096 mod 16); hex_digit (c / 256 mod 16);
   hex_digit (c / 16 mod 16); hex_digit (c mod 16)].

Definition quote_unit (c : N) : jstring :=
  if c =? 8 then lit "\b"
  else if c =? 9 then lit "\t"
  else if c =? 10 then lit "\n"
  else if c =? 12 then lit "\f"
  else if c =? 13 then lit "\r"
  else if c =? 34 then [92; 34]
  else if c =? 92 then [92; 92]
  else if c <? 32 then unicode_escape c
  else [c].

Fixpoint quote_body (s : jstring) : jstring :=
  match s with
  | [] => []
  | c :: s' =>
      if is_high_surrogate c then
        match s' with
        | d :: s'' =>
            if is_low_surrogate d then c :: d :: quote_body s''
            else unicode_escape c ++ quote_body s'
        | [] => unicode_escape c
        end
      else if is_low_surrogate c then unicode_escape c ++ quote_body s'
      else quote_unit c ++ quote_body s'
  end.

(** [QuoteJSONString] *)
Definition QuoteJSONString (s : jstring) : jstring :=
  [34] ++ quote_body s ++ [34].

Fixpoint join (sep : jstring) (l : list jstring) : jstring :=
  match l with
  | [] => []
  | [x] => x
  | x :: l' => x ++ sep ++ join sep l'
  end.

(** [SerializeJSONProperty] without replacer and indentation: [None] is
    [undefined]. A value that [JSON.parse] built has no callable [toJSON]. *)
Fixpoint JSON_stringify (v : value) : option jstring :=
  match v with
  | VUndefined => None
  | VNull => Some (lit "null")
  | VBool b => Some (if b then lit "true" else lit "false")
  | VNumber r =>
      if jstring_eqb r (lit "Infinity") || jstring_eqb r (lit "-Infinity")
         || jstring_eqb r (lit "NaN")
      then Some (lit "null") else Some r
  | VString s => Some (QuoteJSONString s)
  | VArray items =>
      Some (lit "[" ++
            join (lit ",")
              (map (fun x => match JSON_stringify x with
                             | Some t => t
                             | None => lit "null"
                             end) items)
            ++ lit "]")
  | VObject props =>
      Some (lit "{" ++
            join (lit ",")
              ((fix members (ps : list (jstring * value)) : list jstring :=
                  match ps with
                  | [] => []
                  | (k, x) :: ps' =>
                      match JSON_stringify x with
                      | Some t => (QuoteJSONString k ++ lit ":" ++ t) :: members ps'
                      | None => members ps'
                      end
                  end) props)
            ++ lit "}")
  end.

(** ** Tool name mapping *)

Definition TOOL_NAME_MAP : gmap jstring jstring :=
  list_to_map [
    (lit "shellToolCall", lit "Shell");
    (lit "readToolCall", lit "Read");
    (lit "editToolCall", lit "Edit");
    (lit "writeToolCall", lit "Write");
    (lit "deleteToolCall", lit "Delete");
    (lit "grepToolCall", lit "Grep");
    (lit "globToolCall", lit "Glob");
    (lit "lsToolCall", lit "Ls");
    (lit "todoToolCall", lit "Todo");
    (lit "updateTodosToolCall", lit "UpdateTodos");
    (lit "findToolCall", lit "Find");
    (lit "webFetchToolCall", lit "WebFetch");
    (lit "webSearchToolCall", lit "WebSearch")
  ].

(** [TOOL_NAME_MAP] is an object literal: a key it does not own is looked up
    in [Object.prototype], whose members are these. *)
Definition Object_prototype_keys : list jstring := [
  lit "constructor"; lit "__defineGetter__"; lit "__defineSetter__";
  lit "hasOwnProperty"; lit "__lookupGetter__"; lit "__lookupSetter__";
  lit "isPrototypeOf"; lit "propertyIsEnumerable"; lit "toString";
  lit "valueOf"; lit "__proto__"; lit "toLocaleString"
].

(** What [toPiToolName] returns: a string, or the member of
    [Object.prototype] of that name. *)
Inductive tool_name :=
| Named (s : jstring)
| Inherited (key : jstring).

(** [/ToolCall$/] tried at one position *)
Definition ToolCall_re (s : jstring) : option unit :=
  re_str (lit "ToolCall") (re_end tt) s.

(** [s.replace(/ToolCall$/, '')]: the leftmost match is removed. *)
Fixpoint replace_ToolCall (s : jstring) : jstring :=
  if bool_decide (is_Some (ToolCall_re s)) then []
  else match s with
       | [] => []
       | c :: s' => c :: replace_ToolCall s'
       end.

Definition toPiToolName (cliKey : jstring) : tool_name :=
  match TOOL_NAME_MAP !! cliKey with
  | Some n => Named n
  | None =>
      if bool_decide (cliKey ∈ Object_prototype_keys) then Inherited cliKey
      else Named (replace_ToolCall cliKey)
  end.

(** [`${toolName}`]: a string as it is; a built-in function as V8 prints
    it; [Object.prototype] itself (the key [__proto__]) as any object. *)
Definition render_tool_name (t : tool_name) : jstring :=
  match t with
  | Named s => s
  | Inherited k =>
      if jstring_eqb k (lit "__proto__") then lit "[object Object]"
      else lit "function "
           ++ (if jstring_eqb k (lit "constructor") then lit "Object" else k)
           ++ lit "() { [native code] }"
  end.

(** ** The stream translator: [streamCursorCli] *)

Inductive StopReason := SR_stop | SR_aborted | SR_error.

(** [{ type: "text", text }] *)
Record TextContent := { text : jstring }.

(** The fields of the output message that change during an invocation; the
    others ([role], [api], [provider], [model], [usage], [timestamp]) are
    set once when the message is built. *)
Record AssistantMessage := {
  content : list TextContent;
  stopReason : StopReason;
  errorMessage : option jstring
}.

(** What is pushed on the event stream. Every event of the source also
    carries [output] itself ([partial], [message], [error]): one object,
    shared by all events, which the state below holds once. *)
Inductive stream_event :=
| E_start
| E_text_start (contentIndex : Z)
| E_text_delta (contentIndex : Z) (delta : jstring)
| E_text_end (contentIndex : Z) (content : jstring)
| E_done (reason : StopReason)
| E_error (reason : StopReason).

Record state := {
  output : AssistantMessage;
  textBlockOpen : bool;
  accumulatedText : jstring;
  stderrChunks : list jstring;
  signal_aborted : bool;       (* options.signal.aborted *)
  abort_listener : bool;       (* onAbort is registered on the signal *)
  sigterm : nat;               (* child.kill("SIGTERM") calls *)
  pushed : list stream_event;  (* stream.push calls, the oldest first *)
  ended : nat;                 (* stream.end() calls *)
  resolved : nat               (* resolve() calls of the awaited promise *)
}.

(** A callback returns, or throws with the state as it left it. *)
Inductive outcome :=
| Returned (st : state)
| Threw (st : state).

Definition set_output (o : AssistantMessage) (st : state) : state :=
  {| output := o; textBlockOpen := textBlockOpen st;
     accumulatedText := accumulatedText st; stderrChunks := stderrChunks st;
     signal_aborted := signal_aborted st; abort_listener := abort_listener st;
     sigterm := sigterm st; pushed := pushed st; ended := ended st;
     resolved := resolved st |}.

Definition set_textBlockOpen (b : bool) (st : state) : state :=
  {| output := output st; textBlockOpen := b;
     accumulatedText := accumulatedText st; stderrChunks := stderrChunks st;
     signal_aborted := signal_aborted st; abort_listener := abort_listener st;
     sigterm := sigterm st; pushed := pushed st; ended := ended st;
     resolved := resolved st |}.

Definition set_accumulatedText (t : jstring) (st : state) : state :=
  {| output := output st; textBlockOpen := textBlockOpen st;
     accumulatedText := t; stderrChunks := stderrChunks st;
     signal_aborted := signal_aborted st; abort_listener := abort_listener st;
     sigterm := sigterm st; pushed := pushed st; ended := ended st;
     resolved := resolved st |}.

(** [stream.push(e)] *)
Definition push (e : stream_event) (st : state) : state :=
  {| output := output st; textBlockOpen := textBlockOpen st;
     accumulatedText := accumulatedText st; stderrChunks := stderrChunks st;
     signal_aborted := signal_aborted st; abort_listener := abort_listener st;
     sigterm := sigterm st; pushed := pushed st ++ [e]; ended := ended st;
     resolved := resolved st |}.

(** [stream.end()] *)
Definition stream_end (st : state) : state :=
  {| output := output st; textBlockOpen := textBlockOpen st;
     accumulatedText := accumulatedText st; stderrChunks := stderrChunks st;
     signal_aborted := signal_aborted st; abort_listener := abort_listener st;
     sigterm := sigterm st; pushed := pushed st; ended := S (ended st);
     resolved := resolved st |}.

(** [resolve()] *)
Definition resolve (st : state) : state :=
  {| output := output st; textBlockOpen := textBlockOpen st;
     accumulatedText := accumulatedText st; stderrChunks := stderrChunks st;
     signal_aborted := signal_aborted st; abort_listener := abort_listener st;
     sigterm := sigterm st; pushed := pushed st; ended := ended st;
     resolved := S (resolved st) |}.

(** [options?.signal?.removeEventListener("abort", onAbort)] *)
Definition removeEventListener (st : state) : state :=
  {| output := output st; textBlockOpen := textBlockOpen st;
     accumulatedText := accumulatedText st; stderrChunks := stderrChunks st;
     signal_aborted := signal_aborted st; abort_listener := false;
     sigterm := sigterm st; pushed := pushed st; ended := ended st;
     resolved := resolved st |}.

Definition set_content (c : list TextContent) (o : AssistantMessage)
    : AssistantMessage :=
  {| content := c; stopReason := stopReason o;
     errorMessage := errorMessage o |}.

(** [output.content.length - 1] *)
Definition last_index (st : state) : Z :=
  (Z.of_nat (length (content (output st))) - 1)%Z.

(** The block that both the [assistant] and the [tool_call] branch run on a
    piece of text: open a text block when none is open, then append to the
    last content block and to [accumulatedText] and push the delta. Without
    a last content block, [textBlock] is [undefined] and the append throws. *)
Definition emit_text (t : jstring) (st : state) : outcome :=
  let st :=
    if negb (textBlockOpen st) then
      let st := set_output
                  (set_content (content (output st) ++ [{| text := [] |}])
                     (output st)) st in
      let idx := last_index st in
      set_textBlockOpen true (push (E_text_start idx) st)
    else st in
  let idx := last_index st in
  match (if (idx <? 0)%Z then None
         else content (output st) !! Z.to_nat idx) with
  | None => Threw st
  | Some textBlock =>
      let st := set_output
                  (set_content
                     (<[Z.to_nat idx := {| text := text textBlock ++ t |}]>
                        (content (output st)))
                     (output st)) st in
      let st := set_accumulatedText (accumulatedText st ++ t) st in
      Returned (push (E_text_delta idx t) st)
  end.

(** The body of the loop over [ae.message.content]; to [continue] is to
    return the state as it is. *)
Definition on_block (block : value) (st : state) : outcome :=
  match get (lit "type") block with
  | None => Threw st
  | Some ty =>
      if negb (is_string (lit "text") ty) then Returned st
      else
        match get (lit "text") block with
        | Some (VString t) =>
            if bool_decide (trim t = []) then Returned st
            else emit_text t st
        | _ => Threw st   (* [block.text.trim] is not a function *)
        end
  end.

Fixpoint for_of (body : value -> state -> outcome) (items : list value)
    (st : state) : outcome :=
  match items with
  | [] => Returned st
  | x :: rest =>
      match body x st with
      | Returned st' => for_of body rest st'
      | Threw st' => Threw st'
      end
  end.

(** The [assistant] branch of the line handler. *)
Definition on_assistant (event : value) (st : state) : outcome :=
  match get (lit "message") event with
  | None => Threw st
  | Some message =>
      match get (lit "content") message with
      | None => Threw st
      | Some c =>
          match iterate c with
          | None => Threw st
          | Some blocks => for_of on_block blocks st
          end
      end
  end.

(** [argsSnippet.length > 120 ? argsSnippet.slice(0, 120) + "…" : argsSnippet] *)
Definition brief (argsSnippet : jstring) : jstring :=
  if (120 <? length argsSnippet)%nat then take 120 argsSnippet ++ [8230]
  else argsSnippet.

(** [`\n⏳ [${toolName}] ${brief}\n`] *)
Definition marker (toolName : tool_name) (brief : jstring) : jstring :=
  [10; 9203] ++ lit " [" ++ render_tool_name toolName ++ lit "] " ++ brief
  ++ [10].

(** [payload.args ?? {}] *)
Definition args_or_empty (args : value) : value :=
  match args with
  | VUndefined | VNull => VObject []
  | _ => args
  end.

(** The [tool_call] branch of the line handler. *)
Definition on_tool_call (event : value) (st : state) : outcome :=
  match get (lit "tool_call") event with
  | None => Threw st
  | Some tool_call =>
      match first_key tool_call with
      | None => Threw st
      | Some None => Returned st
      | Some (Some cliKey) =>
          if bool_decide (cliKey = []) then Returned st
          else
            let toolName := toPiToolName cliKey in
            match get (lit "subtype") event with
            | None => Threw st
            | Some subtype =>
                if is_string (lit "started") subtype then
                  let payload := get_first cliKey tool_call in
                  match get (lit "args") payload with
                  | None => Threw st
                  | Some args =>
                      match JSON_stringify (args_or_empty args) with
                      | None => Threw st
                      | Some argsSnippet =>
                          emit_text (marker toolName (brief argsSnippet)) st
                      end
                  end
                else Returned st
            end
      end
  end.

(** The line handler after [parseLine]. *)
Definition on_event (event : value) (st : state) : outcome :=
  if negb (truthy event) then Returned st
  else
    match get (lit "type") event with
    | None => Threw st
    | Some ty =>
        if is_string (lit "assistant") ty then on_assistant event st
        else if is_string (lit "tool_call") ty then on_tool_call event st
        else Returned st
    end.

(** The decimal text of an integer, as a template literal prints it. *)
Definition Z_to_jstring (z : Z) : jstring :=
  lit (NilZero.string_of_int (Z.to_int z)).

(** [`Cursor CLI exited with code ${code}`]; the code is [null] when a
    signal ended the process. *)
Definition exited_with_code (code : option Z) : jstring :=
  lit "Cursor CLI exited with code "
  ++ match code with
     | Some z => Z_to_jstring z
     | None => lit "null"
     end.

Definition finish (r : StopReason) (msg : option jstring) (st : state)
    : state :=
  set_output {| content := content (output st); stopReason := r;
                errorMessage := msg |} st.

(** [child.on("close", (code) => ...)] *)
Definition on_close (code : option Z) (st : state) : state :=
  let st := removeEventListener st in
  let st :=
    if textBlockOpen st then
      let idx := last_index st in
      set_textBlockOpen false
        (push (E_text_end idx (accumulatedText st)) st)
    else st in
  if signal_aborted st then
    let st := finish SR_aborted (errorMessage (output st)) st in
    resolve (stream_end (push (E_error SR_aborted) st))
  else if negb (bool_decide (code = Some 0%Z))
          && bool_decide (accumulatedText st = []) then
    let stderr := trim (concat (stderrChunks st)) in
    let st :=
      finish SR_error
        (Some (if bool_decide (stderr = []) then exited_with_code code
               else stderr)) st in
    resolve (stream_end (push (E_error SR_error) st))
  else
    resolve (stream_end (push (E_done SR_stop) st)).

(** [child.on("error", (err) => ...)], with [err.message] *)
Definition on_error (message : jstring) (st : state) : state :=
  let st := removeEventListener st in
  let st := finish SR_error (Some message) st in
  resolve (stream_end (push (E_error SR_error) st)).

(** The signal of [options] aborts: [onAbort], registered with [once], runs
    if it is still registered. *)
Definition on_abort (st : state) : state :=
  if signal_aborted st then st
  else
    {| output := output st; textBlockOpen := textBlockOpen st;
       accumulatedText := accumulatedText st; stderrChunks := stderrChunks st;
       signal_aborted := true; abort_listener := false;
       sigterm := if abort_listener st then S (sigterm st) else sigterm st;
       pushed := pushed st; ended := ended st; resolved := resolved st |}.

(** [child.stderr.on("data", ...)] *)
Definition on_stderr (chunk : jstring) (st : state) : state :=
  {| output := output st; textBlockOpen := textBlockOpen st;
     accumulatedText := accumulatedText st;
     stderrChunks := stderrChunks st ++ [chunk];
     signal_aborted := signal_aborted st; abort_listener := abort_listener st;
     sigterm := sigterm st; pushed := pushed st; ended := ended st;
     resolved := resolved st |}.

(** The [catch] of [streamCursorCli], with the message of what was thrown. *)
Definition on_catch (message : jstring) (st : state) : state :=
  let r := if signal_aborted st then SR_aborted else SR_error in
  let st := finish r (Some message) st in
  stream_end (push (E_error r) st).

(** What the runtime delivers to the callbacks of one invocation. *)
Inductive proc_event :=
| EvLine (line : jstring)         (* rl: "line" *)
| EvStderr (chunk : jstring)      (* child.stderr: "data" *)
| EvAbort                         (* options.signal: "abort" *)
| EvClose (code : option Z)       (* child: "close" *)
| EvError (message : jstring).    (* child: "error" *)

(** The state when [spawn] has returned and the callbacks are registered:
    [start] is pushed. [signal] is [None] without [options.signal], and
    otherwise its [aborted] flag at that time. *)
Definition spawned (signal : option bool) : state :=
  {| output := {| content := []; stopReason := SR_stop;
                  errorMessage := None |};
     textBlockOpen := false; accumulatedText := []; stderrChunks := [];
     signal_aborted := default false signal;
     abort_listener := bool_decide (is_Some signal); sigterm := 0%nat;
     pushed := [E_start]; ended := 0%nat; resolved := 0%nat |}.

Section Translator.
(** [JSON.parse] of the host; [None] when it throws. *)
Variable JSON_parse : jstring -> option value.

Definition parseLine (line : jstring) : value :=
  let trimmed := trim line in
  if bool_decide (trimmed = []) then VNull
  else
    match JSON_parse trimmed with
    | Some v => v
    | None => VNull
    end.

(** [rl.on("line", (line) => ...)] *)
Definition on_line (line : jstring) (st : state) : outcome :=
  on_event (parseLine line) st.

Definition step (e : proc_event) (st : state) : outcome :=
  match e with
  | EvLine line => on_line line st
  | EvStderr chunk => Returned (on_stderr chunk st)
  | EvAbort => Returned (on_abort st)
  | EvClose code => Returned (on_close code st)
  | EvError message => Returned (on_error message st)
  end.

(** The callbacks run one at a time, in the order of the events; a
    callback that throws is not caught by the provider. *)
Fixpoint run (events : list proc_event) (st : state) : outcome :=
  match events with
  | [] => Returned st
  | e :: rest =>
      match step e st with
      | Returned st' => run rest st'
      | Threw st' => Threw st'
      end
  end.
End Translator.

(** One invocation: [spawn] throws inside the [try], or it returns a child
    whose events follow. *)
Inductive invocation :=
| SpawnThrows (message : jstring)
| Spawned (events : list proc_event).

Definition streamCursorCli (JSON_parse : jstring -> option value)
    (signal : option bool) (inv : invocation) : outcome :=
  match inv with
  | SpawnThrows message =>
      Returned (on_catch message
                  {| output := output (spawned signal);
                     textBlockOpen := false; accumulatedText := [];
                     stderrChunks := [];
                     signal_aborted := default false signal;
                     abort_listener := false; sigterm := 0%nat;
                     pushed := [E_start]; ended := 0%nat;
                     resolved := 0%nat |})
  | Spawned events => run JSON_parse events (spawned signal)
  end.

(** ** A reference [JSON.parse]

    The translator above is stated for any [JSON.parse]. This one follows
    ECMA-404 and ECMA-262 ([JSON.parse] without reviver); it runs the
    scenarios of the specification on the lines they give. *)

Module JSON.

Inductive token :=
| TLBrace | TRBrace | TLBracket | TRBracket | TColon | TComma
| TString (s : jstring)
| TWord (w : jstring).

Inductive lex_mode :=
| LIdle
| LWord (acc : jstring)
| LString (acc : jstring)
| LEscape (acc : jstring)
| LUnicode (acc : jstring) (digits : list N).

Definition is_json_ws (c : N) : bool :=
  (c =? 9) || (c =? 10) || (c =? 13) || (c =? 32).

Definition is_digit (c : N) : bool := (48 <=? c) && (c <=? 57).

(** the code units of a number or of [true], [false], [null] *)
Definition is_word_char (c : N) : bool :=
  is_alnum c || (c =? 43) || (c =? 45) || (c =? 46).

Definition hex_value (c : N) : option N :=
  if is_digit c then Some (c - 48)
  else if (97 <=? c) && (c <=? 102) then Some (c - 87)
  else if (65 <=? c) && (c <=? 70) then Some (c - 55)
  else None.

Definition structural (c : N) : option token :=
  if c =? 123 then Some TLBrace
  else if c =? 125 then Some TRBrace
  else if c =? 91 then Some TLBracket
  else if c =? 93 then Some TRBracket
  else if c =? 58 then Some TColon
  else if c =? 44 then Some TComma
  else None.

(** the code unit an escape [\c] stands for *)
Definition escape (c : N) : option N :=
  if c =? 34 then Some 34
  else if c =? 92 then Some 92
  else if c =? 47 then Some 47
  else if c =? 98 then Some 8
  else if c =? 102 then Some 12
  else if c =? 110 then Some 10
  else if c =? 114 then Some 13
  else if c =? 116 then Some 9
  else None.

Definition lex_idle (c : N) (out : list token)
    : option (lex_mode * list token) :=
  if is_json_ws c then Some (LIdle, out)
  else if c =? 34 then Some (LString [], out)
  else
    match structural c with
    | Some t => Some (LIdle, t :: out)
    | None => if is_word_char c then Some (LWord [c], out) else None
    end.

(** One code unit of the text; the tokens are collected in reverse. *)
Definition lex_step (m : lex_mode) (out : list token) (c : N)
    : option (lex_mode * list token) :=
  match m with
  | LIdle => lex_idle c out
  | LWord acc =>
      if is_word_char c then Some (LWord (acc ++ [c]), out)
      else lex_idle c (TWord acc :: out)
  | LString acc =>
      if c =? 34 then Some (LIdle, TString acc :: out)
      else if c =? 92 then Some (LEscape acc, out)
      else if c <? 32 then None
      else Some (LString (acc ++ [c]), out)
  | LEscape acc =>
      match escape c with
      | Some u => Some (LString (acc ++ [u]), out)
      | None => if c =? 117 then Some (LUnicode acc [], out) else None
      end
  | LUnicode acc ds =>
      match hex_value c with
      | None => None
      | Some d =>
          match ds with
          | [d1; d2; d3] =>
              Some (LString (acc ++ [((d1 * 16 + d2) * 16 + d3) * 16 + d]),
                    out)
          | _ => Some (LUnicode acc (ds ++ [d]), out)
          end
      end
  end.

Fixpoint lex (s : jstring) (m : lex_mode) (out : list token)
    : option (list token) :=
  match s with
  | [] =>
      match m with
      | LIdle => Some (rev out)
      | LWord acc => Some (rev (TWord acc :: out))
      | _ => None
      end
  | c :: s' =>
      match lex_step m out c with
      | Some (m', out') => lex s' m' out'
      | None => None
      end
  end.

(** *** Numbers *)

Definition digits_value (ds : jstring) : Z :=
  fold_left (fun acc d => (acc * 10 + (Z.of_N d - 48))%Z) ds 0%Z.

(** The parts of a number of the JSON grammar,
    [-? (0 | [1-9][0-9]* ) (\.[0-9]+)? ([eE][+-]?[0-9]+)? $]:
    sign, integer digits, fraction digits, exponent. *)
Definition number_re (w : jstring)
    : option (bool * jstring * jstring * Z) :=
  let exponent (k : Z -> jstring -> option (bool * jstring * jstring * Z))
      (s : jstring) :=
    match s with
    | c :: s' =>
        if (c =? 101) || (c =? 69) then
          match s' with
          | 45 :: s'' =>
              re_plus is_digit (fun ds => k (- digits_value ds)%Z) s''
          | 43 :: s'' => re_plus is_digit (fun ds => k (digits_value ds)) s''
          | _ => re_plus is_digit (fun ds => k (digits_value ds)) s'
          end
        else k 0%Z s
    | [] => k 0%Z s
    end in
  let fraction (k : jstring -> jstring -> option (bool * jstring * jstring * Z))
      (s : jstring) :=
    match s with
    | 46 :: s' => re_plus is_digit k s'
    | _ => k [] s
    end in
  let integer (k : jstring -> jstring -> option (bool * jstring * jstring * Z))
      (s : jstring) :=
    match s with
    | 48 :: s' => k [48] s'
    | c :: s' => if is_digit c then re_star is_digit k [c] s' else None
    | [] => None
    end in
  let number (neg : bool) :=
    integer (fun ip =>
    fraction (fun fp =>
    exponent (fun ex => re_end (neg, ip, fp, ex)))) in
  match w with
  | 45 :: s => number true s
  | _ => number false w
  end.

(** A finite double as [q * 2^k], or what is beyond. *)
Inductive double := DZero | DFinite (q k : Z) | DInfinity.

(** The double nearest to [m * 10^e] for [m > 0], ties to even. *)
Definition round_to_double (m e : Z) : double :=
  let num := (if 0 <=? e then m * 10 ^ e else m)%Z in
  let den := (if 0 <=? e then 1 else 10 ^ (- e))%Z in
  let b := (Z.log2 num - Z.log2 den)%Z in
  let L := (if (if 0 <=? b then den * 2 ^ b <=? num
                else den <=? num * 2 ^ (- b))
            then b else b - 1)%Z in
  let k := Z.max (L - 52) (-1074) in
  let n' := (if 0 <=? k then num else num * 2 ^ (- k))%Z in
  let d' := (if 0 <=? k then den * 2 ^ k else den)%Z in
  let q0 := (n' / d')%Z in
  let r := (n' mod d')%Z in
  let q := (if (d' <? 2 * r) || ((d' =? 2 * r) && Z.odd q0)
            then q0 + 1 else q0)%Z in
  let '(q, k) := (if q =? 2 ^ 53 then (2 ^ 52, k + 1) else (q, k))%Z in
  if (q =? 0)%Z then DZero
  else if (971 <? k)%Z then DInfinity
  else DFinite q k.

Definition double_eqb (a b : double) : bool :=
  match a, b with
  | DZero, DZero | DInfinity, DInfinity => true
  | DFinite q k, DFinite q' k' => (q =? q')%Z && (k =? k')%Z
  | _, _ => false
  end.

(** [10^(n-1) <= q * 2^k] *)
Definition pow10_le (n q k : Z) : bool :=
  let xn := (if 0 <=? k then q * 2 ^ k else q)%Z in
  let xd := (if 0 <=? k then 1 else 2 ^ (- k))%Z in
  (if 1 <=? n then 10 ^ (n - 1) * xd <=? xn
   else xd <=? xn * 10 ^ (1 - n))%Z.

Fixpoint find_n (fuel : nat) (n q k : Z) : Z :=
  match fuel with
  | O => n
  | S fuel' => if pow10_le n q k then n else find_n fuel' (n - 1)%Z q k
  end.

(** The [n] with [10^(n-1) <= q * 2^k < 10^n]. *)
Definition decimal_exponent (q k : Z) : Z :=
  let L := (Z.log2 q + k)%Z in
  find_n 4 (L * 30103 / 100000 + 2)%Z q k.

(** The digits [s] (and [n]) of [Number::toString] with [p] digits, if
    such a decimal denotes the double [q * 2^k]: of the two decimals next
    to it the one that does and is nearer, an even [s] on a tie. *)
Definition digits_at (p n q k : Z) : option (Z * Z) :=
  let xn := (if 0 <=? k then q * 2 ^ k else q)%Z in
  let xd := (if 0 <=? k then 1 else 2 ^ (- k))%Z in
  let sn := (if 0 <=? p - n then xn * 10 ^ (p - n) else xn)%Z in
  let sd := (if 0 <=? p - n then xd else xd * 10 ^ (n - p))%Z in
  let lo := (sn / sd)%Z in
  let hi := (lo + 1)%Z in
  let r := (sn mod sd)%Z in
  let ok s := double_eqb (round_to_double s (n - p)) (DFinite q k) in
  let pick s := (if s =? 10 ^ p then Some (10 ^ (p - 1), n + 1)
                 else Some (s, n))%Z in
  match ok lo, ok hi with
  | true, true =>
      if (2 * r <? sd)%Z then pick lo
      else if (sd <? 2 * r)%Z then pick hi
      else if Z.even lo then pick lo else pick hi
  | true, false => pick lo
  | false, true => pick hi
  | false, false => None
  end.

Fixpoint shortest (fuel : nat) (p n q k : Z) : Z * Z :=
  match fuel with
  | O => (q, n)
  | S fuel' =>
      match digits_at p n q k with
      | Some r => r
      | None => shortest fuel' (p + 1)%Z n q k
      end
  end.

Definition zeros (n : Z) : jstring := repeat 48 (Z.to_nat n).

(** [Number::toString] of a positive finite double. *)
Definition Number_toString (q k : Z) : jstring :=
  let '(s, n) := shortest 17 1 (decimal_exponent q k) q k in
  let ds := Z_to_jstring s in
  let kd := Z.of_nat (length ds) in
  if ((kd <=? n) && (n <=? 21))%Z then ds ++ zeros (n - kd)
  else if ((0 <? n) && (n <=? 21))%Z then
    take (Z.to_nat n) ds ++ lit "." ++ drop (Z.to_nat n) ds
  else if ((-6 <? n) && (n <=? 0))%Z then lit "0." ++ zeros (- n) ++ ds
  else
    let e := (n - 1)%Z in
    let et := (if (0 <=? e)%Z then lit "+" else lit "-")
              ++ Z_to_jstring (Z.abs e) in
    match ds with
    | [d] => [d] ++ lit "e" ++ et
    | d :: rest => [d] ++ lit "." ++ rest ++ lit "e" ++ et
    | [] => []
    end.

(** The number a numeric word denotes, as [VNumber] holds it. *)
Definition number_value (w : jstring) : option value :=
  match number_re w with
  | None => None
  | Some (neg, ip, fp, ex) =>
      let m := digits_value (ip ++ fp) in
      let e := (ex - Z.of_nat (length fp))%Z in
      (* the digits of [m] without leading zeros: [10^(nd-1) <= m < 10^nd],
         so beyond the bounds below the value is out of the range of the
         doubles and the powers need not be computed *)
      let nd := Z.of_nat (length (Z_to_jstring m)) in
      let sign := if neg then lit "-" else [] in
      if (m =? 0)%Z then Some (VNumber (lit "0"))
      else if (400 <? nd + e)%Z then Some (VNumber (sign ++ lit "Infinity"))
      else if (nd + e <? -400)%Z then Some (VNumber (lit "0"))
      else
        match round_to_double m e with
        | DZero => Some (VNumber (lit "0"))
        | DInfinity => Some (VNumber (sign ++ lit "Infinity"))
        | DFinite q k => Some (VNumber (sign ++ Number_toString q k))
        end
  end.

Definition word_value (w : jstring) : option value :=
  if jstring_eqb w (lit "true") then Some (VBool true)
  else if jstring_eqb w (lit "false") then Some (VBool false)
  else if jstring_eqb w (lit "null") then Some VNull
  else number_value w.

(** *** Objects *)

(** [CreateDataProperty]: a key that is there keeps its place. *)
Fixpoint define (k : jstring) (v : value) (props : list (jstring * value))
    : list (jstring * value) :=
  match props with
  | [] => [(k, v)]
  | (k', v') :: rest =>
      if jstring_eqb k' k then (k, v) :: rest
      else (k', v') :: define k v rest
  end.

(** An array index: the canonical decimal text of an integer below
    [2^32 - 1]. *)
Definition array_index (k : jstring) : option Z :=
  match k with
  | [] => None
  | [48] => Some 0%Z
  | c :: _ =>
      if forallb is_digit k && negb (c =? 48)
         && (length k <=? 10)%nat
         && (digits_value k <? 4294967295)%Z
      then Some (digits_value k) else None
  end.

Fixpoint insert_index (i : Z) (kv : jstring * value)
    (l : list (Z * (jstring * value))) : list (Z * (jstring * value)) :=
  match l with
  | [] => [(i, kv)]
  | (j, kv') :: rest =>
      if (i <? j)%Z then (i, kv) :: l else (j, kv') :: insert_index i kv rest
  end.

(** The order of [OrdinaryOwnPropertyKeys]: the array indices ascending,
    then the other keys as they were created. *)
Definition own_property_order (props : list (jstring * value))
    : list (jstring * value) :=
  map snd
    (fold_left (fun acc kv =>
                  match array_index (fst kv) with
                  | Some i => insert_index i kv acc
                  | None => acc
                  end) props [])
  ++ filter (fun kv => array_index (fst kv) = None) props.

Definition make_object (members : list (jstring * value)) : value :=
  VObject (own_property_order
             (fold_left (fun acc kv => define (fst kv) (snd kv) acc)
                members [])).

(** *** The grammar *)

Inductive frame :=
| FArray (items : list value)
| FObject (members : list (jstring * value)) (key : option jstring).

Inductive parse_mode :=
| MValue          (* a value *)
| MValueOrClose   (* after [[]: a value or []] *)
| MKeyOrClose     (* after [{]: a key or [}] *)
| MKey            (* after [,] in an object: a key *)
| MColon          (* after a key *)
| MAfter          (* after a value in an array or object *)
| MDone (v : value).

(** A value is complete: it goes to the frame on top of the stack. The
    items and members of a frame are collected in reverse. *)
Definition complete (v : value) (stack : list frame)
    : option (parse_mode * list frame) :=
  match stack with
  | [] => Some (MDone v, [])
  | FArray items :: stack' => Some (MAfter, FArray (v :: items) :: stack')
  | FObject members (Some k) :: stack' =>
      Some (MAfter, FObject ((k, v) :: members) None :: stack')
  | FObject _ None :: _ => None
  end.

Definition parse_value (t : token) (stack : list frame)
    : option (parse_mode * list frame) :=
  match t with
  | TString s => complete (VString s) stack
  | TWord w =>
      match word_value w with
      | Some v => complete v stack
      | None => None
      end
  | TLBracket => Some (MValueOrClose, FArray [] :: stack)
  | TLBrace => Some (MKeyOrClose, FObject [] None :: stack)
  | _ => None
  end.

Definition close_array (stack : list frame)
    : option (parse_mode * list frame) :=
  match stack with
  | FArray items :: stack' => complete (VArray (rev items)) stack'
  | _ => None
  end.

Definition close_object (stack : list frame)
    : option (parse_mode * list frame) :=
  match stack with
  | FObject members None :: stack' =>
      complete (make_object (rev members)) stack'
  | _ => None
  end.

Definition parse_key (t : token) (stack : list frame)
    : option (parse_mode * list frame) :=
  match t, stack with
  | TString k, FObject members None :: stack' =>
      Some (MColon, FObject members (Some k) :: stack')
  | _, _ => None
  end.

Definition parse_step (m : parse_mode) (stack : list frame) (t : token)
    : option (parse_mode * list frame) :=
  match m with
  | MValue => parse_value t stack
  | MValueOrClose =>
      match t with
      | TRBracket => close_array stack
      | _ => parse_value t stack
      end
  | MKeyOrClose =>
      match t with
      | TRBrace => close_object stack
      | _ => parse_key t stack
      end
  | MKey => parse_key t stack
  | MColon =>
      match t with
      | TColon => Some (MValue, stack)
      | _ => None
      end
  | MAfter =>
      match t, stack with
      | TComma, FArray _ :: _ => Some (MValue, stack)
      | TComma, FObject _ _ :: _ => Some (MKey, stack)
      | TRBracket, _ => close_array stack
      | TRBrace, _ => close_object stack
      | _, _ => None
      end
  | MDone _ => None
  end.

Fixpoint parse_tokens (ts : list token) (m : parse_mode)
    (stack : list frame) : option value :=
  match ts with
  | [] =>
      match m with
      | MDone v => Some v
      | _ => None
      end
  | t :: ts' =>
      match parse_step m stack t with
      | Some (m', stack') => parse_tokens ts' m' stack'
      | None => None
      end
  end.

(** [JSON.parse(text)]; [None] is its [SyntaxError]. *)
Definition parse (text : jstring) : option value :=
  match lex text LIdle [] with
  | Some ts => parse_tokens ts MValue []
  | None => None
  end.

End JSON.

(** ** Prompt serialisation: [contentBlockToText] and [serializeContext] *)

(** [Math.round(q / 4)] for an integer [q]: the nearest integer, a tie
    going up. The quotient of the source, [(length * 3) / 4], is exact in
    double precision for every length a string can have. *)
Definition Math_round_quarters (q : Z) : Z := ((q + 2) / 4)%Z.

(** [TextContent | ImageContent]: the blocks of a user message and of a
    tool result. *)
Inductive input_block :=
| InText (t : jstring)                  (* { type: "text", text } *)
| InImage (data mimeType : jstring).    (* { type: "image", data, mimeType } *)

Definition contentBlockToText (block : input_block) : jstring :=
  match block with
  | InText t => t
  | InImage data mimeType =>
      let bytes := Math_round_quarters (Z.of_nat (length data) * 3) in
      lit "[Image: " ++ mimeType ++ lit ", ~" ++ Z_to_jstring bytes
      ++ lit " bytes " ++ [8212]
      ++ lit " note: image input is not supported by the Cursor Agent CLI; the visual content cannot be passed through]"
  end.

(** The blocks of an assistant message: a text block, or a block of
    another type (thinking, a tool call); the provider reads only the
    [type] of it. *)
Inductive assistant_block :=
| AssistantText (t : jstring)
| AssistantOther.

(** The content of a user message: a string or an array of blocks. *)
Inductive user_content :=
| ContentString (s : jstring)
| ContentBlocks (blocks : list input_block).

(** A message of the context, by its [role]. *)
Inductive Message :=
| Msg_user (c : user_content)
| Msg_assistant (blocks : list assistant_block)
| Msg_toolResult (toolName : jstring) (blocks : list input_block).

Record Context := {
  systemPrompt : option jstring;
  messages : list Message
}.

(** [msg.content.filter((c) => c.type === "text").map((c) => c.text)] *)
Definition assistant_texts (blocks : list assistant_block) : list jstring :=
  omap (fun c => match c with
                 | AssistantText t => Some t
                 | AssistantOther => None
                 end) blocks.

(** The body of the loop of [serializeContext] for one message: [lines]
    after the message. *)
Definition push_message (lines : list jstring) (msg : Message)
    : list jstring :=
  match msg with
  | Msg_user c =>
      let text := match c with
                  | ContentString s => s
                  | ContentBlocks blocks =>
                      join [10] (map contentBlockToText blocks)
                  end in
      lines ++ [lit "[User]" ++ [10] ++ text]
  | Msg_assistant blocks =>
      let text := join [10] (assistant_texts blocks) in
      if bool_decide (trim text = []) then lines
      else lines ++ [lit "[Assistant]" ++ [10] ++ text]
  | Msg_toolResult toolName blocks =>
      let text := join [10] (map contentBlockToText blocks) in
      if bool_decide (trim text = []) then lines
      else lines ++ [lit "[Tool result: " ++ toolName ++ lit "]" ++ [10]
                     ++ text]
  end.

Definition serializeContext (context : Context) : jstring :=
  let lines :=
    match systemPrompt context with
    | Some p =>
        if bool_decide (p = []) then []
        else [lit "[System]" ++ [10] ++ p ++ [10]]
    | None => []
    end in
  join [10; 10] (fold_left push_message (messages context) lines).

(** ** The command line of the child processes *)

(** [process.env]: the variables that are set, each a string. *)
Definition Env : Type := gmap jstring jstring.

(** [process.env["CURSOR_AGENT_PATH"] ?? process.env["AGENT_PATH"] ?? "agent"] *)
Definition agentPath (env : Env) : jstring :=
  match env !! lit "CURSOR_AGENT_PATH" with
  | Some p => p
  | None =>
      match env !! lit "AGENT_PATH" with
      | Some p => p
      | None => lit "agent"
      end
  end.

(** [if (process.env["CURSOR_API_KEY"]) args.unshift("--api-key", key)] *)
Definition unshift_api_key (env : Env) (args : list jstring)
    : list jstring :=
  match env !! lit "CURSOR_API_KEY" with
  | Some key =>
      if bool_decide (key = []) then args
      else lit "--api-key" :: key :: args
  | None => args
  end.

(** The arguments [streamCursorCli] spawns the agent with, for the
    identifier of the model, the working directory and the context. *)
Definition stream_args (env : Env) (model_id workspacePath : jstring)
    (context : Context) : list jstring :=
  let prompt := serializeContext context in
  unshift_api_key env
    [lit "--print"; lit "--output-format"; lit "stream-json";
     lit "--model"; model_id; lit "--trust";
     lit "--workspace"; workspacePath; prompt].

(** The arguments [runAgentModels] spawns the agent with. *)
Definition discovery_args (env : Env) : list jstring :=
  unshift_api_key env [lit "models"].

(** ** Authentication helpers *)

(** A promise whose rejection carries the [message] of an [Error]. *)
Inductive settled_as (A : Type) :=
| Unsettled
| Fulfilled (v : A)
| Failed (message : jstring).
Arguments Unsettled {A}.
Arguments Fulfilled {A} v.
Arguments Failed {A} message.

(** [resolve] and [reject] on a promise: the first call settles it. *)
Definition settle_once {A} (new old : settled_as A) : settled_as A :=
  match old with
  | Unsettled => new
  | _ => old
  end.

(** The child of a promise executor: [spawn] throws, which rejects the
    promise, or it returns a child whose events follow. *)
Inductive child_run :=
| SpawnThrew (message : jstring)
| ChildEvents (events : list child_event).

(** [`${code}`] for the code of a [close] event *)
Definition code_text (code : option Z) : jstring :=
  match code with
  | Some z => Z_to_jstring z
  | None => lit "null"
  end.

(** The promise of [runAgentLogin] and of the [cursor-logout] command:
    [what] is [login] or [logout]. The child inherits the standard streams,
    so there is no callback for output, and no timer. *)
Definition exit_step (what : jstring) (p : settled_as unit)
    (e : child_event) : settled_as unit :=
  match e with
  | ChildError err => settle_once (Failed err) p
  | ChildClose code =>
      if bool_decide (code = Some 0%Z) then settle_once (Fulfilled tt) p
      else settle_once
             (Failed (lit "agent " ++ what ++ lit " exited with code "
                      ++ code_text code)) p
  | _ => p
  end.

Definition runAgentLogin (r : child_run) : settled_as unit :=
  match r with
  | SpawnThrew message => Failed message
  | ChildEvents events => fold_left (exit_step (lit "login")) events Unsettled
  end.

Definition run_agent_logout (r : child_run) : settled_as unit :=
  match r with
  | SpawnThrew message => Failed message
  | ChildEvents events => fold_left (exit_step (lit "logout")) events Unsettled
  end.

(** [runAgentStatus]: both streams are appended to [out]. *)
Record status_run := {
  s_out : jstring;
  s_promise : settled_as jstring
}.

Definition status_step (s : status_run) (e : child_event) : status_run :=
  match e with
  | StdoutData c | StderrData c =>
      {| s_out := s_out s ++ c; s_promise := s_promise s |}
  | ChildError err =>
      {| s_out := s_out s;
         s_promise := settle_once (Failed err) (s_promise s) |}
  | ChildClose _ =>
      {| s_out := s_out s;
         s_promise := settle_once (Fulfilled (trim (s_out s))) (s_promise s) |}
  | TimerFired _ => s
  end.

Definition runAgentStatus (r : child_run) : settled_as jstring :=
  match r with
  | SpawnThrew message => Failed message
  | ChildEvents events =>
      s_promise (fold_left status_step events
                   {| s_out := []; s_promise := Unsettled |})
  end.

(** [ctx.ui.notify(message, level)] *)
Inductive level := Level_info | Level_error.

Definition notification : Type := jstring * level.

(** The handlers of the slash commands: the notifications they have sent,
    the oldest first, when the child has run as [r]. *)
Definition cursor_login (r : child_run) : list notification :=
  (lit "Starting Cursor login (NO_OPEN_BROWSER=1 " ++ [8212]
   ++ lit " copy the URL from the output)" ++ [8230], Level_info)
  :: match runAgentLogin r with
     | Unsettled => []
     | Fulfilled _ => [(lit "Cursor login successful.", Level_info)]
     | Failed msg => [(lit "Cursor login failed: " ++ msg, Level_error)]
     end.

Definition cursor_status (r : child_run) : list notification :=
  match runAgentStatus r with
  | Unsettled => []
  | Fulfilled status =>
      [(if bool_decide (status = []) then lit "No output from `agent status`."
        else status, Level_info)]
  | Failed msg => [(lit "Could not get Cursor status: " ++ msg, Level_error)]
  end.

Definition cursor_logout (r : child_run) : list notification :=
  match run_agent_logout r with
  | Unsettled => []
  | Fulfilled _ => [(lit "Logged out of Cursor.", Level_info)]
  | Failed msg => [(lit "Cursor logout failed: " ++ msg, Level_error)]
  end.

(** ** The extension entry point *)

Module Provider.

(** An element of what [toProviderModels] returns. *)
Record Model := {
  id : jstring;
  name : jstring;
  reasoning : bool;
  input : list jstring;
  cost : Z * Z * Z * Z;      (* input, output, cacheRead, cacheWrite *)
  contextWindow : Z;
  maxTokens : Z
}.

(** The configuration [pi.registerProvider] gets under the name [cursor];
    [streamSimple] is [streamCursorCli]. *)
Record Config := {
  baseUrl : jstring;
  apiKey : jstring;
  api : jstring;
  models : list Model
}.

End Provider.

Definition toProviderModels (defs : list CursorModelDef)
    : list Provider.Model :=
  map (fun m =>
         {| Provider.id := id m;
            Provider.name := name m ++ lit " (Cursor)";
            Provider.reasoning := reasoning m;
            Provider.input := [lit "text"];
            Provider.cost := (0, 0, 0, 0)%Z;
            Provider.contextWindow := contextWindow m;
            Provider.maxTokens := maxTokens m |}) defs.

(** [modelDefs] after the [try] of the entry point: the discovered list, or
    the static one when [runAgentModels] rejects; [None] while the promise
    is pending. *)
Definition modelDefs (r : child_run) : option (list CursorModelDef) :=
  match r with
  | SpawnThrew _ => Some STATIC_MODELS
  | ChildEvents events =>
      match d_promise (runAgentModels events) with
      | Pending => None
      | Resolved models => Some models
      | Rejected _ => Some STATIC_MODELS
      end
  end.

(** What the entry point registers: the provider [cursor] and the three
    commands. *)
Record registration := {
  provider : Provider.Config;
  commands : list jstring
}.

Definition extension (r : child_run) : option registration :=
  match modelDefs r with
  | None => None
  | Some defs =>
      Some {| provider :=
                {| Provider.baseUrl := lit "cli://cursor-agent";
                   Provider.apiKey := lit "CURSOR_API_KEY";
                   Provider.api := lit "cursor-cli";
                   Provider.models := toProviderModels defs |};
              commands := [lit "cursor-login"; lit "cursor-status";
                           lit "cursor-logout"] |}
  end.

(** ** The vocabulary of the specification *)

(** An identifier of the listing: what the first group of [lineRe] takes. *)
Definition identifier (i : jstring) : Prop :=
  match i with
  | c :: rest => is_alnum c = true /\ forallb is_id_char rest = true
  | [] => False
  end.

(** A run of white space that is not empty. *)
Definition blank (w : jstring) : Prop :=
  w <> [] /\ forallb is_white_space w = true.

(** [current], [default] or [current, default] *)
Definition status_text (t : jstring) : Prop :=
  t = lit "current" \/ t = lit "default"
  \/ exists w, forallb is_white_space w = true
               /\ t = lit "current," ++ w ++ lit "default".

(** The status marker in parentheses with the white space before it. *)
Definition status_marker_text (m : jstring) : Prop :=
  exists w t, blank w /\ status_text t /\ m = w ++ lit "(" ++ t ++ lit ")".

(** A display name: on one line, with no white space around it. *)
Definition display_name (n : jstring) : Prop :=
  forallb is_dot n = true
  /\ (exists c rest, n = c :: rest /\ is_white_space c = false)
  /\ (exists init c, n = init ++ [c] /\ is_white_space c = false).

(** The display name does not itself end in a status marker. *)
Definition no_status_marker (n : jstring) : Prop :=
  forall l1 l2, n = l1 ++ l2 -> l1 <> [] -> ~ status_marker_text l2.

(** The standard output and the standard error that a run of events
    delivers. *)
Fixpoint stdout_text (events : list child_event) : jstring :=
  match events with
  | [] => []
  | StdoutData chunk :: rest => chunk ++ stdout_text rest
  | _ :: rest => stdout_text rest
  end.

Fixpoint stderr_text (events : list child_event) : jstring :=
  match events with
  | [] => []
  | StderrData chunk :: rest => chunk ++ stderr_text rest
  | _ :: rest => stderr_text rest
  end.

(** The exit code of the child: the code of the first [close] event. *)
Fixpoint exit_code (events : list child_event) : option (option Z) :=
  match events with
  | [] => None
  | ChildClose code :: _ => Some code
  | _ :: rest => exit_code rest
  end.

(** An event that only delivers output. *)
Definition is_data (e : child_event) : bool :=
  match e with
  | StdoutData _ | StderrData _ => true
  | _ => false
  end.

Definition is_rejected (p : promise_state) : Prop :=
  exists why, p = Rejected why.

(** A content block [{ type: "text", text: t }]. *)
Definition text_block (b : value) (t : jstring) : Prop :=
  get (lit "type") b = Some (VString (lit "text"))
  /\ get (lit "text") b = Some (VString t).

(** An [assistant] event that carries the text fragments [frags], in this
    order. *)
Definition assistant_event (event : value) (frags : list jstring) : Prop :=
  get (lit "type") event = Some (VString (lit "assistant"))
  /\ exists message blocks,
       get (lit "message") event = Some message
       /\ get (lit "content") message = Some (VArray blocks)
       /\ Forall2 text_block blocks frags.

(** A fragment that is not empty and not only white space. *)
Definition has_text (t : jstring) : bool := negb (bool_decide (trim t = [])).

(** The pieces of text [ts] go through [emit_text] one after the other. *)
Fixpoint emit_all (ts : list jstring) (st : state) : outcome :=
  match ts with
  | [] => Returned st
  | t :: rest =>
      match emit_text t st with
      | Returned st' => emit_all rest st'
      | Threw st' => Threw st'
      end
  end.

(** The state of the text block while the child runs: no block yet and no
    text, or one open block that holds the accumulated text. *)
Definition streaming (st : state) : Prop :=
  if textBlockOpen st
  then content (output st) = [{| text := accumulatedText st |}]
  else content (output st) = [] /\ accumulatedText st = [].

(** [done] and [error] end a stream. *)
Definition is_terminal (e : stream_event) : bool :=
  match e with
  | E_done _ | E_error _ => true
  | _ => false
  end.

Definition terminals (l : list stream_event) : nat :=
  length (filter (fun e => is_terminal e = true) l).

(** What the handlers of lines, of standard error and of the signal leave
    as it is. *)
Definition same_control (a b : state) : Prop :=
  stderrChunks a = stderrChunks b
  /\ signal_aborted a = signal_aborted b
  /\ abort_listener a = abort_listener b
  /\ sigterm a = sigterm b
  /\ ended a = ended b
  /\ resolved a = resolved b
  /\ stopReason (output a) = stopReason (output b)
  /\ errorMessage (output a) = errorMessage (output b).

(** A [tool_call] event as [CursorToolCallEvent] declares it: [tool_call]
    is an object whose values are objects. *)
Definition tool_call_event (event : value) : Prop :=
  get (lit "type") event = Some (VString (lit "tool_call"))
  /\ exists props,
       get (lit "tool_call") event = Some (VObject props)
       /\ Forall (fun kv => exists ps, snd kv = VObject ps) props.

(** A parsed line of the type [CursorStreamEvent | null]. *)
Definition conforms (event : value) : Prop :=
  truthy event = false
  \/ (exists frags, assistant_event event frags)
  \/ tool_call_event event
  \/ (exists ty, get (lit "type") event = Some ty
                 /\ is_string (lit "assistant") ty = false
                 /\ is_string (lit "tool_call") ty = false).

(** The display name the specification gives a tool key: the entry of the
    table, or the key without a trailing [ToolCall]. *)
Definition display_of (k display : jstring) : Prop :=
  match TOOL_NAME_MAP !! k with
  | Some n => display = n
  | None =>
      (exists p, k = p ++ lit "ToolCall" /\ display = p)
      \/ (~ lit "ToolCall" `suffix_of` k /\ display = k)
  end.

(** Events of the child that complete an invocation. *)
Definition is_completion (e : proc_event) : bool :=
  match e with
  | EvClose _ | EvError _ => true
  | _ => false
  end.

(** An event of the child before completion whose line, if it is one,
    parses to a value of the declared type. *)
Definition line_conforms (JSON_parse : jstring -> option value)
    (e : proc_event) : Prop :=
  match e with
  | EvLine line => conforms (parseLine JSON_parse line)
  | _ => True
  end.

(** The events a running invocation has pushed, when the pieces of text
    [ts] went through the text block: [start], then, if there is a piece,
    the start of block 0 and one delta for each piece. *)
Definition opening (ts : list jstring) : list stream_event :=
  E_start :: (if bool_decide (ts = []) then []
              else E_text_start 0 :: map (E_text_delta 0) ts).

(** The state of an invocation that is not completed. *)
Definition running (st : state) (ts : list jstring) : Prop :=
  streaming st
  /\ textBlockOpen st = negb (bool_decide (ts = []))
  /\ accumulatedText st = concat ts
  /\ pushed st = opening ts
  /\ ended st = 0%nat /\ resolved st = 0%nat
  /\ stopReason (output st) = SR_stop
  /\ errorMessage (output st) = None.

(** The listing of scenario D. *)
Definition scenario_D_output : jstring :=
  lit "auto - Auto" ++ [10]
  ++ lit "sonnet-4.6 - Claude 4.6 Sonnet  (current)" ++ [10].

(** ** Vocabulary of the prompt *)

(** A line of the prompt starts with the bracket of its role marker. *)
Definition section_line (l : jstring) : Prop := exists rest, l = 91 :: rest.

(** The lines a system prompt gives. *)
Definition system_lines (sp : option jstring) : list jstring :=
  match sp with
  | Some p => if bool_decide (p = []) then []
              else [lit "[System]" ++ [10] ++ p ++ [10]]
  | None => []
  end.

(** The number of characters of the padded base64 text of [n] bytes. *)
Definition base64_length (n : Z) : Z := (4 * ((n + 2) / 3))%Z.

(** ** Vocabulary of the child processes *)

(** What the child has written, both streams together in the order of
    arrival. *)
Fixpoint output_text (events : list child_event) : jstring :=
  match events with
  | [] => []
  | StdoutData chunk :: rest => chunk ++ output_text rest
  | StderrData chunk :: rest => chunk ++ output_text rest
  | _ :: rest => output_text rest
  end.

(** An event that ends a child: [error] or [close]. *)
Definition is_exit (e : child_event) : bool :=
  match e with
  | ChildError _ | ChildClose _ => true
  | _ => false
  end.

(** What the promise of [runAgentLogin] ([what] is [login]) or of the
    logout command is settled to by the event [e]. *)
Definition exit_result (what : jstring) (e : child_event) : settled_as unit :=
  match e with
  | ChildError err => Failed err
  | ChildClose code =>
      if bool_decide (code = Some 0%Z) then Fulfilled tt
      else Failed (lit "agent " ++ what ++ lit " exited with code "
                   ++ code_text code)
  | _ => Unsettled
  end.

(** What holds of a discovery at every point: while the promise is pending
    the timer is armed and the child was not signalled; once it is
    settled the timer is off. The child was signalled when the timeout
    settled the promise, and at most once when an [error] did, which the
    kill of the timeout may have caused; it was not signalled otherwise.
    The list of a resolved promise is not empty. *)
Definition discovery_inv (s : discovery) : Prop :=
  match d_promise s with
  | Pending => d_timer s = true /\ d_sigterm s = 0%nat
  | Rejected TimedOut => d_timer s = false /\ d_sigterm s = 1%nat
  | Rejected (ErrorEvent _) => d_timer s = false /\ (d_sigterm s <= 1)%nat
  | Rejected _ => d_timer s = false /\ d_sigterm s = 0%nat
  | Resolved models =>
      d_timer s = false /\ d_sigterm s = 0%nat /\ models <> []
  end.

(** ** Vocabulary of the stream translator *)

(** The state a callback leaves, whether it returns or throws. *)
Definition final (o : outcome) : state :=
  match o with
  | Returned st | Threw st => st
  end.

(** The signal and the listener on it are as they were. *)
Definition same_signal (a b : state) : Prop :=
  signal_aborted a = signal_aborted b
  /\ abort_listener a = abort_listener b
  /\ sigterm a = sigterm b.

(** A value that is no [assistant] and no [tool_call] event. *)
Definition other_event (v : value) : Prop :=
  forall ty, get (lit "type") v = Some ty ->
             is_string (lit "assistant") ty = false
             /\ is_string (lit "tool_call") ty = false.

(** The texts of the [text_delta] events of a stream, in order. *)
Fixpoint deltas (l : list stream_event) : list jstring :=
  match l with
  | [] => []
  | E_text_delta _ t :: rest => t :: deltas rest
  | _ :: rest => deltas rest
  end.

(** ** Vocabulary of the static table *)

(** The identifiers of the static table whose reasoning flag is set
    although no suffix of [inferReasoning] ends them. *)
Definition reasoning_by_table : list jstring := [
  lit "gpt-5.3-codex-high-fast"; lit "gpt-5.3-codex-xhigh-fast";
  lit "gpt-5.2-codex-high-fast"; lit "gpt-5.2-codex-xhigh-fast";
  lit "gpt-5.1-codex-max"
].

(** * Properties *)

(** ** Strings and matchers *)

Lemma re_str_app {R} (t : jstring) (k : jstring -> option R) (s : jstring) :
  re_str t k (t ++ s) = k s.
Proof.
  induction t as [|a t IH]; simpl; [reflexivity|].
  rewrite N.eqb_refl. exact IH.
Qed.

Lemma re_str_Some {R} (t : jstring) (k : jstring -> option R) s r :
  re_str t k s = Some r -> exists s', s = t ++ s' /\ k s' = Some r.
Proof.
  revert s. induction t as [|a t IH]; simpl; intros s H.
  - exists s. split; [reflexivity | exact H].
  - destruct s as [|c s]; [discriminate|].
    destruct (N.eqb_spec a c) as [->|]; [|discriminate].
    destruct (IH _ H) as (s' & -> & Hk). exists s'. split; [reflexivity | exact Hk].
Qed.

Lemma re_end_Some {R} (r r' : R) s : re_end r s = Some r' -> s = [] /\ r = r'.
Proof. destruct s; simpl; [intros [= ->]; split; reflexivity | discriminate]. Qed.

Lemma re_str_end_Some {R} (t : jstring) (r r' : R) s :
  re_str t (re_end r) s = Some r' <-> s = t /\ r = r'.
Proof.
  split.
  - intros H. apply re_str_Some in H as (s' & -> & H).
    apply re_end_Some in H as [-> ->]. rewrite app_nil_r. split; reflexivity.
  - intros [-> ->]. rewrite <- (app_nil_r t) at 2. rewrite re_str_app. reflexivity.
Qed.

Lemma tails_suffix (t s : jstring) : In t (tails s) <-> t `suffix_of` s.
Proof.
  induction s as [|c s IH]; simpl.
  - split.
    + intros [<-|[]]. reflexivity.
    + intros H. left. symmetry. apply suffix_nil_inv. exact H.
  - rewrite IH. split.
    + intros [<-|H]; [reflexivity | apply suffix_cons_r; exact H].
    + intros [[|x k] H]; simpl in H.
      * left. exact H.
      * right. injection H as _ ->. exists k. reflexivity.
Qed.

Lemma reasoning_re_Some (t : jstring) :
  is_Some (reasoning_re t) <->
  t = lit "-thinking" \/ t = lit "-high" \/ t = lit "-xhigh"
  \/ t = lit "-max-high".
Proof.
  unfold reasoning_re, re_alt. split.
  - intros [u H].
    destruct (re_str (lit "-thinking") (re_end ()) t) eqn:E1.
    { apply re_str_end_Some in E1 as [-> _]. auto. }
    destruct (re_str (lit "-high") (re_end ()) t) eqn:E2.
    { apply re_str_end_Some in E2 as [-> _]. auto. }
    destruct (re_str (lit "-xhigh") (re_end ()) t) eqn:E3.
    { apply re_str_end_Some in E3 as [-> _]. auto. }
    apply re_str_end_Some in H as [-> _]. auto.
  - intros [-> | [-> | [-> | ->]]]; vm_compute; eauto.
Qed.

Lemma inferReasoning_true (i : jstring) :
  inferReasoning i = true <->
  lit "-thinking" `suffix_of` i \/ lit "-high" `suffix_of` i
  \/ lit "-xhigh" `suffix_of` i.
Proof.
  unfold inferReasoning. rewrite existsb_exists. split.
  - intros (t & Hin & Ht). apply tails_suffix in Hin.
    apply bool_decide_eq_true in Ht. apply reasoning_re_Some in Ht.
    destruct Ht as [-> | [-> | [-> | ->]]]; auto.
    right; left. etransitivity; [|exact Hin].
    exists (lit "-max"). reflexivity.
  - intros [H|[H|H]].
    + exists (lit "-thinking"). split; [apply tails_suffix; exact H|].
      apply bool_decide_eq_true, reasoning_re_Some. auto.
    + exists (lit "-high"). split; [apply tails_suffix; exact H|].
      apply bool_decide_eq_true, reasoning_re_Some. auto.
    + exists (lit "-xhigh"). split; [apply tails_suffix; exact H|].
      apply bool_decide_eq_true, reasoning_re_Some. auto.
Qed.

Lemma suffix_last_eq (a b s : jstring) x y :
  (a ++ [x]) `suffix_of` s -> (b ++ [y]) `suffix_of` s -> x = y.
Proof.
  intros [k1 ->] [k2 H].
  rewrite !app_assoc in H. apply app_inj_tail in H as [_ H]. exact H.
Qed.

Lemma inferReasoning_max (i : jstring) :
  lit "-max" `suffix_of` i -> inferReasoning i = false.
Proof.
  intros Hmax. destruct (inferReasoning i) eqn:E; [|reflexivity].
  apply inferReasoning_true in E.
  change (lit "-max") with (lit "-ma" ++ [120]) in Hmax.
  destruct E as [H|[H|H]].
  - change (lit "-thinking") with (lit "-thinkin" ++ [103]) in H.
    pose proof (suffix_last_eq _ _ _ _ _ Hmax H). discriminate.
  - change (lit "-high") with (lit "-hig" ++ [104]) in H.
    pose proof (suffix_last_eq _ _ _ _ _ Hmax H). discriminate.
  - change (lit "-xhigh") with (lit "-xhig" ++ [104]) in H.
    pose proof (suffix_last_eq _ _ _ _ _ Hmax H). discriminate.
Qed.

Lemma re_star_run {R} (p : N -> bool) (k : jstring -> jstring -> option R)
    (l s acc : jstring) (r : R) :
  forallb p l = true ->
  match s with c :: _ => p c = false | [] => True end ->
  k (acc ++ l) s = Some r ->
  re_star p k acc (l ++ s) = Some r.
Proof.
  revert acc. induction l as [|x l IH]; intros acc Hl Hs Hk.
  - rewrite app_nil_r in Hk. simpl.
    destruct s as [|c s]; simpl; [exact Hk|]. rewrite Hs. exact Hk.
  - simpl in Hl. apply andb_true_iff in Hl as [Hx Hl]. simpl. rewrite Hx.
    rewrite (IH (acc ++ [x]) Hl Hs); [reflexivity|].
    rewrite <- app_assoc. exact Hk.
Qed.

Lemma re_star_Some {R} (p : N -> bool) (k : jstring -> jstring -> option R)
    (s acc : jstring) (r : R) :
  re_star p k acc s = Some r ->
  exists l s', s = l ++ s' /\ forallb p l = true /\ k (acc ++ l) s' = Some r.
Proof.
  revert acc. induction s as [|c s IH]; intros acc H; simpl in H.
  - exists [], []. rewrite !app_nil_r. repeat split. exact H.
  - destruct (p c) eqn:Hc.
    + destruct (re_star p k (acc ++ [c]) s) eqn:E.
      * injection H as ->. apply IH in E as (l & s' & -> & Hl & Hk).
        exists (c :: l), s'. simpl. rewrite Hc, Hl.
        rewrite <- app_assoc in Hk. repeat split. exact Hk.
      * exists [], (c :: s). rewrite !app_nil_r. repeat split. exact H.
    + exists [], (c :: s). rewrite !app_nil_r. repeat split. exact H.
Qed.

Lemma re_plus_run {R} (p : N -> bool) (k : jstring -> jstring -> option R)
    (l s : jstring) (r : R) :
  l <> [] -> forallb p l = true ->
  match s with c :: _ => p c = false | [] => True end ->
  k l s = Some r ->
  re_plus p k (l ++ s) = Some r.
Proof.
  intros Hne Hl Hs Hk. destruct l as [|x l]; [congruence|].
  simpl in Hl. apply andb_true_iff in Hl as [Hx Hl].
  unfold re_plus, re_one. simpl. rewrite Hx.
  apply re_star_run; assumption.
Qed.

Lemma re_plus_Some {R} (p : N -> bool) (k : jstring -> jstring -> option R)
    (s : jstring) (r : R) :
  re_plus p k s = Some r ->
  exists l s', s = l ++ s' /\ l <> [] /\ forallb p l = true
               /\ k l s' = Some r.
Proof.
  unfold re_plus, re_one. destruct s as [|c s]; [discriminate|].
  destruct (p c) eqn:Hc; [|discriminate]. intros H.
  apply re_star_Some in H as (l & s' & -> & Hl & Hk).
  exists (c :: l), s'. simpl. rewrite Hc, Hl. repeat split; [discriminate | exact Hk].
Qed.

Lemma re_star_lazy_run {R} (p : N -> bool)
    (k : jstring -> jstring -> option R) (l s acc : jstring) (r : R) :
  forallb p l = true ->
  (forall l1 l2, l = l1 ++ l2 -> l2 <> [] -> k (acc ++ l1) (l2 ++ s) = None) ->
  k (acc ++ l) s = Some r ->
  re_star_lazy p k acc (l ++ s) = Some r.
Proof.
  revert acc. induction l as [|x l IH]; intros acc Hl Hno Hk.
  - rewrite app_nil_r in Hk. simpl. destruct s; simpl; rewrite Hk; reflexivity.
  - simpl in Hl. apply andb_true_iff in Hl as [Hx Hl]. simpl.
    pose proof (Hno [] (x :: l) eq_refl) as H0.
    rewrite app_nil_r in H0. simpl in H0. rewrite H0 by discriminate.
    rewrite Hx. apply IH; [exact Hl | | rewrite <- app_assoc; exact Hk].
    intros l1 l2 -> Hne. rewrite <- app_assoc. simpl.
    apply (Hno (x :: l1) l2); [reflexivity | exact Hne].
Qed.

Lemma re_plus_lazy_run {R} (p : N -> bool)
    (k : jstring -> jstring -> option R) (l s : jstring) (r : R) :
  l <> [] -> forallb p l = true ->
  (forall l1 l2, l = l1 ++ l2 -> l1 <> [] -> l2 <> [] ->
                 k l1 (l2 ++ s) = None) ->
  k l s = Some r ->
  re_plus_lazy p k (l ++ s) = Some r.
Proof.
  intros Hne Hl Hno Hk. destruct l as [|x l]; [congruence|].
  simpl in Hl. apply andb_true_iff in Hl as [Hx Hl].
  unfold re_plus_lazy, re_one. simpl. rewrite Hx.
  apply re_star_lazy_run; [exact Hl | | exact Hk].
  intros l1 l2 -> Hne2. apply (Hno (x :: l1) l2); [reflexivity | discriminate | exact Hne2].
Qed.

(** The classes of code units the expressions use are apart. *)
Lemma white_space_not_id_char (c : N) :
  is_white_space c = true -> is_id_char c = false.
Proof.
  unfold is_white_space, is_id_char, is_alnum. intros H.
  repeat (apply orb_true_iff in H as [H|H]);
    repeat match goal with
           | H : (_ && _) = true |- _ => apply andb_true_iff in H as [? ?]
           | H : (_ <=? _) = true |- _ => apply N.leb_le in H
           | H : (_ =? _) = true |- _ => apply N.eqb_eq in H
           end;
    repeat (apply orb_false_iff; split);
    try (apply andb_false_iff);
    repeat match goal with
           | |- (_ =? _) = false => apply N.eqb_neq; lia
           | |- (_ <=? _) = false \/ (_ <=? _) = false =>
               first [left; apply N.leb_gt; lia | right; apply N.leb_gt; lia]
           end.
Qed.

(** ** Discovery: the lines of the listing *)

Lemma id_char_not_white_space (c : N) :
  is_id_char c = true -> is_white_space c = false.
Proof.
  intros H. destruct (is_white_space c) eqn:E; [|reflexivity].
  apply white_space_not_id_char in E. congruence.
Qed.

Lemma alnum_id_char (c : N) : is_alnum c = true -> is_id_char c = true.
Proof. unfold is_id_char. intros ->. reflexivity. Qed.

Lemma forallb_last {A} (q : A -> bool) (l : list A) :
  l <> [] -> forallb q l = true ->
  exists init y, l = init ++ [y] /\ q y = true.
Proof.
  intros Hne Hq. destruct (exists_last Hne) as (init & y & ->).
  rewrite forallb_app in Hq. apply andb_true_iff in Hq as [_ Hy].
  simpl in Hy. rewrite andb_true_r in Hy. eauto.
Qed.

Lemma trim_self (s : jstring) :
  (exists c rest, s = c :: rest /\ is_white_space c = false) ->
  (exists init y, s = init ++ [y] /\ is_white_space y = false) ->
  trim s = s.
Proof.
  intros (c & rest & -> & Hc) (init & y & E & Hy).
  unfold trim, trimStart, trimEnd. simpl. rewrite Hc. rewrite E.
  rewrite rev_app_distr. simpl. rewrite Hy.
  change (y :: rev init) with (rev [y] ++ rev init).
  rewrite <- rev_app_distr, rev_involutive. reflexivity.
Qed.

Lemma trim_identifier (i : jstring) : identifier i -> trim i = i.
Proof.
  destruct i as [|c rest]; [intros []|]. intros [Hc Hrest].
  apply trim_self.
  - exists c, rest. split; [reflexivity|].
    apply id_char_not_white_space, alnum_id_char, Hc.
  - destruct (forallb_last is_id_char (c :: rest)) as (init & y & E & Hy).
    + discriminate.
    + simpl. rewrite (alnum_id_char _ Hc). exact Hrest.
    + exists init, y. split; [exact E | apply id_char_not_white_space, Hy].
Qed.

Lemma status_text_no_paren (t : jstring) : status_text t -> ~ In 40 t.
Proof.
  intros [-> | [-> | (w & Hw & ->)]].
  - vm_compute. intuition discriminate.
  - vm_compute. intuition discriminate.
  - rewrite !in_app_iff. intros [H | [H | H]].
    + vm_compute in H. intuition discriminate.
    + rewrite forallb_forall in Hw. apply Hw in H. discriminate.
    + vm_compute in H. intuition discriminate.
Qed.

Lemma status_marker_run {R} (k : jstring -> option R) (m s : jstring) r :
  status_marker_text m -> k s = Some r -> status_marker k (m ++ s) = Some r.
Proof.
  intros (w & t & [Hne Hw] & Ht & ->) Hk.
  unfold status_marker. rewrite <- !app_assoc.
  apply re_plus_run; [exact Hne | exact Hw | reflexivity |].
  cbv beta. rewrite re_str_app. unfold re_alt.
  destruct Ht as [-> | [-> | (w' & Hw' & ->)]].
  - rewrite re_str_app, re_str_app. rewrite Hk. reflexivity.
  - replace (re_str (lit "current") (re_str (lit ")") k)
               (lit "default" ++ lit ")" ++ s)) with (@None R) by reflexivity.
    rewrite re_str_app, re_str_app. rewrite Hk. reflexivity.
  - rewrite <- !app_assoc.
    replace (re_str (lit "current") (re_str (lit ")") k)
               (lit "current," ++ w' ++ lit "default" ++ lit ")" ++ s))
      with (@None R) by reflexivity.
    replace (re_str (lit "default") (re_str (lit ")") k)
               (lit "current," ++ w' ++ lit "default" ++ lit ")" ++ s))
      with (@None R) by reflexivity.
    rewrite re_str_app.
    rewrite (re_star_run is_white_space _ w' _ [] r); [reflexivity | exact Hw' | reflexivity |].
    cbv beta. rewrite re_str_app, re_str_app. exact Hk.
Qed.

Lemma status_marker_Some {R} (k : jstring -> option R) (x : jstring) r :
  status_marker k x = Some r ->
  exists m s, x = m ++ s /\ status_marker_text m /\ k s = Some r.
Proof.
  unfold status_marker. intros H.
  apply re_plus_Some in H as (w & s1 & -> & Hne & Hw & H).
  apply re_str_Some in H as (s2 & -> & H).
  assert (forall t s3, status_text t -> k s3 = Some r ->
            exists m s, w ++ lit "(" ++ t ++ lit ")" ++ s3 = m ++ s
                        /\ status_marker_text m /\ k s = Some r) as Hmk.
  { intros t s3 Ht Hk. exists (w ++ lit "(" ++ t ++ lit ")"), s3.
    split; [rewrite <- !app_assoc; reflexivity|].
    split; [|exact Hk]. exists w, t. repeat split; assumption. }
  unfold re_alt in H.
  destruct (re_str (lit "current") (re_str (lit ")") k) s2) eqn:E1.
  { injection H as ->. apply re_str_Some in E1 as (s3 & -> & E1).
    apply re_str_Some in E1 as (s4 & -> & E1).
    apply Hmk; [left; reflexivity | exact E1]. }
  destruct (re_str (lit "default") (re_str (lit ")") k) s2) eqn:E2.
  { injection H as ->. apply re_str_Some in E2 as (s3 & -> & E2).
    apply re_str_Some in E2 as (s4 & -> & E2).
    apply Hmk; [right; left; reflexivity | exact E2]. }
  apply re_str_Some in H as (s3 & -> & H).
  apply re_star_Some in H as (w' & s4 & -> & Hw' & H).
  apply re_str_Some in H as (s5 & -> & H).
  apply re_str_Some in H as (s6 & -> & H).
  destruct (Hmk (lit "current," ++ w' ++ lit "default") s6) as (m & s & E & Hm & Hk).
  - right; right. exists w'. split; [exact Hw' | reflexivity].
  - exact H.
  - exists m, s. split; [|split; assumption].
    rewrite <- E. rewrite <- !app_assoc. reflexivity.
Qed.

Lemma marker_tail_not_marker (l2 m : jstring) :
  status_marker_text m ->
  (exists init y, l2 = init ++ [y] /\ is_white_space y = false) ->
  ~ status_marker_text (l2 ++ m).
Proof.
  intros (w & t & [Hne Hw] & Ht & ->) (init & y & -> & Hy)
         (w' & t' & [Hne' Hw'] & Ht' & E).
  apply app_eq_app in E as (l & [[E1 E2] | [E1 E2]]).
  - destruct l as [|x l].
    + simpl in E2. destruct w as [|c w]; [congruence|].
      injection E2 as <- _. simpl in Hw. discriminate.
    + injection E2 as _ E2.
      apply (status_text_no_paren t' Ht').
      assert (In 40 (t' ++ lit ")")) as Hin.
      { rewrite E2. rewrite !in_app_iff. right; right. left. reflexivity. }
      apply in_app_iff in Hin as [Hin | Hin]; [exact Hin|].
      vm_compute in Hin. intuition discriminate.
  - rewrite E1 in Hw'. rewrite !forallb_app in Hw'.
    apply andb_true_iff in Hw' as [Hw' _].
    apply andb_true_iff in Hw' as [_ Hw'].
    simpl in Hw'. rewrite Hy in Hw'. discriminate.
Qed.

Lemma suffix_last_char (n l1 l2 : jstring) :
  (exists init c, n = init ++ [c] /\ is_white_space c = false) ->
  n = l1 ++ l2 -> l2 <> [] ->
  exists init y, l2 = init ++ [y] /\ is_white_space y = false.
Proof.
  intros (init & c & -> & Hc) E Hne.
  destruct (exists_last Hne) as (init2 & y & ->).
  rewrite app_assoc in E. apply app_inj_tail in E as [_ ->].
  exists init2, y. split; [reflexivity | exact Hc].
Qed.

(** [lineRe] on a line of the listing: identifier, dash, display name, and
    a status marker or none. *)
Lemma lineRe_exec_line (i w1 w2 n m : jstring) :
  identifier i -> blank w1 -> blank w2 -> display_name n ->
  (m = [] /\ no_status_marker n) \/ status_marker_text m ->
  lineRe_exec (i ++ w1 ++ lit "-" ++ w2 ++ n ++ m) = Some (i, n).
Proof.
  intros Hi [Hne1 Hw1] [Hne2 Hw2] (Hdot & (c & rest & En & Hc) & Hlast) Hm.
  destruct i as [|c0 irest]; [destruct Hi|]. destruct Hi as [Hc0 Hrest].
  unfold lineRe_exec, re_one. rewrite <- app_comm_cons. cbv beta iota.
  rewrite Hc0.
  apply re_star_run; [exact Hrest | |].
  { destruct w1 as [|x w1]; [congruence|]. simpl in *.
    apply andb_true_iff in Hw1 as [Hx _].
    apply white_space_not_id_char, Hx. }
  cbv beta. apply re_plus_run; [exact Hne1 | exact Hw1 | reflexivity |].
  cbv beta. rewrite re_str_app.
  apply re_plus_run; [exact Hne2 | exact Hw2 | |].
  { rewrite En. simpl. exact Hc. }
  cbv beta. apply re_plus_lazy_run.
  - rewrite En. discriminate.
  - exact Hdot.
  - intros l1 l2 E Hl1 Hl2.
    assert (forall r : jstring * jstring,
              status_marker (re_end r) (l2 ++ m) = None) as Es.
    { intros r0. destruct (status_marker (re_end r0) (l2 ++ m)) eqn:Es;
        [exfalso | reflexivity].
      apply status_marker_Some in Es as (m' & s' & E' & Hm' & He).
      apply re_end_Some in He as [-> _]. rewrite app_nil_r in E'. subst m'.
      destruct Hm as [[-> Hno] | Hm].
      - rewrite app_nil_r in Hm'. exact (Hno l1 l2 E Hl1 Hm').
      - exact (marker_tail_not_marker l2 m Hm
                 (suffix_last_char n l1 l2 Hlast E Hl2) Hm'). }
    unfold re_opt. rewrite Es.
    destruct l2; [congruence | reflexivity].
  - unfold re_opt. destruct Hm as [[-> _] | Hm].
    + reflexivity.
    + rewrite <- (app_nil_r m).
      rewrite (status_marker_run _ m [] ([c0] ++ irest, n) Hm eq_refl).
      reflexivity.
Qed.

Lemma startsWith_true (p s : jstring) :
  startsWith p s = true <-> exists r, s = p ++ r.
Proof.
  revert s. induction p as [|a p IH]; intros s; simpl.
  - split; eauto.
  - destruct s as [|b s].
    + split; [discriminate | intros [r H]; discriminate].
    + rewrite andb_true_iff, N.eqb_eq, IH. split.
      * intros [-> [r ->]]. exists r. reflexivity.
      * intros [r H]. injection H as -> ->. eauto.
Qed.

(** Only the identifier decides whether a line of the listing starts with
    the word of the header. *)
Lemma startsWith_Available (i w rest : jstring) :
  identifier i -> blank w ->
  startsWith (lit "Available") (i ++ w ++ rest)
  = startsWith (lit "Available") i.
Proof.
  intros _ [Hne Hw]. destruct w as [|x w]; [congruence|].
  simpl in Hw. apply andb_true_iff in Hw as [Hx _].
  assert (is_alnum x = false) as Hax.
  { apply white_space_not_id_char in Hx. unfold is_id_char in Hx.
    do 3 (apply orb_false_iff in Hx as [Hx _]). exact Hx. }
  assert (forall p a, forallb is_alnum p = true ->
            startsWith p (a ++ x :: w ++ rest) = startsWith p a) as H.
  { induction p as [|y p IH]; intros a Hp; [reflexivity|].
    simpl in Hp. apply andb_true_iff in Hp as [Hy Hp].
    destruct a as [|b a]; simpl.
    - destruct (N.eqb_spec y x) as [->|]; [congruence | reflexivity].
    - rewrite (IH a Hp). reflexivity. }
  apply (H (lit "Available") i). reflexivity.
Qed.

Lemma startsWith_Tip (i w rest : jstring) :
  identifier i -> blank w ->
  startsWith (lit "Tip:") (i ++ w ++ rest) = false.
Proof.
  intros Hi [Hne Hw]. destruct w as [|x w]; [congruence|].
  simpl in Hw. apply andb_true_iff in Hw as [Hx _].
  destruct (startsWith (lit "Tip:") (i ++ (x :: w) ++ rest)) eqn:E;
    [exfalso | reflexivity].
  apply startsWith_true in E as [r E].
  destruct i as [|a [|b [|c [|d i]]]]; [destruct Hi | | | |];
    injection E as; subst; try (vm_compute in Hx; discriminate).
  destruct Hi as [_ Hi]. cbn [forallb] in Hi.
  do 2 (apply andb_true_iff in Hi as [_ Hi]).
  apply andb_true_iff in Hi as [Hi _]. vm_compute in Hi. discriminate.
Qed.

Lemma fold_insert_lookup (l : list CursorModelDef)
    (m0 : gmap jstring CursorModelDef) (i : jstring) (k : CursorModelDef) :
  NoDup (id <$> l) ->
  (forall d, d ∈ l -> m0 !! id d = None) ->
  fold_left (fun m d => <[id d := d]> m) l m0 !! i = Some k
  <-> (k ∈ l /\ id k = i) \/ m0 !! i = Some k.
Proof.
  revert m0. induction l as [|d l IH]; intros m0 Hnd Hfresh; simpl.
  - split; [auto | intros [[H _] | H]; [inversion H | exact H]].
  - rewrite fmap_cons in Hnd. apply NoDup_cons in Hnd as [Hd Hnd].
    rewrite IH; [|exact Hnd|].
    + rewrite lookup_insert. case_decide as E.
      * split.
        -- intros [[Hk Hi] | [= <-]].
           ++ left. split; [right; exact Hk | exact Hi].
           ++ left. split; [left | exact E].
        -- intros [[Hk Hi] | H].
           ++ apply elem_of_cons in Hk as [-> | Hk]; [right; reflexivity|].
              left. split; assumption.
           ++ rewrite <- E, (Hfresh d) in H by left. discriminate.
      * split.
        -- intros [[Hk Hi] | H]; [left | right; exact H].
           split; [right; exact Hk | exact Hi].
        -- intros [[Hk Hi] | H]; [|right; exact H].
           apply elem_of_cons in Hk as [-> | Hk]; [congruence|].
           left. split; assumption.
    + intros d' Hd'. rewrite lookup_insert_ne.
      * apply Hfresh. right. exact Hd'.
      * intros E. apply Hd. rewrite E. apply list_elem_of_fmap.
        exists d'. split; [reflexivity | exact Hd'].
Qed.

(** The map of the static models holds exactly the entries of the list:
    no identifier occurs twice. *)
Lemma STATIC_MODELS_MAP_lookup (i : jstring) (k : CursorModelDef) :
  STATIC_MODELS_MAP !! i = Some k <-> k ∈ STATIC_MODELS /\ id k = i.
Proof.
  unfold STATIC_MODELS_MAP. rewrite fold_insert_lookup.
  - rewrite lookup_empty. split; [intros [H | H]; [exact H | discriminate] | auto].
  - apply (bool_decide_unpack _). vm_compute. exact I.
  - intros d _. apply lookup_empty.
Qed.

Lemma STATIC_MODELS_MAP_None (i : jstring) :
  STATIC_MODELS_MAP !! i = None <-> forall k, k ∈ STATIC_MODELS -> id k <> i.
Proof.
  split.
  - intros H k Hk E.
    assert (STATIC_MODELS_MAP !! i = Some k) as H'
      by (apply STATIC_MODELS_MAP_lookup; split; assumption).
    congruence.
  - intros H. destruct (STATIC_MODELS_MAP !! i) as [k|] eqn:E; [|reflexivity].
    apply STATIC_MODELS_MAP_lookup in E as [Hk E]. destruct (H k Hk E).
Qed.

(** [parse_model_line] on a line of the listing that does not start with
    the word of the header. *)
Lemma parse_model_line_listing (line i w1 w2 n m : jstring) :
  trim line = i ++ w1 ++ lit "-" ++ w2 ++ n ++ m ->
  identifier i -> blank w1 -> blank w2 -> display_name n ->
  (m = [] /\ no_status_marker n) \/ status_marker_text m ->
  startsWith (lit "Available") i = false ->
  parse_model_line line = Some (discovered i n).
Proof.
  intros E Hi Hw1 Hw2 Hn Hm Hav. unfold parse_model_line. cbv zeta.
  rewrite E.
  rewrite (startsWith_Available i w1 _ Hi Hw1), Hav.
  rewrite (startsWith_Tip i w1 _ Hi Hw1).
  rewrite bool_decide_eq_false_2.
  2:{ destruct i; [destruct Hi | discriminate]. }
  cbn [orb]. rewrite (lineRe_exec_line i w1 w2 n m Hi Hw1 Hw2 Hn Hm).
  rewrite (trim_identifier i Hi).
  destruct Hn as (_ & Hfirst & Hlast). rewrite (trim_self n Hfirst Hlast).
  reflexivity.
Qed.

Lemma discovered_known (i n : jstring) (k : CursorModelDef) :
  k ∈ STATIC_MODELS -> id k = i ->
  reasoning (discovered i n) = reasoning k
  /\ contextWindow (discovered i n) = contextWindow k
  /\ maxTokens (discovered i n) = maxTokens k.
Proof.
  intros Hk Hi.
  assert (STATIC_MODELS_MAP !! i = Some k) as E
    by (apply STATIC_MODELS_MAP_lookup; split; assumption).
  unfold discovered. cbv zeta. cbn [reasoning contextWindow maxTokens].
  rewrite E. split; [reflexivity|]. split; reflexivity.
Qed.

Lemma discovered_unknown (i n : jstring) :
  (forall k, k ∈ STATIC_MODELS -> id k <> i) ->
  reasoning (discovered i n) = inferReasoning i
  /\ contextWindow (discovered i n) = 200000%Z
  /\ maxTokens (discovered i n) = 32768%Z.
Proof.
  intros H. apply STATIC_MODELS_MAP_None in H.
  unfold discovered. cbv zeta. cbn [reasoning contextWindow maxTokens].
  rewrite H. split; [reflexivity|]. split; reflexivity.
Qed.

Lemma parse_model_line_Some (line : jstring) (d : CursorModelDef) :
  parse_model_line line = Some d ->
  exists g1 g2,
    lineRe_exec (trim line) = Some (g1, g2)
    /\ startsWith (lit "Available") (trim line) = false
    /\ d = discovered (trim g1) (trim g2).
Proof.
  unfold parse_model_line. cbv zeta.
  destruct (bool_decide (trim line = [])); [discriminate|].
  destruct (startsWith (lit "Available") (trim line)); [discriminate|].
  destruct (startsWith (lit "Tip:") (trim line)); [discriminate|].
  cbn [orb]. destruct (lineRe_exec (trim line)) as [[g1 g2]|]; [|discriminate].
  intros H. apply (inj Some) in H. exists g1, g2.
  split; [reflexivity|]. split; [reflexivity|]. symmetry. exact H.
Qed.
(** C10. For a model of the listing whose identifier is not in the static
    table, the [reasoning] flag is the inferred one, and it is [true]
    exactly when the identifier ends with [-thinking], [-high] or [-xhigh];
    an identifier that ends with [-max] gives [false]. *)
Theorem inferReasoning_suffixes (line : jstring) (d : CursorModelDef) :
  parse_model_line line = Some d ->
  (forall k, k ∈ STATIC_MODELS -> id k <> id d) ->
  reasoning d = inferReasoning (id d)
  /\ (reasoning d = true <->
      lit "-thinking" `suffix_of` id d \/ lit "-high" `suffix_of` id d
      \/ lit "-xhigh" `suffix_of` id d)
  /\ (lit "-max" `suffix_of` id d -> reasoning d = false).
Proof.
  intros Hd Hnot. apply parse_model_line_Some in Hd as (g1 & g2 & _ & _ & ->).
  change (id (discovered (trim g1) (trim g2))) with (trim g1) in *.
  destruct (discovered_unknown (trim g1) (trim g2) Hnot) as (-> & _ & _).
  split; [reflexivity|]. split.
  - apply inferReasoning_true.
  - apply inferReasoning_max.
Qed.

Lemma not_in_STATIC_MODELS (i : jstring) :
  bool_decide (i ∈ (id <$> STATIC_MODELS)) = false ->
  forall k, k ∈ STATIC_MODELS -> id k <> i.
Proof.
  intros H k Hk E. apply bool_decide_eq_false in H. apply H.
  apply list_elem_of_fmap. exists k. split; [symmetry; exact E | exact Hk].
Qed.

Lemma inferReasoning_suffixes_witness :
  let line := lit "  gpt-9-max - GPT 9 Max" in
  let d := {| id := lit "gpt-9-max"; name := lit "GPT 9 Max";
              reasoning := false; contextWindow := 200000;
              maxTokens := 32768 |} in
  parse_model_line line = Some d
  /\ (forall k, k ∈ STATIC_MODELS -> id k <> id d)
  /\ reasoning d = inferReasoning (id d)
  /\ (reasoning d = true <->
      lit "-thinking" `suffix_of` id d \/ lit "-high" `suffix_of` id d
      \/ lit "-xhigh" `suffix_of` id d)
  /\ (lit "-max" `suffix_of` id d -> reasoning d = false).
Proof.
  intros line d.
  assert (parse_model_line line = Some d) as H1 by (vm_compute; reflexivity).
  assert (forall k, k ∈ STATIC_MODELS -> id k <> id d) as H2
    by (apply not_in_STATIC_MODELS; vm_compute; reflexivity).
  split; [exact H1|]. split; [exact H2|].
  exact (inferReasoning_suffixes line d H1 H2).
Defined.

(** C8, as amended. A line of the listing [<identifier> - <display name>],
    with a status marker after the name or none, that does not start with
    the word [Available], gives one model definition with that identifier
    and name, the marker left out. Its attributes are those of the static
    table when the identifier is there, and otherwise the inferred
    reasoning flag and the defaults 200000 and 32768. Every definition of
    the result comes from a line, and the listing of scenario D gives the
    definitions of [auto] and [sonnet-4.6], and no other. *)
Theorem parseAgentModelsOutput_listing :
  (forall output line i w1 w2 n m,
     line ∈ split_lines output ->
     trim line = i ++ w1 ++ lit "-" ++ w2 ++ n ++ m ->
     identifier i -> blank w1 -> blank w2 -> display_name n ->
     (m = [] /\ no_status_marker n) \/ status_marker_text m ->
     startsWith (lit "Available") i = false ->
     exists d,
       d ∈ parseAgentModelsOutput output
       /\ parse_model_line line = Some d
       /\ id d = i /\ name d = n
       /\ (forall k, k ∈ STATIC_MODELS -> id k = i ->
             reasoning d = reasoning k
             /\ contextWindow d = contextWindow k
             /\ maxTokens d = maxTokens k)
       /\ ((forall k, k ∈ STATIC_MODELS -> id k <> i) ->
             reasoning d = inferReasoning i
             /\ contextWindow d = 200000%Z /\ maxTokens d = 32768%Z))
  /\ (forall output d,
        d ∈ parseAgentModelsOutput output ->
        exists line, line ∈ split_lines output
                     /\ parse_model_line line = Some d)
  /\ id <$> parseAgentModelsOutput scenario_D_output
     = [lit "auto"; lit "sonnet-4.6"].
Proof.
  split; [|split].
  - intros output line i w1 w2 n m Hin E Hi Hw1 Hw2 Hn Hm Hav.
    pose proof (parse_model_line_listing line i w1 w2 n m E Hi Hw1 Hw2 Hn Hm Hav)
      as Hd.
    exists (discovered i n). split; [|split; [exact Hd|]].
    + unfold parseAgentModelsOutput. apply list_elem_of_omap.
      exists line. split; [exact Hin | exact Hd].
    + split; [reflexivity|]. split; [reflexivity|]. split.
      * intros k Hk Hki. exact (discovered_known i n k Hk Hki).
      * intros Hno. exact (discovered_unknown i n Hno).
  - intros output d Hd. unfold parseAgentModelsOutput in Hd.
    apply list_elem_of_omap in Hd. exact Hd.
  - vm_compute. reflexivity.
Qed.

Lemma parseAgentModelsOutput_listing_witness :
  let output := lit "Available models" ++ [10]
                ++ lit "opus-4.6-thinking - Claude 4.6 Opus (Thinking)  (default)"
                ++ [10] in
  let line := lit "opus-4.6-thinking - Claude 4.6 Opus (Thinking)  (default)" in
  let i := lit "opus-4.6-thinking" in
  let n := lit "Claude 4.6 Opus (Thinking)" in
  let m := lit "  (default)" in
  line ∈ split_lines output
  /\ trim line = i ++ lit " " ++ lit "-" ++ lit " " ++ n ++ m
  /\ identifier i /\ blank (lit " ") /\ display_name n
  /\ status_marker_text m
  /\ startsWith (lit "Available") i = false
  /\ exists d,
       d ∈ parseAgentModelsOutput output
       /\ parse_model_line line = Some d
       /\ id d = i /\ name d = n
       /\ (forall k, k ∈ STATIC_MODELS -> id k = i ->
             reasoning d = reasoning k
             /\ contextWindow d = contextWindow k
             /\ maxTokens d = maxTokens k)
       /\ ((forall k, k ∈ STATIC_MODELS -> id k <> i) ->
             reasoning d = inferReasoning i
             /\ contextWindow d = 200000%Z /\ maxTokens d = 32768%Z).
Proof.
  intros output line i n m.
  assert (line ∈ split_lines output) as H1.
  { apply (bool_decide_unpack _). vm_compute. exact I. }
  assert (trim line = i ++ lit " " ++ lit "-" ++ lit " " ++ n ++ m) as H2
    by (vm_compute; reflexivity).
  assert (identifier i) as H3 by (vm_compute; split; reflexivity).
  assert (blank (lit " ")) as H4 by (split; [discriminate | reflexivity]).
  assert (display_name n) as H5.
  { split; [reflexivity|]. split.
    - eexists _, _. split; reflexivity.
    - exists (lit "Claude 4.6 Opus (Thinking"), 41. split; reflexivity. }
  assert (status_marker_text m) as H6.
  { exists (lit "  "), (lit "default"). split; [split; [discriminate | reflexivity]|].
    split; [right; left; reflexivity | reflexivity]. }
  assert (startsWith (lit "Available") i = false) as H7 by reflexivity.
  repeat (split; [assumption|]).
  exact (proj1 parseAgentModelsOutput_listing output line i (lit " ") (lit " ")
           n m H1 H2 H3 H4 H4 H5 (or_intror H6) H7).
Defined.

(** C8 as stated fails: the expression of the source matches this line of
    the form [<identifier> - <display name>], and no definition comes out
    of it, because the line starts with [Available]. *)
Lemma parseAgentModelsOutput_skips_Available :
  let line := lit "Available-1 - Foo" in
  lineRe_exec (trim line) = Some (lit "Available-1", lit "Foo")
  /\ parseAgentModelsOutput line = [].
Proof. split; vm_compute; reflexivity. Qed.

(** ** Discovery: the promise of [runAgentModels] *)

Arguments parseAgentModelsOutput : simpl never.

Lemma discovery_data (events : list child_event) (s : discovery) :
  forallb is_data events = true ->
  fold_left discovery_step events s
  = {| d_stdout := d_stdout s ++ stdout_text events;
       d_stderr := d_stderr s ++ stderr_text events;
       d_timer := d_timer s; d_sigterm := d_sigterm s;
       d_promise := d_promise s |}.
Proof.
  revert s. induction events as [|e events IH]; intros s H.
  - simpl. rewrite !app_nil_r. destruct s; reflexivity.
  - simpl in H. apply andb_true_iff in H as [He H].
    destruct e; try discriminate; simpl; rewrite (IH _ H); simpl;
      rewrite <- ?app_assoc; reflexivity.
Qed.

(** A settled promise with its timer cleared stays as it is. *)
Lemma discovery_settled (events : list child_event) (s : discovery) :
  d_promise s <> Pending -> d_timer s = false ->
  d_promise (fold_left discovery_step events s) = d_promise s
  /\ d_sigterm (fold_left discovery_step events s) = d_sigterm s.
Proof.
  revert s. induction events as [|e events IH]; intros s Hp Ht; [auto|].
  simpl.
  assert (d_promise (discovery_step s e) = d_promise s
          /\ d_sigterm (discovery_step s e) = d_sigterm s
          /\ d_timer (discovery_step s e) = false) as (E1 & E2 & E3).
  { destruct s as [so se t k p]. simpl in Hp, Ht. subst t.
    destruct e; simpl; auto;
      unfold discovery_on_error, settle, clearTimeout; simpl;
      repeat match goal with
             | |- context [if ?b then _ else _] => destruct b
             end;
      destruct p; simpl; auto; congruence. }
  destruct (IH (discovery_step s e)) as [H1 H2]; [congruence | exact E3 |].
  split; congruence.
Qed.

(** What the first event that is not output makes of the promise. When the
    kill of the timeout fails, the [error] handler rejects before the
    timeout does. *)
Lemma discovery_first (pre post : list child_event) (e : child_event) :
  forallb is_data pre = true -> is_data e = false ->
  let s := runAgentModels (pre ++ e :: post) in
  let out := stdout_text pre in
  d_promise s =
    match e with
    | TimerFired Kill_returns => Rejected TimedOut
    | TimerFired (Kill_fails err) => Rejected (ErrorEvent err)
    | ChildError err => Rejected (ErrorEvent err)
    | ChildClose code =>
        if bool_decide (code = Some 0%Z) then
          if bool_decide (parseAgentModelsOutput out = [])
          then Rejected NoModels
          else Resolved (parseAgentModelsOutput out)
        else Rejected (ExitedWithCode code (trim (stderr_text pre)))
    | _ => Pending
    end
  /\ d_sigterm s = match e with TimerFired _ => 1%nat | _ => 0%nat end.
Proof.
  intros Hpre He s out. subst s. unfold runAgentModels.
  rewrite fold_left_app. rewrite (discovery_data pre _ Hpre). simpl.
  destruct e as [c|c|kill|err|code]; try discriminate.
  - destruct kill as [|err];
      (apply discovery_settled; simpl; [discriminate | reflexivity]).
  - apply discovery_settled; simpl; [discriminate | reflexivity].
  - match goal with
    | |- context [fold_left discovery_step post ?s0] =>
        destruct (discovery_settled post s0) as [H1 H2]
    end.
    + simpl. unfold settle, clearTimeout. simpl.
      repeat case_bool_decide; simpl; discriminate.
    + simpl. unfold settle, clearTimeout. simpl.
      repeat case_bool_decide; simpl; reflexivity.
    + rewrite H1, H2. simpl. unfold settle, clearTimeout. simpl.
      fold out.
      destruct (bool_decide (code = Some 0%Z)) eqn:Ec; simpl.
      * destruct (parseAgentModelsOutput out) eqn:Ep; simpl; auto.
      * auto.
Qed.

(** C7. With only output before it, the first other event settles the
    promise of [runAgentModels]. An [error] event of the child that is not
    caused by the kill of the timeout means that the child was not
    spawned, and the runtime then delivers [close] with the negated error
    number, a code that is not 0. The promise is rejected exactly when the
    timeout elapses (the child is then sent SIGTERM), the child exits with
    a code other than 0, or it exits with code 0 and no line of the output
    gives a model; in the case that is left the promise is resolved with
    the parsed models. *)
Theorem runAgentModels_settles (pre post : list child_event)
    (e : child_event) :
  forallb is_data pre = true -> is_data e = false ->
  (forall err, e = ChildError err ->
     exists code, exit_code post = Some code /\ code <> Some 0%Z) ->
  let s := runAgentModels (pre ++ e :: post) in
  let models := parseAgentModelsOutput (stdout_text pre) in
  (is_rejected (d_promise s) <->
     (exists kill, e = TimerFired kill)
     \/ (exists code, exit_code (e :: post) = Some code /\ code <> Some 0%Z)
     \/ (e = ChildClose (Some 0%Z) /\ models = []))
  /\ ((exists kill, e = TimerFired kill) -> d_sigterm s = 1%nat)
  /\ (~ is_rejected (d_promise s) -> d_promise s = Resolved models).
Proof.
  intros Hpre He Hnode s models.
  destruct (discovery_first pre post e Hpre He) as [Hp Hk].
  fold s in Hp, Hk. fold models in Hp. unfold is_rejected.
  destruct e as [c|c|kill|err|code]; try discriminate.
  - assert (exists why, d_promise s = Rejected why) as Hrej
      by (rewrite Hp; destruct kill; eauto).
    split; [|split].
    + split; [intros _; left; eauto | intros _; exact Hrej].
    + intros _. exact Hk.
    + intros H. destruct (H Hrej).
  - rewrite Hp. split; [|split].
    + split; [|eauto]. intros _. right; left.
      destruct (Hnode err eq_refl) as (code & Hc & Hn).
      exists code. split; [exact Hc | exact Hn].
    + intros [kill H]. discriminate H.
    + intros H. destruct H. eauto.
  - rewrite Hp. case_bool_decide as Ec; [case_bool_decide as Em|].
    + subst code. split; [|split].
      * split; [intros _; right; right; auto | eauto].
      * intros [kill H]. discriminate H.
      * intros H. destruct H. eauto.
    + subst code. split; [|split].
      * split.
        -- intros [why H]. discriminate.
        -- intros [[kill H] | [(c & H & Hc) | [_ H]]];
             [discriminate H | | congruence].
           cbn [exit_code] in H. congruence.
      * intros [kill H]. discriminate H.
      * reflexivity.
    + split; [|split].
      * split; [|eauto]. intros _. right; left.
        exists code. split; [reflexivity | exact Ec].
      * intros [kill H]. discriminate H.
      * intros H. destruct H. eauto.
Qed.

Lemma runAgentModels_settles_witness :
  let pre : list child_event := [] in
  let e := ChildError (lit "spawn agent ENOENT") in
  let post := [ChildClose (Some (-2)%Z)] in
  let s := runAgentModels (pre ++ e :: post) in
  let models := parseAgentModelsOutput (stdout_text pre) in
  forallb is_data pre = true /\ is_data e = false
  /\ (forall err, e = ChildError err ->
        exists code, exit_code post = Some code /\ code <> Some 0%Z)
  /\ (is_rejected (d_promise s) <->
        (exists kill, e = TimerFired kill)
        \/ (exists code, exit_code (e :: post) = Some code
                         /\ code <> Some 0%Z)
        \/ (e = ChildClose (Some 0%Z) /\ models = []))
  /\ ((exists kill, e = TimerFired kill) -> d_sigterm s = 1%nat)
  /\ (~ is_rejected (d_promise s) -> d_promise s = Resolved models).
Proof.
  intros pre e post s models.
  assert (forall err, e = ChildError err ->
            exists code, exit_code post = Some code /\ code <> Some 0%Z)
    as Hnode.
  { intros err _. exists (Some (-2)%Z). split; [reflexivity | discriminate]. }
  split; [reflexivity|]. split; [reflexivity|]. split; [exact Hnode|].
  exact (runAgentModels_settles pre post e eq_refl eq_refl Hnode).
Defined.

(** ** The stream translator: text blocks *)

Lemma terminals_app (l1 l2 : list stream_event) :
  terminals (l1 ++ l2) = (terminals l1 + terminals l2)%nat.
Proof. unfold terminals. rewrite filter_app, length_app. reflexivity. Qed.

Lemma same_control_refl (st : state) : same_control st st.
Proof. repeat split. Qed.

Lemma same_control_trans (a b c : state) :
  same_control a b -> same_control b c -> same_control a c.
Proof.
  unfold same_control. intros (?&?&?&?&?&?&?&?) (?&?&?&?&?&?&?&?).
  repeat split; congruence.
Qed.

(** [emit_text] while the child runs: the block is opened with index 0 if
    it was not open, the text is appended and the delta carries it. *)
Lemma emit_text_streaming (t : jstring) (st : state) :
  streaming st ->
  exists st',
    emit_text t st = Returned st'
    /\ streaming st'
    /\ textBlockOpen st' = true
    /\ accumulatedText st' = accumulatedText st ++ t
    /\ pushed st' = pushed st
                    ++ (if textBlockOpen st then [] else [E_text_start 0])
                    ++ [E_text_delta 0 t]
    /\ same_control st st'.
Proof.
  destruct st as [[c sr em] o acc errs sa al sg ps en rs].
  unfold streaming. simpl. destruct o.
  - intros ->. eexists. unfold emit_text. simpl.
    split; [reflexivity|]. simpl. repeat split.
  - intros [-> ->]. eexists. unfold emit_text. simpl.
    split; [reflexivity|]. simpl. rewrite <- app_assoc. repeat split.
Qed.

Lemma emit_all_app (ts1 ts2 : list jstring) (st : state) :
  emit_all (ts1 ++ ts2) st
  = match emit_all ts1 st with
    | Returned st' => emit_all ts2 st'
    | Threw st' => Threw st'
    end.
Proof.
  revert st. induction ts1 as [|t ts1 IH]; intros st; simpl; [reflexivity|].
  destruct (emit_text t st); [apply IH | reflexivity].
Qed.

Lemma emit_all_streaming (ts : list jstring) (st : state) :
  streaming st ->
  exists st',
    emit_all ts st = Returned st'
    /\ streaming st'
    /\ textBlockOpen st' = textBlockOpen st || negb (bool_decide (ts = []))
    /\ accumulatedText st' = accumulatedText st ++ concat ts
    /\ pushed st' = pushed st
                    ++ (if textBlockOpen st || bool_decide (ts = [])
                        then [] else [E_text_start 0])
                    ++ map (E_text_delta 0) ts
    /\ same_control st st'.
Proof.
  revert st. induction ts as [|t ts IH]; intros st Hst.
  - exists st. simpl. rewrite orb_true_r, orb_false_r, !app_nil_r.
    split; [reflexivity|]. split; [exact Hst|].
    split; [reflexivity|]. split; [reflexivity|].
    split; [reflexivity | apply same_control_refl].
  - destruct (emit_text_streaming t st Hst)
      as (st1 & E1 & Hst1 & Ho1 & Ha1 & Hp1 & Hc1).
    destruct (IH st1 Hst1) as (st2 & E2 & Hst2 & Ho2 & Ha2 & Hp2 & Hc2).
    exists st2. simpl. rewrite E1.
    split; [exact E2|]. split; [exact Hst2|].
    rewrite Ho2, Ha2, Hp2, Ho1, Ha1, Hp1. simpl.
    rewrite orb_false_r, orb_true_r.
    split; [reflexivity|]. split; [rewrite <- app_assoc; reflexivity|].
    split; [|exact (same_control_trans _ _ _ Hc1 Hc2)].
    rewrite <- !app_assoc. reflexivity.
Qed.

Lemma terminals_deltas (i : Z) (ts : list jstring) :
  terminals (map (E_text_delta i) ts) = 0%nat.
Proof. induction ts; [reflexivity | exact IHts]. Qed.

(** The text path never pushes a terminal event. *)
Lemma emit_all_terminals (ts : list jstring) (st : state) :
  streaming st ->
  exists st',
    emit_all ts st = Returned st' /\ streaming st'
    /\ terminals (pushed st') = terminals (pushed st)
    /\ same_control st st'.
Proof.
  intros Hst.
  destruct (emit_all_streaming ts st Hst) as (st' & E & Hst' & _ & _ & Hp & Hc).
  exists st'. split; [exact E|]. split; [exact Hst'|]. split; [|exact Hc].
  rewrite Hp, !terminals_app, terminals_deltas.
  destruct (textBlockOpen st || bool_decide (ts = [])); simpl; lia.
Qed.

(** ** The stream translator: the line handler *)

Lemma get_string_object (k s : jstring) (v : value) :
  get k v = Some (VString s) -> exists props, v = VObject props.
Proof. destruct v; simpl; try discriminate; eauto. Qed.

Lemma get_object_truthy (k : jstring) (v r : value) :
  get k v = Some r -> r <> VUndefined -> truthy v = true.
Proof. destruct v; simpl; try discriminate; try congruence; reflexivity. Qed.

Lemma on_block_text (b : value) (t : jstring) (st : state) :
  text_block b t ->
  on_block b st = if has_text t then emit_text t st else Returned st.
Proof.
  intros [Hty Htx]. unfold on_block, has_text. rewrite Hty, Htx.
  change (is_string (lit "text") (VString (lit "text"))) with true.
  cbn [negb]. destruct (bool_decide (trim t = [])); reflexivity.
Qed.

Lemma for_of_text_blocks (blocks : list value) (frags : list jstring)
    (st : state) :
  Forall2 text_block blocks frags ->
  for_of on_block blocks st = emit_all (List.filter has_text frags) st.
Proof.
  intros H. revert st. induction H as [|b t blocks frags Hb _ IH]; intros st.
  - reflexivity.
  - simpl. rewrite (on_block_text b t st Hb).
    destruct (has_text t); simpl.
    + destruct (emit_text t st); [apply IH | reflexivity].
    + apply IH.
Qed.

(** An [assistant] event puts its fragments that have text through
    [emit_text], in their order; the others are skipped. *)
Lemma on_event_assistant (event : value) (frags : list jstring) (st : state) :
  assistant_event event frags ->
  on_event event st = emit_all (List.filter has_text frags) st.
Proof.
  intros (Hty & message & blocks & Hm & Hc & Hb).
  unfold on_event.
  rewrite (get_object_truthy _ _ _ Hty) by discriminate.
  cbn [negb]. rewrite Hty.
  change (is_string (lit "assistant") (VString (lit "assistant"))) with true.
  cbv iota. unfold on_assistant. rewrite Hm, Hc. cbn [iterate].
  apply for_of_text_blocks, Hb.
Qed.

Lemma JSON_stringify_defined (v : value) :
  v <> VUndefined -> exists t, JSON_stringify v = Some t.
Proof. destruct v; simpl; intros H; try congruence; eauto.
  destruct (_ || _); eauto. Qed.

Lemma args_or_empty_defined (args : value) : args_or_empty args <> VUndefined.
Proof. destruct args; discriminate. Qed.

(** A [tool_call] event of subtype [started] with a key that is not empty:
    the marker goes through [emit_text]. *)
Lemma on_event_tool_call_started (event payload args : value) (k : jstring)
    (rest : list (jstring * value)) (snippet : jstring) (st : state) :
  get (lit "type") event = Some (VString (lit "tool_call")) ->
  get (lit "subtype") event = Some (VString (lit "started")) ->
  get (lit "tool_call") event = Some (VObject ((k, payload) :: rest)) ->
  k <> [] ->
  get (lit "args") payload = Some args ->
  JSON_stringify (args_or_empty args) = Some snippet ->
  on_event event st = emit_text (marker (toPiToolName k) (brief snippet)) st.
Proof.
  intros Hty Hsub Htc Hk Hargs Hs. unfold on_event.
  rewrite (get_object_truthy _ _ _ Hty) by discriminate.
  cbn [negb]. rewrite Hty.
  change (is_string (lit "assistant") (VString (lit "tool_call"))) with false.
  change (is_string (lit "tool_call") (VString (lit "tool_call"))) with true.
  cbv iota. unfold on_tool_call. rewrite Htc. cbn [first_key].
  rewrite bool_decide_eq_false_2 by exact Hk.
  rewrite Hsub.
  change (is_string (lit "started") (VString (lit "started"))) with true.
  cbv iota zeta. cbn [get_first lookup_own].
  unfold jstring_eqb. rewrite bool_decide_eq_true_2 by reflexivity.
  rewrite Hargs. rewrite Hs. reflexivity.
Qed.

(** A [tool_call] event of another subtype pushes nothing. *)
Lemma on_event_tool_call_other (event : value) (props : list (jstring * value))
    (st : state) :
  get (lit "type") event = Some (VString (lit "tool_call")) ->
  get (lit "tool_call") event = Some (VObject props) ->
  (forall sub, get (lit "subtype") event = Some sub ->
               is_string (lit "started") sub = false) ->
  on_event event st = Returned st.
Proof.
  intros Hty Htc Hsub. unfold on_event.
  rewrite (get_object_truthy _ _ _ Hty) by discriminate.
  cbn [negb]. rewrite Hty.
  change (is_string (lit "assistant") (VString (lit "tool_call"))) with false.
  change (is_string (lit "tool_call") (VString (lit "tool_call"))) with true.
  cbv iota. unfold on_tool_call. rewrite Htc.
  destruct props as [|[k payload] rest]; [reflexivity|]. cbn [first_key].
  destruct (bool_decide (k = [])); [reflexivity|].
  destruct (get (lit "subtype") event) as [sub|] eqn:E.
  - rewrite (Hsub sub eq_refl). reflexivity.
  - apply get_string_object in Hty as [ps ->]. discriminate.
Qed.

(** A [tool_call] event of the declared type returns at once or puts one
    piece of text through [emit_text]. *)
Lemma on_event_tool_call (event : value) (st : state) :
  tool_call_event event ->
  on_event event st = Returned st
  \/ exists t, on_event event st = emit_text t st.
Proof.
  intros (Hty & props & Htc & Hobj).
  destruct (get (lit "subtype") event) as [sub|] eqn:Esub.
  2:{ apply get_string_object in Hty as [ps ->]. discriminate. }
  destruct props as [|[k payload] rest].
  { left. unfold on_event.
    rewrite (get_object_truthy _ _ _ Hty) by discriminate.
    cbn [negb]. rewrite Hty.
    change (is_string (lit "assistant") (VString (lit "tool_call"))) with false.
    change (is_string (lit "tool_call") (VString (lit "tool_call"))) with true.
    cbv iota. unfold on_tool_call. rewrite Htc. reflexivity. }
  destruct (is_string (lit "started") sub) eqn:Estart.
  - destruct (decide (k = [])) as [-> | Hk].
    + left. unfold on_event.
      rewrite (get_object_truthy _ _ _ Hty) by discriminate.
      cbn [negb]. rewrite Hty.
      change (is_string (lit "assistant") (VString (lit "tool_call"))) with false.
      change (is_string (lit "tool_call") (VString (lit "tool_call"))) with true.
      cbv iota. unfold on_tool_call. rewrite Htc. reflexivity.
    + right. apply Forall_cons in Hobj as [[ps Hp] _]. simpl in Hp. subst payload.
      destruct (JSON_stringify_defined
                  (args_or_empty (lookup_own (lit "args") ps))
                  (args_or_empty_defined _)) as [snippet Hs].
      exists (marker (toPiToolName k) (brief snippet)).
      destruct sub; try discriminate. unfold is_string, jstring_eqb in Estart.
      apply bool_decide_eq_true in Estart. subst s.
      exact (on_event_tool_call_started event (VObject ps) _ k rest snippet st
               Hty Esub Htc Hk eq_refl Hs).
  - left. apply (on_event_tool_call_other event _ st Hty Htc).
    intros sub' E. congruence.
Qed.

(** A line of the declared type never makes the handler throw, and the
    handler pushes no terminal event. *)
Lemma on_event_conforms (event : value) (st : state) :
  conforms event -> streaming st ->
  exists st',
    on_event event st = Returned st' /\ streaming st'
    /\ terminals (pushed st') = terminals (pushed st)
    /\ same_control st st'.
Proof.
  intros Hc Hst.
  assert (exists st', Returned st = Returned st' /\ streaming st'
            /\ terminals (pushed st') = terminals (pushed st)
            /\ same_control st st') as Hsame.
  { exists st. split; [reflexivity|]. split; [exact Hst|].
    split; [reflexivity | apply same_control_refl]. }
  destruct Hc as [Hf | [[frags Ha] | [Htc | (ty & Hty & Hna & Hnt)]]].
  - unfold on_event. rewrite Hf. exact Hsame.
  - rewrite (on_event_assistant event frags st Ha).
    apply emit_all_terminals, Hst.
  - destruct (on_event_tool_call event st Htc) as [-> | [t ->]]; [exact Hsame|].
    destruct (emit_text_streaming t st Hst) as (st' & E & Hst' & _ & _ & Hp & Hc).
    exists st'. split; [exact E|]. split; [exact Hst'|]. split; [|exact Hc].
    rewrite Hp, !terminals_app.
    change [E_text_delta 0 t] with (map (E_text_delta 0) [t]).
    rewrite terminals_deltas. destruct (textBlockOpen st); simpl; lia.
  - unfold on_event. destruct (truthy event); [|exact Hsame].
    cbn [negb]. rewrite Hty, Hna, Hnt. exact Hsame.
Qed.

(** ** Tool calls *)

Lemma ToolCall_re_Some (s : jstring) :
  is_Some (ToolCall_re s) <-> s = lit "ToolCall".
Proof.
  unfold ToolCall_re. split.
  - intros [u H]. apply re_str_end_Some in H as [-> _]. reflexivity.
  - intros ->. exists tt. reflexivity.
Qed.

(** [replace(/ToolCall$/, '')] takes a trailing [ToolCall] away and leaves
    any other key as it is. *)
Lemma replace_ToolCall_suffix (p : jstring) :
  replace_ToolCall (p ++ lit "ToolCall") = p.
Proof.
  induction p as [|c p IH].
  - reflexivity.
  - change ((c :: p) ++ lit "ToolCall") with (c :: (p ++ lit "ToolCall")).
    cbn [replace_ToolCall]. rewrite bool_decide_eq_false_2.
    + rewrite IH. reflexivity.
    + rewrite ToolCall_re_Some. intros E.
      apply (f_equal (@length N)) in E. simpl in E.
      rewrite length_app in E. simpl in E. lia.
Qed.

Lemma replace_ToolCall_other (k : jstring) :
  ~ lit "ToolCall" `suffix_of` k -> replace_ToolCall k = k.
Proof.
  induction k as [|c k IH]; intros H.
  - reflexivity.
  - cbn [replace_ToolCall]. rewrite bool_decide_eq_false_2.
    + rewrite IH; [reflexivity|]. intros [q ->]. apply H.
      exists (c :: q). reflexivity.
    + rewrite ToolCall_re_Some. intros E. apply H. rewrite E. reflexivity.
Qed.

(** For a key that [Object.prototype] does not define, [toPiToolName]
    gives the display name of the specification. *)
Lemma toPiToolName_display (k : jstring) :
  k ∉ Object_prototype_keys ->
  exists display, toPiToolName k = Named display /\ display_of k display.
Proof.
  intros Hk. unfold toPiToolName, display_of.
  destruct (TOOL_NAME_MAP !! k) as [n|]; [eauto|].
  rewrite bool_decide_eq_false_2 by exact Hk.
  exists (replace_ToolCall k). split; [reflexivity|].
  destruct (decide (lit "ToolCall" `suffix_of` k)) as [[p ->] | Hno].
  - left. exists p. split; [reflexivity | apply replace_ToolCall_suffix].
  - right. split; [exact Hno | apply replace_ToolCall_other, Hno].
Qed.

Lemma brief_spec (snippet : jstring) :
  ((120 < length snippet)%nat -> brief snippet = take 120 snippet ++ [8230])
  /\ ((length snippet <= 120)%nat -> brief snippet = snippet).
Proof.
  unfold brief. split; intros H.
  - apply Nat.ltb_lt in H. rewrite H. reflexivity.
  - apply Nat.ltb_ge in H. rewrite H. reflexivity.
Qed.

(** C9. A [tool_call] event whose [tool_call] object has no key: the line
    handler returns the state as it got it; nothing is pushed and nothing
    of the output message changes. The same holds for the line that parses
    to this event. *)
Theorem empty_tool_call_is_ignored (event : value) (st : state) :
  get (lit "type") event = Some (VString (lit "tool_call")) ->
  get (lit "tool_call") event = Some (VObject []) ->
  on_event event st = Returned st
  /\ forall JSON_parse line,
       parseLine JSON_parse line = event ->
       step JSON_parse (EvLine line) st = Returned st.
Proof.
  intros Hty Htc.
  assert (on_event event st = Returned st) as H.
  { unfold on_event.
    rewrite (get_object_truthy _ _ _ Hty) by discriminate.
    cbn [negb]. rewrite Hty.
    change (is_string (lit "assistant") (VString (lit "tool_call"))) with false.
    change (is_string (lit "tool_call") (VString (lit "tool_call"))) with true.
    cbv iota. unfold on_tool_call. rewrite Htc. reflexivity. }
  split; [exact H|]. intros JSON_parse line E.
  cbn [step]. unfold on_line. rewrite E. exact H.
Qed.

Lemma empty_tool_call_is_ignored_witness :
  let line := dq "{'type':'tool_call','subtype':'started','tool_call':{}}" in
  let event := VObject [(lit "type", VString (lit "tool_call"));
                        (lit "subtype", VString (lit "started"));
                        (lit "tool_call", VObject [])] in
  let st := spawned (Some false) in
  JSON.parse line = Some event
  /\ get (lit "type") event = Some (VString (lit "tool_call"))
  /\ get (lit "tool_call") event = Some (VObject [])
  /\ on_event event st = Returned st
  /\ forall JSON_parse line,
       parseLine JSON_parse line = event ->
       step JSON_parse (EvLine line) st = Returned st.
Proof.
  intros line event st.
  split; [vm_compute; reflexivity|].
  split; [reflexivity|]. split; [reflexivity|].
  exact (empty_tool_call_is_ignored event st eq_refl eq_refl).
Defined.

(** C6, as amended. A [tool_call] event of subtype [started] whose first
    key [k] is not empty (and is not a name that [Object.prototype]
    defines): the marker is the line break, the hourglass, the display name
    of [k] in brackets, the JSON text of the arguments ([{}] without
    arguments) cut after 120 code units with an ellipsis exactly when it is
    longer, and a line break; it goes through [emit_text] as a fragment of
    assistant text does. *)
Theorem tool_call_started_marker (event payload args : value) (k : jstring)
    (rest : list (jstring * value)) (st : state) :
  get (lit "type") event = Some (VString (lit "tool_call")) ->
  get (lit "subtype") event = Some (VString (lit "started")) ->
  get (lit "tool_call") event = Some (VObject ((k, payload) :: rest)) ->
  k <> [] ->
  k ∉ Object_prototype_keys ->
  get (lit "args") payload = Some args ->
  exists display snippet shown,
    display_of k display
    /\ JSON_stringify (args_or_empty args) = Some snippet
    /\ ((120 < length snippet)%nat -> shown = take 120 snippet ++ [8230])
    /\ ((length snippet <= 120)%nat -> shown = snippet)
    /\ on_event event st
       = emit_text ([10; 9203] ++ lit " [" ++ display ++ lit "] " ++ shown
                    ++ [10]) st
    /\ (forall b t, text_block b t -> has_text t = true ->
                    on_block b st = emit_text t st)
    /\ (streaming st ->
        exists st',
          on_event event st = Returned st'
          /\ accumulatedText st'
             = accumulatedText st
               ++ [10; 9203] ++ lit " [" ++ display ++ lit "] " ++ shown ++ [10]
          /\ pushed st'
             = pushed st
               ++ (if textBlockOpen st then [] else [E_text_start 0])
               ++ [E_text_delta 0 ([10; 9203] ++ lit " [" ++ display
                                   ++ lit "] " ++ shown ++ [10])]).
Proof.
  intros Hty Hsub Htc Hk Hproto Hargs.
  destruct (toPiToolName_display k Hproto) as (display & Hname & Hdisp).
  destruct (JSON_stringify_defined (args_or_empty args)
              (args_or_empty_defined args)) as [snippet Hs].
  exists display, snippet, (brief snippet).
  pose proof (on_event_tool_call_started event payload args k rest snippet st
                Hty Hsub Htc Hk Hargs Hs) as Hev.
  rewrite Hname in Hev. unfold marker in Hev. cbn [render_tool_name] in Hev.
  split; [exact Hdisp|]. split; [exact Hs|].
  split; [apply brief_spec|]. split; [apply brief_spec|].
  split; [exact Hev|]. split.
  - intros b t Hb Ht. rewrite (on_block_text b t st Hb), Ht. reflexivity.
  - intros Hst. rewrite Hev.
    destruct (emit_text_streaming
                ([10; 9203] ++ lit " [" ++ display ++ lit "] "
                 ++ brief snippet ++ [10]) st Hst)
      as (st' & E & _ & _ & Ha & Hp & _).
    exists st'. split; [exact E|]. split; [exact Ha | exact Hp].
Qed.

Lemma tool_call_started_marker_witness :
  let args := VObject [(lit "cmd", VString (lit "ls"))] in
  let payload := VObject [(lit "args", args)] in
  let event := VObject [(lit "type", VString (lit "tool_call"));
                        (lit "subtype", VString (lit "started"));
                        (lit "tool_call",
                         VObject [(lit "shellToolCall", payload)])] in
  let k := lit "shellToolCall" in
  let st := spawned None in
  get (lit "type") event = Some (VString (lit "tool_call"))
  /\ get (lit "subtype") event = Some (VString (lit "started"))
  /\ get (lit "tool_call") event = Some (VObject [(k, payload)])
  /\ k <> []
  /\ (k ∉ Object_prototype_keys)
  /\ get (lit "args") payload = Some args
  /\ exists display snippet shown,
    display_of k display
    /\ JSON_stringify (args_or_empty args) = Some snippet
    /\ ((120 < length snippet)%nat -> shown = take 120 snippet ++ [8230])
    /\ ((length snippet <= 120)%nat -> shown = snippet)
    /\ on_event event st
       = emit_text ([10; 9203] ++ lit " [" ++ display ++ lit "] " ++ shown
                    ++ [10]) st
    /\ (forall b t, text_block b t -> has_text t = true ->
                    on_block b st = emit_text t st)
    /\ (streaming st ->
        exists st',
          on_event event st = Returned st'
          /\ accumulatedText st'
             = accumulatedText st
               ++ [10; 9203] ++ lit " [" ++ display ++ lit "] " ++ shown ++ [10]
          /\ pushed st'
             = pushed st
               ++ (if textBlockOpen st then [] else [E_text_start 0])
               ++ [E_text_delta 0 ([10; 9203] ++ lit " [" ++ display
                                   ++ lit "] " ++ shown ++ [10])]).
Proof.
  intros args payload event k st.
  assert (k ∉ Object_prototype_keys) as Hk.
  { apply (bool_decide_unpack _). vm_compute. exact I. }
  split; [reflexivity|]. split; [reflexivity|]. split; [reflexivity|].
  split; [discriminate|]. split; [exact Hk|]. split; [reflexivity|].
  exact (tool_call_started_marker event payload args k [] st
           eq_refl eq_refl eq_refl ltac:(discriminate) Hk eq_refl).
Defined.

(** Scenario C: the marker of [shellToolCall] with the arguments
    [{ cmd: "ls" }]. *)
Example scenario_C :
  let line := dq "{'type':'tool_call','subtype':'started','tool_call':{'shellToolCall':{'args':{'cmd':'ls'}}}}" in
  exists st,
    step JSON.parse (EvLine line) (spawned None) = Returned st
    /\ accumulatedText st
       = [10; 9203] ++ dq " [Shell] {'cmd':'ls'}" ++ [10]
    /\ pushed st = [E_start; E_text_start 0;
                    E_text_delta 0 ([10; 9203]
                                    ++ dq " [Shell] {'cmd':'ls'}"
                                    ++ [10])].
Proof. eexists. split; [vm_compute; reflexivity|]. split; reflexivity. Qed.

(** C6 as stated fails: for the key that is the empty string the handler
    returns before anything is rendered; no marker is appended. *)
Lemma empty_tool_key_gives_no_marker :
  let event := VObject [(lit "type", VString (lit "tool_call"));
                        (lit "subtype", VString (lit "started"));
                        (lit "tool_call",
                         VObject [([], VObject [(lit "args", VObject [])])])] in
  JSON.parse (dq "{'type':'tool_call','subtype':'started','tool_call':{'':{'args':{}}}}")
  = Some event
  /\ on_event event (spawned None) = Returned (spawned None).
Proof. split; vm_compute; reflexivity. Qed.

(** ** Assistant text *)

Lemma run_lines (JSON_parse : jstring -> option value) (lines : list jstring)
    (st : state) :
  run JSON_parse (map EvLine lines) st
  = for_of on_event (map (parseLine JSON_parse) lines) st.
Proof.
  revert st. induction lines as [|line lines IH]; intros st; [reflexivity|].
  simpl. unfold on_line. destruct (on_event _ st); [apply IH | reflexivity].
Qed.

Lemma for_of_assistant_events (events : list value)
    (fragss : list (list jstring)) (st : state) :
  Forall2 assistant_event events fragss ->
  for_of on_event events st
  = emit_all (List.filter has_text (concat fragss)) st.
Proof.
  intros H. revert st.
  induction H as [|event frags events fragss He _ IH]; intros st.
  - reflexivity.
  - cbn [for_of concat]. rewrite List.filter_app, emit_all_app.
    rewrite (on_event_assistant event frags st He).
    destruct (emit_all (List.filter has_text frags) st); [apply IH | reflexivity].
Qed.

(** What the [close] handler pushes: the end of the open text block with
    the accumulated text, then one terminal event. *)
Lemma on_close_pushed (code : option Z) (st : state) :
  exists terminal,
    is_terminal terminal = true
    /\ pushed (on_close code st)
       = pushed st
         ++ (if textBlockOpen st
             then [E_text_end (last_index st) (accumulatedText st)] else [])
         ++ [terminal]
    /\ ended (on_close code st) = S (ended st)
    /\ resolved (on_close code st) = S (resolved st)
    /\ textBlockOpen (on_close code st) = false.
Proof.
  destruct st as [[c sr em] o acc errs sa al sg ps en rs].
  unfold on_close. cbn.
  destruct o, sa; cbn;
    try (destruct (negb (bool_decide (code = Some 0%Z))
                   && bool_decide (acc = [])); cbn);
    eexists; (split; [|split; [rewrite <- ?app_assoc; reflexivity|]]);
    try reflexivity; repeat split.
Qed.

(** C3, as amended. Lines that parse to [assistant] events: every fragment
    that is not empty and not only white space is appended to the text
    block, which is opened with content index 0 by the first of them, and
    a [text_delta] carries exactly that fragment; a fragment of white space
    only is skipped like an empty one. The accumulated text is the
    concatenation of the fragments that were not skipped, in their order,
    and it is the content of the [text_end] that the [close] handler
    pushes before the terminal event. *)
Theorem assistant_text_accumulates (JSON_parse : jstring -> option value)
    (signal : option bool) (lines : list jstring)
    (fragss : list (list jstring)) (code : option Z) :
  Forall2 (fun line frags => assistant_event (parseLine JSON_parse line) frags)
    lines fragss ->
  let kept := List.filter has_text (concat fragss) in
  exists st,
    run JSON_parse (map EvLine lines) (spawned signal) = Returned st
    /\ accumulatedText st = concat kept
    /\ pushed st
       = E_start :: (if bool_decide (kept = []) then []
                     else E_text_start 0 :: map (E_text_delta 0) kept)
    /\ content (output st)
       = (if bool_decide (kept = []) then [] else [{| text := concat kept |}])
    /\ (kept <> [] ->
        exists terminal,
          is_terminal terminal = true
          /\ pushed (on_close code st)
             = pushed st ++ [E_text_end 0 (concat kept); terminal]).
Proof.
  intros H kept.
  assert (Forall2 assistant_event (map (parseLine JSON_parse) lines) fragss)
    as H'.
  { clear kept. induction H; constructor; assumption. }
  rewrite run_lines, (for_of_assistant_events _ fragss _ H'). fold kept.
  assert (streaming (spawned signal)) as Hst by (split; reflexivity).
  destruct (emit_all_streaming kept (spawned signal) Hst)
    as (st & E & Hst' & Ho & Ha & Hp & _).
  exists st. split; [exact E|]. split; [exact Ha|].
  cbn [spawned textBlockOpen orb] in Ho, Hp.
  unfold streaming in Hst'. rewrite Ho in Hst'.
  split; [|split].
  - rewrite Hp. cbn [spawned pushed]. destruct (bool_decide (kept = [])) eqn:Ek.
    + apply bool_decide_eq_true in Ek. rewrite Ek. reflexivity.
    + reflexivity.
  - destruct (bool_decide (kept = [])); cbn [negb] in Hst'.
    + apply Hst'.
    + rewrite Hst', Ha. reflexivity.
  - intros Hne. destruct (on_close_pushed code st) as (terminal & Ht & Hpc & _).
    exists terminal. split; [exact Ht|]. rewrite Hpc, Ho.
    rewrite bool_decide_eq_false_2 by exact Hne. cbn [negb].
    rewrite bool_decide_eq_false_2 in Hst' by exact Hne. cbn [negb] in Hst'.
    unfold last_index. rewrite Hst', Ha. reflexivity.
Qed.

Lemma assistant_text_accumulates_witness :
  let lines := [dq "{'type':'assistant','message':{'content':[{'type':'text','text':'Hi'}]}}";
                dq "{'type':'assistant','message':{'content':[{'type':'text','text':' there'},{'type':'text','text':''}]}}"] in
  let fragss := [[lit "Hi"]; [lit " there"; []]] in
  let kept := List.filter has_text (concat fragss) in
  Forall2 (fun line frags => assistant_event (parseLine JSON.parse line) frags)
    lines fragss
  /\ exists st,
    run JSON.parse (map EvLine lines) (spawned None) = Returned st
    /\ accumulatedText st = concat kept
    /\ pushed st
       = E_start :: (if bool_decide (kept = []) then []
                     else E_text_start 0 :: map (E_text_delta 0) kept)
    /\ content (output st)
       = (if bool_decide (kept = []) then [] else [{| text := concat kept |}])
    /\ (kept <> [] ->
        exists terminal,
          is_terminal terminal = true
          /\ pushed (on_close (Some 0%Z) st)
             = pushed st ++ [E_text_end 0 (concat kept); terminal]).
Proof.
  intros lines fragss kept.
  assert (Forall2 (fun line frags =>
                     assistant_event (parseLine JSON.parse line) frags)
            lines fragss) as H.
  { repeat constructor.
    - eexists _, _. split; [vm_compute; reflexivity|].
      split; [vm_compute; reflexivity|]. repeat constructor.
    - eexists _, _. split; [vm_compute; reflexivity|].
      split; [vm_compute; reflexivity|]. repeat constructor. }
  split; [exact H|].
  exact (assistant_text_accumulates JSON.parse None lines fragss (Some 0%Z) H).
Defined.

(** Scenario A: one line with the fragment [Hi], then exit with code 0. *)
Example scenario_A :
  let line := dq "{'type':'assistant','message':{'content':[{'type':'text','text':'Hi'}]}}" in
  exists st,
    run JSON.parse [EvLine line; EvClose (Some 0%Z)] (spawned None)
    = Returned st
    /\ content (output st) = [{| text := lit "Hi" |}]
    /\ stopReason (output st) = SR_stop
    /\ pushed st = [E_start; E_text_start 0; E_text_delta 0 (lit "Hi");
                    E_text_end 0 (lit "Hi"); E_done SR_stop].
Proof. eexists. split; [vm_compute; reflexivity|]. repeat split. Qed.

(** C3 as stated fails: the fragment of one blank between [Hi] and
    [there] is not empty, and it is skipped: no delta carries it and the
    text of the [text_end] is not the concatenation of the fragments. *)
Lemma blank_fragment_is_skipped :
  let event :=
    VObject [(lit "type", VString (lit "assistant"));
             (lit "message",
              VObject [(lit "content",
                        VArray [VObject [(lit "type", VString (lit "text"));
                                         (lit "text", VString (lit "Hi"))];
                                VObject [(lit "type", VString (lit "text"));
                                         (lit "text", VString (lit " "))];
                                VObject [(lit "type", VString (lit "text"));
                                         (lit "text", VString (lit "there"))]])])] in
  exists st,
    on_event event (spawned None) = Returned st
    /\ pushed st = [E_start; E_text_start 0; E_text_delta 0 (lit "Hi");
                    E_text_delta 0 (lit "there")]
    /\ pushed (on_close (Some 0%Z) st)
       = pushed st ++ [E_text_end 0 (lit "Hithere"); E_done SR_stop]
    /\ lit "Hithere" <> lit "Hi" ++ lit " " ++ lit "there".
Proof.
  eexists. split; [vm_compute; reflexivity|].
  split; [reflexivity|]. split; [reflexivity | discriminate].
Qed.

(** ** The stream translator: one invocation *)

Lemma spawned_running (signal : option bool) : running (spawned signal) [].
Proof. repeat split. Qed.

Lemma emit_text_emit_all (t : jstring) (st : state) :
  emit_text t st = emit_all [t] st.
Proof. simpl. destruct (emit_text t st); reflexivity. Qed.

Lemma emit_all_running (ts ts1 : list jstring) (st : state) :
  running st ts ->
  exists st',
    emit_all ts1 st = Returned st' /\ running st' (ts ++ ts1)
    /\ same_control st st'.
Proof.
  intros (Hst & Ho & Ha & Hp & He & Hr & Hs & Hm).
  destruct (emit_all_streaming ts1 st Hst)
    as (st' & E & Hst' & Ho' & Ha' & Hp' & Hc).
  exists st'. split; [exact E|]. split; [|exact Hc].
  pose proof Hc as (_ & _ & _ & _ & Hce & Hcr & Hcs & Hcm).
  unfold running.
  split; [exact Hst'|]. split; [|split; [|split]].
  - rewrite Ho', Ho. destruct ts, ts1; reflexivity.
  - rewrite Ha', Ha, concat_app. reflexivity.
  - rewrite Hp', Hp, Ho. unfold opening.
    destruct ts as [|t ts]; destruct ts1 as [|t1 ts1]; simpl;
      rewrite ?app_nil_r, ?map_app; try reflexivity.
  - repeat split; congruence.
Qed.

(** The line handler on a value of the declared type puts pieces of text
    through the text block, and does nothing else. *)
Lemma on_event_emits (event : value) (st : state) :
  conforms event -> exists ts1, on_event event st = emit_all ts1 st.
Proof.
  intros [Hf | [[frags Ha] | [Htc | (ty & Hty & Hna & Hnt)]]].
  - exists []. unfold on_event. rewrite Hf. reflexivity.
  - exists (List.filter has_text frags). apply on_event_assistant, Ha.
  - destruct (on_event_tool_call event st Htc) as [-> | [t ->]].
    + exists []. reflexivity.
    + exists [t]. apply emit_text_emit_all.
  - exists []. unfold on_event. destruct (truthy event); [|reflexivity].
    cbn [negb]. rewrite Hty, Hna, Hnt. reflexivity.
Qed.

(** Before completion every callback returns and the invocation stays a
    running one. *)
Lemma run_running (JSON_parse : jstring -> option value)
    (pre : list proc_event) (st : state) (ts : list jstring) :
  forallb (fun e => negb (is_completion e)) pre = true ->
  Forall (line_conforms JSON_parse) pre ->
  running st ts ->
  exists st' ts',
    run JSON_parse pre st = Returned st' /\ running st' ts'.
Proof.
  revert st ts. induction pre as [|e pre IH]; intros st ts Hnc Hcf Hrun.
  - exists st, ts. split; [reflexivity | exact Hrun].
  - simpl in Hnc. apply andb_true_iff in Hnc as [He Hnc].
    apply Forall_cons in Hcf as [Hce Hcf].
    destruct e as [line | chunk | | code | message]; try discriminate.
    + simpl in Hce. destruct (on_event_emits _ st Hce) as [ts1 E].
      destruct (emit_all_running ts ts1 st Hrun) as (st1 & E1 & Hrun1 & _).
      cbn [run step]. unfold on_line. rewrite E, E1.
      exact (IH st1 (ts ++ ts1) Hnc Hcf Hrun1).
    + cbn [run step]. apply (IH _ ts Hnc Hcf).
      destruct st as [[c sr em] o acc errs sa al sg ps en rs].
      exact Hrun.
    + cbn [run step]. apply (IH _ ts Hnc Hcf).
      destruct st as [[c sr em] o acc errs sa al sg ps en rs].
      unfold on_abort. cbn. destruct sa; exact Hrun.
Qed.

Lemma terminals_opening (ts : list jstring) : terminals (opening ts) = 0%nat.
Proof.
  unfold opening. destruct (bool_decide (ts = [])); [reflexivity|].
  change (E_start :: E_text_start 0 :: map (E_text_delta 0) ts)
    with ([E_start; E_text_start 0] ++ map (E_text_delta 0) ts).
  rewrite terminals_app, terminals_deltas. reflexivity.
Qed.

Lemma terminals_one (t : stream_event) :
  is_terminal t = true -> terminals [t] = 1%nat.
Proof. destruct t; try discriminate; reflexivity. Qed.

(** The [close] handler on a running invocation. *)
Lemma on_close_running (code : option Z) (st : state) (ts : list jstring) :
  running st ts ->
  exists terminal,
    is_terminal terminal = true
    /\ pushed (on_close code st)
       = opening ts
         ++ (if bool_decide (ts = []) then []
             else [E_text_end 0 (concat ts)])
         ++ [terminal]
    /\ ended (on_close code st) = 1%nat
    /\ resolved (on_close code st) = 1%nat.
Proof.
  intros (Hst & Ho & Ha & Hp & He & Hr & _ & _).
  destruct (on_close_pushed code st) as (terminal & Ht & Hpc & Hec & Hrc & _).
  exists terminal. split; [exact Ht|].
  split; [|split; congruence].
  rewrite Hpc, Hp, Ho, Ha. unfold streaming in Hst. rewrite Ho in Hst.
  destruct (bool_decide (ts = [])); cbn [negb] in *; [reflexivity|].
  unfold last_index. rewrite Hst. reflexivity.
Qed.

(** The [error] handler on a running invocation: the terminal event comes
    right after what was pushed. *)
Lemma on_error_running (message : jstring) (st : state) (ts : list jstring) :
  running st ts ->
  pushed (on_error message st) = opening ts ++ [E_error SR_error]
  /\ ended (on_error message st) = 1%nat
  /\ resolved (on_error message st) = 1%nat.
Proof.
  intros (_ & _ & _ & Hp & He & Hr & _ & _).
  destruct st as [[c sr em] o acc errs sa al sg ps en rs].
  cbn in *. subst. repeat split.
Qed.

Lemma run_app (JSON_parse : jstring -> option value)
    (pre rest : list proc_event) (st st1 : state) :
  run JSON_parse pre st = Returned st1 ->
  run JSON_parse (pre ++ rest) st = run JSON_parse rest st1.
Proof.
  revert st. induction pre as [|e pre IH]; intros st E.
  - simpl in E. injection E as ->. reflexivity.
  - simpl in E. simpl. destruct (step JSON_parse e st); [|discriminate].
    apply IH, E.
Qed.

Arguments trim : simpl never.
Arguments exited_with_code : simpl never.

(** Up to the first completion event. When the child delivers a [close]
    (exit with any code, also after an abort) or an [error] after lines of
    the declared type, output on standard error and aborts of the signal,
    every callback returns, and after that event one terminal event is
    pushed, as the last event, and the stream is ended once; the same
    holds when [spawn] throws. The two handlers hold no latch, so this says
    nothing of a second completion event. *)
Theorem one_completion_one_terminal :
  (forall (JSON_parse : jstring -> option value) (signal : option bool)
          (pre : list proc_event) (fin : proc_event),
     forallb (fun e => negb (is_completion e)) pre = true ->
     Forall (line_conforms JSON_parse) pre ->
     is_completion fin = true ->
     exists st before terminal,
       streamCursorCli JSON_parse signal (Spawned (pre ++ [fin])) = Returned st
       /\ pushed st = before ++ [terminal]
       /\ terminals before = 0%nat /\ is_terminal terminal = true
       /\ terminals (pushed st) = 1%nat
       /\ ended st = 1%nat /\ resolved st = 1%nat)
  /\ (forall (JSON_parse : jstring -> option value) (signal : option bool)
             (message : jstring),
        exists st terminal,
          streamCursorCli JSON_parse signal (SpawnThrows message) = Returned st
          /\ pushed st = [E_start; terminal] /\ is_terminal terminal = true
          /\ terminals (pushed st) = 1%nat /\ ended st = 1%nat).
Proof.
  split.
  - intros JSON_parse signal pre fin Hnc Hcf Hfin.
    destruct (run_running JSON_parse pre (spawned signal) [] Hnc Hcf
                (spawned_running signal)) as (st1 & ts & E1 & Hrun).
    cbn [streamCursorCli].
    destruct fin as [| | | code | message]; try discriminate.
    + destruct (on_close_running code st1 ts Hrun)
        as (terminal & Ht & Hp & He & Hr).
      exists (on_close code st1),
        (opening ts ++ (if bool_decide (ts = []) then []
                        else [E_text_end 0 (concat ts)])), terminal.
      split; [exact (run_app JSON_parse pre _ _ _ E1)|].
      split; [rewrite Hp, <- app_assoc; reflexivity|].
      assert (terminals
                (opening ts ++ (if bool_decide (ts = []) then []
                                else [E_text_end 0 (concat ts)])) = 0%nat)
        as H0.
      { rewrite terminals_app, terminals_opening.
        destruct (bool_decide (ts = [])); reflexivity. }
      split; [exact H0|]. split; [exact Ht|].
      split; [|split; assumption].
      rewrite Hp, app_assoc, terminals_app, H0, (terminals_one _ Ht).
      reflexivity.
    + destruct (on_error_running message st1 ts Hrun) as (Hp & He & Hr).
      exists (on_error message st1), (opening ts), (E_error SR_error).
      split; [exact (run_app JSON_parse pre _ _ _ E1)|].
      split; [exact Hp|]. split; [apply terminals_opening|].
      split; [reflexivity|]. split; [|split; assumption].
      rewrite Hp, terminals_app, terminals_opening. reflexivity.
  - intros JSON_parse signal message.
    destruct signal as [[|]|]; eexists _, _;
      (split; [reflexivity|]); repeat split.
Qed.

Lemma one_completion_one_terminal_witness :
  let pre := [EvLine (dq "{'type':'assistant','message':{'content':[{'type':'text','text':'Hi'}]}}");
              EvStderr (lit "warning");
              EvLine (lit "not json");
              EvAbort] in
  let fin := EvClose None in
  forallb (fun e => negb (is_completion e)) pre = true
  /\ Forall (line_conforms JSON.parse) pre
  /\ is_completion fin = true
  /\ exists st before terminal,
       streamCursorCli JSON.parse (Some false) (Spawned (pre ++ [fin]))
       = Returned st
       /\ pushed st = before ++ [terminal]
       /\ terminals before = 0%nat /\ is_terminal terminal = true
       /\ terminals (pushed st) = 1%nat
       /\ ended st = 1%nat /\ resolved st = 1%nat.
Proof.
  intros pre fin.
  assert (Forall (line_conforms JSON.parse) pre) as H.
  { constructor; [|constructor; [exact I|constructor; [|constructor; [exact I|constructor]]]].
    - right; left. exists [lit "Hi"]. split; [vm_compute; reflexivity|].
      eexists _, _. split; [vm_compute; reflexivity|].
      split; [vm_compute; reflexivity|].
      constructor; [split; reflexivity | constructor].
    - left. vm_compute. reflexivity. }
  split; [reflexivity|]. split; [exact H|]. split; [reflexivity|].
  exact (proj1 one_completion_one_terminal JSON.parse (Some false) pre fin
           eq_refl H eq_refl).
Defined.

(** C1. The exit path of a spawn failure: a child that cannot be spawned
    delivers [error] and then [close], with the negated error number as
    code. Both handlers run, as neither checks that the other has
    completed the invocation: two terminal events are pushed, the stream
    is ended twice, and the message of the first is overwritten. *)
Lemma error_then_close_ends_twice :
  exists st,
    streamCursorCli JSON.parse (Some false)
      (Spawned [EvError (lit "spawn agent ENOENT"); EvClose (Some (-2)%Z)])
    = Returned st
    /\ pushed st = [E_start; E_error SR_error; E_error SR_error]
    /\ terminals (pushed st) = 2%nat
    /\ ended st = 2%nat
    /\ errorMessage (output st)
       = Some (lit "Cursor CLI exited with code -2").
Proof. eexists. split; [vm_compute; reflexivity|]. repeat split. Qed.

(** X1. The close path of an invocation: the events are [start], then, if any
    text went through the block, [text_start] of block 0, the deltas and
    one [text_end] with the accumulated text, and then the terminal
    event. *)
Theorem close_path_closes_text_block (JSON_parse : jstring -> option value)
    (signal : option bool) (pre : list proc_event) (code : option Z) :
  forallb (fun e => negb (is_completion e)) pre = true ->
  Forall (line_conforms JSON_parse) pre ->
  exists st ts terminal,
    run JSON_parse (pre ++ [EvClose code]) (spawned signal) = Returned st
    /\ is_terminal terminal = true
    /\ textBlockOpen st = false
    /\ pushed st
       = E_start
         :: (if bool_decide (ts = []) then []
             else E_text_start 0 :: map (E_text_delta 0) ts
                  ++ [E_text_end 0 (concat ts)])
         ++ [terminal].
Proof.
  intros Hnc Hcf.
  destruct (run_running JSON_parse pre (spawned signal) [] Hnc Hcf
              (spawned_running signal)) as (st1 & ts & E1 & Hrun).
  destruct (on_close_running code st1 ts Hrun) as (terminal & Ht & Hp & _).
  exists (on_close code st1), ts, terminal.
  split; [|split; [exact Ht|split]].
  - exact (run_app JSON_parse pre _ _ _ E1).
  - destruct (on_close_pushed code st1) as (_ & _ & _ & _ & _ & H). exact H.
  - rewrite Hp. unfold opening.
    destruct (bool_decide (ts = [])); [reflexivity|].
    simpl. rewrite <- app_assoc. reflexivity.
Qed.

Lemma close_path_closes_text_block_witness :
  let pre := [EvLine (dq "{'type':'assistant','message':{'content':[{'type':'text','text':'Hi'}]}}");
              EvLine (dq "{'type':'result','subtype':'success','duration_ms':12}")] in
  forallb (fun e => negb (is_completion e)) pre = true
  /\ Forall (line_conforms JSON.parse) pre
  /\ exists st ts terminal,
    run JSON.parse (pre ++ [EvClose (Some 0%Z)]) (spawned None) = Returned st
    /\ is_terminal terminal = true
    /\ textBlockOpen st = false
    /\ pushed st
       = E_start
         :: (if bool_decide (ts = []) then []
             else E_text_start 0 :: map (E_text_delta 0) ts
                  ++ [E_text_end 0 (concat ts)])
         ++ [terminal].
Proof.
  intros pre.
  assert (Forall (line_conforms JSON.parse) pre) as H.
  { constructor; [|constructor; [|constructor]].
    - right; left. exists [lit "Hi"]. split; [vm_compute; reflexivity|].
      eexists _, _. split; [vm_compute; reflexivity|].
      split; [vm_compute; reflexivity|].
      constructor; [split; reflexivity | constructor].
    - right; right; right. eexists. split; [vm_compute; reflexivity|].
      split; reflexivity. }
  split; [reflexivity|]. split; [exact H|].
  exact (close_path_closes_text_block JSON.parse None pre (Some 0%Z) eq_refl H).
Defined.

(** C4 on the [error] path. A line opens the text block, the signal
    aborts, and the kill fails, which the child reports as an [error]
    event: the handler pushes the terminal event and leaves the block
    open; no [text_end] follows the [text_start]. *)
Lemma error_path_leaves_text_block_open :
  exists st,
    run JSON.parse
      [EvLine (dq "{'type':'assistant','message':{'content':[{'type':'text','text':'Hi'}]}}");
       EvAbort; EvError (lit "kill EPERM")]
      (spawned (Some false))
    = Returned st
    /\ pushed st = [E_start; E_text_start 0; E_text_delta 0 (lit "Hi");
                    E_error SR_error]
    /\ textBlockOpen st = true
    /\ sigterm st = 1%nat.
Proof. eexists. split; [vm_compute; reflexivity|]. repeat split. Qed.

(** ** Finalization and the line parser *)

(** C2, as amended. The [close] handler decides the terminal state in this
    order: [aborted] when the signal has aborted, whatever the exit code;
    otherwise [error] when the code is not 0 and no text was accumulated,
    the message being the captured standard error without the white space
    around it, or [Cursor CLI exited with code N] when nothing is left of
    it; otherwise the event is [done] with reason [stop] and the stop
    reason of the message stays what it was, which is [stop] for a running
    invocation. *)
Theorem on_close_terminal_state (code : option Z) (st : state) :
  let st' := on_close code st in
  let stderr := trim (concat (stderrChunks st)) in
  (signal_aborted st = true ->
     stopReason (output st') = SR_aborted
     /\ last (pushed st') = Some (E_error SR_aborted))
  /\ (signal_aborted st = false -> code <> Some 0%Z ->
      accumulatedText st = [] ->
      stopReason (output st') = SR_error
      /\ errorMessage (output st')
         = Some (if bool_decide (stderr = []) then exited_with_code code
                 else stderr)
      /\ last (pushed st') = Some (E_error SR_error))
  /\ (signal_aborted st = false ->
      code = Some 0%Z \/ accumulatedText st <> [] ->
      stopReason (output st') = stopReason (output st)
      /\ errorMessage (output st') = errorMessage (output st)
      /\ last (pushed st') = Some (E_done SR_stop)
      /\ forall ts, running st ts -> stopReason (output st') = SR_stop)
  /\ (forall n : Z,
        exited_with_code (Some n)
        = lit "Cursor CLI exited with code " ++ Z_to_jstring n).
Proof.
  intros st' stderr. subst st' stderr.
  destruct st as [[c sr em] o acc errs sa al sg ps en rs].
  unfold on_close.
  split; [|split; [|split]].
  - cbn [signal_aborted]. intros ->. destruct o; cbn;
      rewrite ?app_assoc, last_snoc; split; reflexivity.
  - cbn [signal_aborted accumulatedText]. intros -> Hc ->.
    destruct o; cbn;
      rewrite (bool_decide_eq_false_2 _ Hc); cbn;
      rewrite ?app_assoc, last_snoc; repeat split.
  - cbn [signal_aborted accumulatedText]. intros -> H.
    assert (negb (bool_decide (code = Some 0%Z)) && bool_decide (acc = [])
            = false) as E.
    { destruct H as [-> | H].
      - reflexivity.
      - rewrite (bool_decide_eq_false_2 _ H). apply andb_false_r. }
    destruct o; cbn; rewrite E; cbn; rewrite ?app_assoc, last_snoc;
      (split; [reflexivity|]); (split; [reflexivity|]);
      (split; [reflexivity|]);
      intros ts (_ & _ & _ & _ & _ & _ & Hs & _); exact Hs.
  - reflexivity.
Qed.

(** Scenario B: exit code 1, [auth required] on standard error, no text. *)
Example scenario_B :
  exists st,
    run JSON.parse [EvStderr (lit "auth required"); EvClose (Some 1%Z)]
      (spawned None)
    = Returned st
    /\ stopReason (output st) = SR_error
    /\ errorMessage (output st) = Some (lit "auth required")
    /\ pushed st = [E_start; E_error SR_error].
Proof. eexists. split; [vm_compute; reflexivity|]. repeat split. Qed.

(** C2 as stated fails: the message is not the captured standard error
    when white space surrounds it, which a line break at its end does; and
    standard error that is only a line break is not empty, yet the message
    is the one with the exit code. *)
Lemma stderr_message_is_trimmed :
  let st1 := on_stderr (lit "auth required" ++ [10]) (spawned None) in
  let st2 := on_stderr [10] (spawned None) in
  concat (stderrChunks st1) = lit "auth required" ++ [10]
  /\ errorMessage (output (on_close (Some 1%Z) st1))
     = Some (lit "auth required")
  /\ errorMessage (output (on_close (Some 1%Z) st1))
     <> Some (concat (stderrChunks st1))
  /\ concat (stderrChunks st2) <> []
  /\ errorMessage (output (on_close (Some 1%Z) st2))
     = Some (lit "Cursor CLI exited with code 1").
Proof.
  split; [reflexivity|]. split; [vm_compute; reflexivity|].
  split; [vm_compute; discriminate|]. split; [discriminate|].
  vm_compute. reflexivity.
Qed.

Lemma drop_while_nil {A} (p : A -> bool) (l : list A) :
  drop_while p l = [] <-> forallb p l = true.
Proof.
  induction l as [|x l IH]; simpl; [tauto|].
  destruct (p x); simpl; [exact IH | split; discriminate].
Qed.

Lemma drop_while_idem {A} (p : A -> bool) (l : list A) :
  drop_while p (drop_while p l) = drop_while p l.
Proof.
  induction l as [|x l IH]; simpl; [reflexivity|].
  destruct (p x) eqn:E; [exact IH | simpl; rewrite E; reflexivity].
Qed.

Lemma forallb_rev {A} (p : A -> bool) (l : list A) :
  forallb p (rev l) = forallb p l.
Proof.
  induction l as [|x l IH]; simpl; [reflexivity|].
  rewrite forallb_app, IH. simpl. rewrite andb_true_r, andb_comm. reflexivity.
Qed.

(** [trim] leaves nothing exactly of the lines of white space. *)
Lemma trim_nil (line : jstring) :
  trim line = [] <-> forallb is_white_space line = true.
Proof.
  unfold trim, trimEnd, trimStart. split.
  - intros H. apply (f_equal (@rev N)) in H. rewrite rev_involutive in H.
    simpl in H. apply drop_while_nil in H. rewrite forallb_rev in H.
    apply drop_while_nil in H. rewrite drop_while_idem in H.
    apply drop_while_nil, H.
  - intros H. apply drop_while_nil in H. rewrite H. reflexivity.
Qed.

(** C5, as amended. [parseLine] is a total function of the line: it gives
    [null] for a line that is empty or of white space only and for a line
    whose JSON decoding throws, and otherwise the value that [JSON.parse]
    gives for the trimmed line, which is [null] again for the text
    [null]. The same line gives the same result. *)
Theorem parseLine_cases (JSON_parse : jstring -> option value)
    (line : jstring) :
  (forallb is_white_space line = true -> parseLine JSON_parse line = VNull)
  /\ (JSON_parse (trim line) = None -> parseLine JSON_parse line = VNull)
  /\ (forall v, forallb is_white_space line = false ->
                JSON_parse (trim line) = Some v ->
                parseLine JSON_parse line = v)
  /\ (forall line', line' = line ->
                    parseLine JSON_parse line' = parseLine JSON_parse line).
Proof.
  unfold parseLine. cbv zeta. split; [|split; [|split]].
  - intros H. apply trim_nil in H. rewrite H. reflexivity.
  - intros ->. destruct (bool_decide (trim line = [])); reflexivity.
  - intros v H ->. rewrite bool_decide_eq_false_2; [reflexivity|].
    intros E. apply trim_nil in E. congruence.
  - intros line' ->. reflexivity.
Qed.

(** C5 as stated fails: the line [null] is not blank and its decoding
    succeeds, and [parseLine] gives [null], which is the result for no
    event; the line handler returns at once. *)
Lemma null_line_is_no_event :
  forallb is_white_space (lit "null") = false
  /\ JSON.parse (trim (lit "null")) = Some VNull
  /\ parseLine JSON.parse (lit "null") = VNull
  /\ parseLine JSON.parse (lit "null") = parseLine JSON.parse (lit "{oops")
  /\ (forall st, on_line JSON.parse (lit "null") st = Returned st).
Proof.
  split; [reflexivity|]. split; [vm_compute; reflexivity|].
  split; [vm_compute; reflexivity|]. split; [vm_compute; reflexivity|].
  intros st. reflexivity.
Qed.

(** ** Prompt serialisation *)

Lemma join_cons (sep x : jstring) (l : list jstring) :
  l <> [] -> join sep (x :: l) = x ++ sep ++ join sep l.
Proof. destruct l; [congruence | reflexivity]. Qed.

Lemma join_app (sep : jstring) (a b : list jstring) :
  a <> [] -> b <> [] ->
  join sep (a ++ b) = join sep a ++ sep ++ join sep b.
Proof.
  induction a as [|x a IH]; intros Ha Hb; [congruence|].
  destruct a as [|y a].
  - simpl app. rewrite join_cons by exact Hb. reflexivity.
  - change ((x :: y :: a) ++ b) with (x :: ((y :: a) ++ b)).
    rewrite join_cons by (destruct b; discriminate).
    rewrite IH by (congruence || exact Hb).
    rewrite (join_cons sep x (y :: a)) by discriminate.
    rewrite <- !app_assoc. reflexivity.
Qed.

Lemma join_section_lines (sep : jstring) (l : list jstring) :
  Forall section_line l -> l <> [] -> section_line (join sep l).
Proof.
  intros H Hl. destruct H as [|x l [rest ->] _]; [congruence|].
  destruct l; [eexists; reflexivity|].
  rewrite join_cons by discriminate. eexists. reflexivity.
Qed.

Lemma join_section_nil (sep : jstring) (l : list jstring) :
  Forall section_line l -> join sep l = [] -> l = [].
Proof.
  intros H E. destruct l; [reflexivity|].
  destruct (join_section_lines sep _ H) as [rest Hr]; [discriminate|].
  congruence.
Qed.

Lemma push_message_app (lines : list jstring) (msg : Message) :
  push_message lines msg = lines ++ push_message [] msg.
Proof.
  destruct msg as [c|blocks|toolName blocks]; cbn [push_message].
  - reflexivity.
  - destruct (bool_decide _); [rewrite app_nil_r|]; reflexivity.
  - destruct (bool_decide _); [rewrite app_nil_r|]; reflexivity.
Qed.

Lemma fold_push_message (ms : list Message) (lines : list jstring) :
  fold_left push_message ms lines
  = lines ++ fold_left push_message ms [].
Proof.
  revert lines. induction ms as [|m ms IH]; intros lines; simpl.
  - rewrite app_nil_r. reflexivity.
  - rewrite IH. rewrite (IH (push_message [] m)).
    rewrite (push_message_app lines). rewrite app_assoc. reflexivity.
Qed.

Lemma fold_push_message_app (ms1 ms2 : list Message) (lines : list jstring) :
  fold_left push_message (ms1 ++ ms2) lines
  = fold_left push_message ms1 lines ++ fold_left push_message ms2 [].
Proof. rewrite fold_left_app. apply fold_push_message. Qed.

Lemma push_message_section (msg : Message) :
  Forall section_line (push_message [] msg).
Proof.
  destruct msg as [c|blocks|toolName blocks]; cbn [push_message].
  - constructor; [eexists; reflexivity | constructor].
  - destruct (bool_decide _); [constructor|].
    constructor; [eexists; reflexivity | constructor].
  - destruct (bool_decide _); [constructor|].
    constructor; [eexists; reflexivity | constructor].
Qed.

Lemma fold_push_message_section (ms : list Message) (lines : list jstring) :
  Forall section_line lines ->
  Forall section_line (fold_left push_message ms lines).
Proof.
  revert lines. induction ms as [|m ms IH]; intros lines H; simpl; [exact H|].
  apply IH. rewrite push_message_app. apply Forall_app. split; [exact H|].
  apply push_message_section.
Qed.

Lemma system_lines_section (sp : option jstring) :
  Forall section_line (system_lines sp).
Proof.
  destruct sp as [p|]; simpl; [|constructor].
  destruct (bool_decide _); [constructor|].
  constructor; [eexists; reflexivity | constructor].
Qed.

Lemma serializeContext_lines (sp : option jstring) (ms : list Message) :
  serializeContext {| systemPrompt := sp; messages := ms |}
  = join [10; 10] (system_lines sp ++ fold_left push_message ms []).
Proof.
  unfold serializeContext. cbn [systemPrompt messages].
  rewrite fold_push_message. reflexivity.
Qed.

Lemma serializeContext_nil (sp : option jstring) (ms : list Message) :
  serializeContext {| systemPrompt := sp; messages := ms |} = []
  <-> system_lines sp ++ fold_left push_message ms [] = [].
Proof.
  rewrite serializeContext_lines. split.
  - apply join_section_nil. apply Forall_app. split.
    + apply system_lines_section.
    + apply fold_push_message_section. constructor.
  - intros ->. reflexivity.
Qed.
(** X2. Serialising the messages [ms1 ++ ms2] gives the prompt of [ms1]
    (with the system prompt) and the prompt of [ms2] (without it), set
    apart by an empty line; a part that is empty leaves no trace. *)
Theorem serializeContext_app (sp : option jstring) (ms1 ms2 : list Message) :
  serializeContext {| systemPrompt := sp; messages := ms1 ++ ms2 |}
  = let a := serializeContext {| systemPrompt := sp; messages := ms1 |} in
    let b := serializeContext {| systemPrompt := None; messages := ms2 |} in
    if bool_decide (a = []) then b
    else if bool_decide (b = []) then a
    else a ++ [10; 10] ++ b.
Proof.
  cbv zeta.
  pose proof (serializeContext_nil sp ms1) as Ha.
  pose proof (serializeContext_nil None ms2) as Hb.
  rewrite !serializeContext_lines in *.
  rewrite fold_push_message_app, app_assoc. cbn [system_lines app] in *.
  destruct (decide (join [10; 10] (system_lines sp
                                     ++ fold_left push_message ms1 []) = []))
    as [E1|E1].
  - rewrite bool_decide_eq_true_2 by exact E1.
    apply Ha in E1 as ->. reflexivity.
  - rewrite bool_decide_eq_false_2 by exact E1.
    destruct (decide (join [10; 10] (fold_left push_message ms2 []) = []))
      as [E2|E2].
    + rewrite bool_decide_eq_true_2 by exact E2.
      apply Hb in E2 as ->. rewrite !app_nil_r. reflexivity.
    + rewrite bool_decide_eq_false_2 by exact E2.
      apply join_app.
      * intros E. apply E1. rewrite E. reflexivity.
      * intros E. apply E2. rewrite E. reflexivity.
Qed.

Lemma serializeContext_middle (sp : option jstring) (ms1 ms2 : list Message)
    (m : Message) :
  serializeContext {| systemPrompt := sp; messages := ms1 ++ m :: ms2 |}
  = join [10; 10]
      ((system_lines sp ++ fold_left push_message ms1 [])
       ++ push_message [] m ++ fold_left push_message ms2 []).
Proof.
  rewrite serializeContext_lines, fold_push_message_app. simpl fold_left.
  rewrite (fold_push_message ms2). rewrite <- !app_assoc. reflexivity.
Qed.

Lemma assistant_texts_map (ts : list jstring) :
  assistant_texts (map AssistantText ts) = ts.
Proof. induction ts as [|t ts IH]; [reflexivity|]. cbn. f_equal. exact IH. Qed.

(** X3. Of an assistant message of the history only the text blocks reach
    the prompt: blocks of another type (thinking, tool calls) change
    nothing, and a message whose text is blank leaves no section at all. *)
Theorem assistant_history_text_only (sp : option jstring)
    (ms1 ms2 : list Message) (blocks : list assistant_block) :
  serializeContext
    {| systemPrompt := sp; messages := ms1 ++ Msg_assistant blocks :: ms2 |}
  = serializeContext
      {| systemPrompt := sp;
         messages := ms1 ++ Msg_assistant
                              (map AssistantText (assistant_texts blocks))
                            :: ms2 |}
  /\ (trim (join [10] (assistant_texts blocks)) = [] ->
      serializeContext
        {| systemPrompt := sp;
           messages := ms1 ++ Msg_assistant blocks :: ms2 |}
      = serializeContext {| systemPrompt := sp; messages := ms1 ++ ms2 |}).
Proof.
  split.
  - rewrite !serializeContext_middle. cbn [push_message].
    rewrite assistant_texts_map. reflexivity.
  - intros Hb. rewrite serializeContext_middle. cbn [push_message].
    rewrite bool_decide_eq_true_2 by exact Hb.
    rewrite serializeContext_lines, fold_push_message_app.
    rewrite <- !app_assoc. reflexivity.
Qed.

Lemma join_merge (sep x y : jstring) (l1 l3 : list jstring) :
  join sep (l1 ++ [x ++ sep ++ y] ++ l3) = join sep (l1 ++ [x; y] ++ l3).
Proof.
  induction l1 as [|a l1 IH].
  - simpl app. destruct l3 as [|z l3]; [reflexivity|].
    rewrite !join_cons by discriminate. rewrite <- !app_assoc. reflexivity.
  - simpl app in *. rewrite !join_cons by (destruct l1; discriminate).
    rewrite IH. reflexivity.
Qed.

Lemma push_message_single_text (lines : list jstring) (t : jstring) :
  trim t <> [] ->
  push_message lines (Msg_assistant [AssistantText t])
  = lines ++ [lit "[Assistant]" ++ [10] ++ t].
Proof.
  intros Ht. unfold push_message.
  change (join [10] (assistant_texts [AssistantText t])) with t.
  rewrite bool_decide_eq_false_2 by exact Ht. reflexivity.
Qed.

(** X4. The role markers are not escaped: a user message whose text holds
    an empty line and then [[Assistant]] gives the prompt of a user message
    followed by an assistant message. *)
Theorem role_markers_not_escaped (sp : option jstring)
    (ms1 ms2 : list Message) (t1 t2 : jstring) :
  trim t2 <> [] ->
  serializeContext
    {| systemPrompt := sp;
       messages := ms1 ++ Msg_user
                            (ContentString
                               (t1 ++ [10; 10] ++ lit "[Assistant]" ++ [10]
                                ++ t2))
                       :: ms2 |}
  = serializeContext
      {| systemPrompt := sp;
         messages := ms1 ++ Msg_user (ContentString t1)
                         :: Msg_assistant [AssistantText t2] :: ms2 |}.
Proof.
  intros Ht.
  transitivity
    (join [10; 10]
       ((system_lines sp ++ fold_left push_message ms1 [])
        ++ [(lit "[User]" ++ [10] ++ t1) ++ [10; 10]
            ++ (lit "[Assistant]" ++ [10] ++ t2)]
        ++ fold_left push_message ms2 [])).
  { rewrite serializeContext_middle. reflexivity. }
  rewrite join_merge.
  rewrite (serializeContext_middle sp ms1 (Msg_assistant [AssistantText t2]
                                           :: ms2)).
  f_equal. f_equal.
  change (fold_left push_message (Msg_assistant [AssistantText t2] :: ms2) [])
    with (fold_left push_message ms2
            (push_message [] (Msg_assistant [AssistantText t2]))).
  rewrite (push_message_single_text [] t2 Ht).
  rewrite (fold_push_message ms2 ([] ++ _)). reflexivity.
Qed.

Lemma role_markers_not_escaped_witness :
  trim (lit "Done.") <> []
  /\ serializeContext
       {| systemPrompt := None;
          messages := [Msg_user
                         (ContentString
                            (lit "Hi" ++ [10; 10] ++ lit "[Assistant]" ++ [10]
                             ++ lit "Done."))] |}
     = serializeContext
         {| systemPrompt := None;
            messages := [Msg_user (ContentString (lit "Hi"));
                         Msg_assistant [AssistantText (lit "Done.")]] |}.
Proof.
  split; [vm_compute; discriminate|].
  apply (role_markers_not_escaped None [] [] (lit "Hi") (lit "Done.")).
  vm_compute. discriminate.
Defined.

(** X5. The prompt is empty or starts with the bracket of a role marker,
    so it never reads as an option of the command line; it is not empty
    when there is a user message or a system prompt that is not empty. *)
Theorem prompt_starts_with_bracket (context : Context) :
  (serializeContext context = []
   \/ exists rest, serializeContext context = lit "[" ++ rest)
  /\ ((exists c, Msg_user c ∈ messages context) ->
      serializeContext context <> [])
  /\ (forall p, systemPrompt context = Some p -> p <> [] ->
                serializeContext context <> []).
Proof.
  destruct context as [sp ms].
  assert (Forall section_line (system_lines sp ++ fold_left push_message ms []))
    as Hsec.
  { apply Forall_app. split; [apply system_lines_section|].
    apply fold_push_message_section. constructor. }
  split; [|split].
  - rewrite serializeContext_lines.
    destruct (system_lines sp ++ fold_left push_message ms []) eqn:E;
      [left; reflexivity|].
    right. apply (join_section_lines [10; 10]) in Hsec; [|discriminate].
    exact Hsec.
  - cbn [messages]. intros [c Hc] E. apply serializeContext_nil in E.
    apply app_eq_nil in E as [_ E].
    apply list_elem_of_split in Hc as (l1 & l2 & ->).
    rewrite fold_push_message_app in E.
    apply app_eq_nil in E as [_ E].
    change (fold_left push_message (Msg_user c :: l2) [])
      with (fold_left push_message l2 (push_message [] (Msg_user c))) in E.
    rewrite fold_push_message in E.
    apply app_eq_nil in E as [E _]. discriminate E.
  - cbn [systemPrompt]. intros p -> Hp E. apply serializeContext_nil in E.
    cbn [system_lines] in E. rewrite bool_decide_eq_false_2 in E by exact Hp.
    discriminate E.
Qed.

(** X6. An image block becomes a placeholder with its MIME type and a size
    estimate, and nothing of its data: for padded base64 text of [n] bytes
    the estimate is between [n] and [n + 2]. *)
Theorem image_placeholder_size (data mimeType : jstring) (n : Z) :
  (0 <= n)%Z -> Z.of_nat (length data) = base64_length n ->
  exists bytes,
    (n <= bytes <= n + 2)%Z
    /\ contentBlockToText (InImage data mimeType)
       = lit "[Image: " ++ mimeType ++ lit ", ~" ++ Z_to_jstring bytes
         ++ lit " bytes " ++ [8212]
         ++ lit " note: image input is not supported by the Cursor Agent CLI; the visual content cannot be passed through]".
Proof.
  intros Hn Hlen.
  exists (Math_round_quarters (Z.of_nat (length data) * 3)).
  split; [|reflexivity].
  rewrite Hlen. unfold Math_round_quarters, base64_length.
  Z.to_euclidean_division_equations. lia.
Qed.

Lemma image_placeholder_size_witness :
  (0 <= 5)%Z
  /\ Z.of_nat (length (lit "aGVsbG8=")) = base64_length 5
  /\ exists bytes,
       (5 <= bytes <= 5 + 2)%Z
       /\ contentBlockToText (InImage (lit "aGVsbG8=") (lit "image/png"))
          = lit "[Image: " ++ lit "image/png" ++ lit ", ~" ++ Z_to_jstring bytes
            ++ lit " bytes " ++ [8212]
            ++ lit " note: image input is not supported by the Cursor Agent CLI; the visual content cannot be passed through]".
Proof.
  split; [lia|]. split; [reflexivity|].
  apply (image_placeholder_size (lit "aGVsbG8=") (lit "image/png") 5);
    [lia | reflexivity].
Defined.

(** ** The command line and the entry point *)

(** X7. The agent is spawned with the prompt as one argument, the last,
    after options that do not depend on the context. A key in
    [CURSOR_API_KEY] that is not empty goes in front as [--api-key] and the
    key, for the stream and for the discovery alike; a key that is empty or
    not set adds nothing. *)
Theorem command_line_shape (env : Env) (model_id workspacePath : jstring) :
  exists key_args,
    (forall context,
       stream_args env model_id workspacePath context
       = key_args
         ++ [lit "--print"; lit "--output-format"; lit "stream-json";
             lit "--model"; model_id; lit "--trust";
             lit "--workspace"; workspacePath]
         ++ [serializeContext context])
    /\ discovery_args env = key_args ++ [lit "models"]
    /\ ((exists key, env !! lit "CURSOR_API_KEY" = Some key /\ key <> []
                     /\ key_args = [lit "--api-key"; key])
        \/ ((env !! lit "CURSOR_API_KEY" = None
             \/ env !! lit "CURSOR_API_KEY" = Some [])
            /\ key_args = [])).
Proof.
  unfold stream_args, discovery_args, unshift_api_key.
  destruct (env !! lit "CURSOR_API_KEY") as [key|] eqn:E.
  - case_bool_decide as Hk.
    + exists []. subst key. split; [reflexivity|]. split; [reflexivity|].
      right. split; [right; reflexivity | reflexivity].
    + exists [lit "--api-key"; key]. split; [reflexivity|].
      split; [reflexivity|]. left. exists key. repeat split; assumption.
  - exists []. split; [reflexivity|]. split; [reflexivity|].
    right. split; [left; reflexivity | reflexivity].
Qed.

Lemma toProviderModels_ids (defs : list CursorModelDef) :
  Provider.id <$> toProviderModels defs = id <$> defs.
Proof.
  induction defs as [|d defs IH]; [reflexivity|]. cbn. f_equal. exact IH.
Qed.

Lemma discovery_step_inv (s : discovery) (e : child_event) :
  discovery_inv s -> discovery_inv (discovery_step s e).
Proof.
  intros Hinv.
  assert (d_promise s = Pending -> d_sigterm s = 0%nat) as H0.
  { intros E. unfold discovery_inv in Hinv. rewrite E in Hinv. apply Hinv. }
  assert (forall p,
            (d_promise s = Pending ->
             match p with
             | Pending => False
             | Rejected TimedOut => d_sigterm s = 1%nat
             | Rejected (ErrorEvent _) => (d_sigterm s <= 1)%nat
             | Rejected _ => d_sigterm s = 0%nat
             | Resolved models => d_sigterm s = 0%nat /\ models <> []
             end) ->
            discovery_inv (settle p (clearTimeout s))) as Hset.
  { intros p Hp. unfold discovery_inv, settle, clearTimeout in *.
    cbn [d_promise d_timer d_sigterm] in *.
    destruct (d_promise s) as [|ms|why] eqn:E;
      cbn [d_promise d_timer d_sigterm]; rewrite ?E.
    - specialize (Hp eq_refl).
      destruct p as [|ms|[|err|code txt|]];
        [destruct Hp | split; (reflexivity || assumption) ..].
    - split; [reflexivity | apply Hinv].
    - destruct why; (split; [reflexivity | apply Hinv]). }
  destruct e as [c|c|kill|msg|code]; cbn [discovery_step].
  - exact Hinv.
  - exact Hinv.
  - destruct (d_timer s) eqn:Et; [|exact Hinv].
    assert (d_promise s = Pending /\ d_sigterm s = 0%nat) as [Ep Es].
    { unfold discovery_inv in Hinv.
      destruct (d_promise s) as [|ms|[|err|code txt|]];
        [split; [reflexivity | apply Hinv] | ..];
        destruct Hinv as [Hf _]; congruence. }
    cbv zeta. unfold discovery_inv, discovery_on_error, settle, clearTimeout.
    destruct kill as [|err]; cbn [d_promise d_timer d_sigterm]; rewrite Ep;
      cbn [d_promise d_timer d_sigterm]; rewrite Es.
    + split; reflexivity.
    + split; [reflexivity | lia].
  - unfold discovery_on_error. apply Hset. intros E. rewrite (H0 E). lia.
  - cbv zeta. cbn [clearTimeout d_stdout d_stderr].
    destruct (negb (bool_decide (code = Some 0%Z))).
    { apply (Hset (Rejected (ExitedWithCode _ _))). exact H0. }
    case_bool_decide as Hl.
    { apply (Hset (Rejected NoModels)). exact H0. }
    apply (Hset (Resolved _)). intros E. split; [exact (H0 E)|].
    intros E'. apply Hl. exact (f_equal length E').
Qed.

Lemma discovery_invariant (events : list child_event) :
  discovery_inv (runAgentModels events).
Proof.
  unfold runAgentModels.
  assert (discovery_inv discovery_init) as H0 by (split; reflexivity).
  revert H0. generalize discovery_init.
  induction events as [|e events IH]; intros s Hs; [exact Hs|].
  simpl. apply IH. apply discovery_step_inv. exact Hs.
Qed.

Lemma settle_settled (p : promise_state) (s : discovery) :
  p <> Pending -> d_promise (settle p s) <> Pending.
Proof.
  intros Hp. unfold settle. destruct (d_promise s) eqn:E; cbn; congruence.
Qed.

Lemma discovery_step_settled (s : discovery) (e : child_event) :
  d_promise s <> Pending -> d_promise (discovery_step s e) <> Pending.
Proof.
  intros Hs.
  assert (forall p u, d_promise u <> Pending ->
            d_promise (settle p u) <> Pending) as Hk.
  { intros p u Hu. unfold settle.
    destruct (d_promise u) eqn:E; cbn; congruence. }
  destruct e as [c|c|kill|msg|code]; cbn [discovery_step]; try exact Hs.
  - destruct (d_timer s); [|exact Hs]. cbv zeta. apply Hk.
    destruct kill as [|err]; [exact Hs|].
    unfold discovery_on_error. apply Hk. exact Hs.
  - unfold discovery_on_error. apply Hk. exact Hs.
  - cbv zeta. destruct (negb _); [apply Hk; exact Hs|].
    case_bool_decide; apply Hk; exact Hs.
Qed.

Lemma discovery_exit_settles (events : list child_event) (e : child_event) :
  e ∈ events -> is_data e = false ->
  d_promise (runAgentModels events) <> Pending.
Proof.
  intros Hin He.
  apply list_elem_of_split in Hin as (l1 & l2 & ->).
  unfold runAgentModels. rewrite fold_left_app. simpl fold_left.
  pose proof (discovery_invariant l1) as Hinv. unfold runAgentModels in Hinv.
  set (s := fold_left discovery_step l1 discovery_init) in *.
  assert (d_promise (discovery_step s e) <> Pending) as H1.
  { destruct (d_promise s) eqn:Hp;
      [|apply discovery_step_settled; congruence ..].
    unfold discovery_inv in Hinv. rewrite Hp in Hinv. destruct Hinv as [Ht _].
    destruct e as [c|c|kill|msg|code]; try discriminate He;
      cbn [discovery_step].
    - rewrite Ht. apply settle_settled. discriminate.
    - unfold discovery_on_error. apply settle_settled. discriminate.
    - cbv zeta. destruct (negb _); [apply settle_settled; discriminate|].
      case_bool_decide; apply settle_settled; discriminate. }
  revert H1. generalize (discovery_step s e). clear.
  induction l2 as [|x l2 IH]; intros t Ht; [exact Ht|].
  simpl. apply IH. apply discovery_step_settled. exact Ht.
Qed.

(** X8. Once the discovery has settled, the entry point registers the
    provider with a list of models that is never empty: the models of the
    listing when the child closed with code 0 and the listing gave at least
    one, the static list in every other case. A registered model keeps the
    identifier and takes text only. *)
Theorem extension_registers_models :
  (forall r reg,
     extension r = Some reg ->
     Provider.models (provider reg) <> []
     /\ exists defs,
          modelDefs r = Some defs
          /\ Provider.id <$> Provider.models (provider reg) = id <$> defs
          /\ Forall (fun m => Provider.input m = [lit "text"])
               (Provider.models (provider reg)))
  /\ (forall message, modelDefs (SpawnThrew message) = Some STATIC_MODELS)
  /\ (forall events e,
        e ∈ events -> is_data e = false ->
        is_Some (extension (ChildEvents events)))
  /\ (forall pre e post,
        forallb is_data pre = true -> is_data e = false ->
        modelDefs (ChildEvents (pre ++ e :: post))
        = Some (match e with
                | ChildClose (Some 0%Z) =>
                    if bool_decide
                         (parseAgentModelsOutput (stdout_text pre) = [])
                    then STATIC_MODELS
                    else parseAgentModelsOutput (stdout_text pre)
                | _ => STATIC_MODELS
                end)).
Proof.
  split; [|split; [|split]].
  - intros r reg. unfold extension.
    destruct (modelDefs r) as [defs|] eqn:E; [|discriminate].
    intros [= <-]. cbn [provider Provider.models]. split.
    + assert (defs <> []) as Hd.
      { destruct r as [m|events]; cbn in E.
        - injection E as <-. discriminate.
        - pose proof (discovery_invariant events) as Hinv.
          unfold discovery_inv in Hinv.
          destruct (d_promise (runAgentModels events)) as [|ms|why];
            [discriminate| |].
          + injection E as <-. apply Hinv.
          + injection E as <-. discriminate. }
      destruct defs; [congruence | discriminate].
    + exists defs. split; [reflexivity|]. split; [apply toProviderModels_ids|].
      unfold toProviderModels. apply Forall_map. apply Forall_true.
      intros m. reflexivity.
  - reflexivity.
  - intros events e Hin He. unfold extension, modelDefs.
    pose proof (discovery_exit_settles events e Hin He) as Hs.
    destruct (d_promise (runAgentModels events)); [congruence| |];
      eexists; reflexivity.
  - intros pre e post Hpre He. unfold modelDefs.
    destruct (discovery_first pre post e Hpre He) as [-> _].
    destruct e as [c|c|kill|msg|code]; try discriminate He;
      try reflexivity; [destruct kill; reflexivity|].
    destruct code as [[|z|z]|]; try reflexivity.
    rewrite bool_decide_eq_true_2 by reflexivity.
    case_bool_decide; reflexivity.
Qed.

(** X9. The discovery sends the child the termination signal at most
    once, and exactly when the timer fires before the child has closed or
    failed. The promise is then rejected: with the timeout, or, when the
    signal cannot be sent, with the error of the kill, which the [error]
    handler reports before the timeout does. Once the promise is settled,
    no later event (a late timer, a [close] after an [error]) changes it
    or signals the child. *)
Theorem discovery_signals_on_timeout_only :
  (forall events,
     let s := runAgentModels events in
     (d_sigterm s <= 1)%nat
     /\ (d_promise s = Rejected TimedOut -> d_sigterm s = 1%nat)
     /\ (d_sigterm s = 1%nat ->
         d_promise s = Rejected TimedOut
         \/ exists err, d_promise s = Rejected (ErrorEvent err))
     /\ (d_promise s <> Pending ->
         forall more,
           d_promise (runAgentModels (events ++ more)) = d_promise s
           /\ d_sigterm (runAgentModels (events ++ more)) = d_sigterm s))
  /\ (forall pre e post,
        forallb is_data pre = true -> is_data e = false ->
        let s := runAgentModels (pre ++ e :: post) in
        match e with
        | TimerFired Kill_returns =>
            d_sigterm s = 1%nat /\ d_promise s = Rejected TimedOut
        | TimerFired (Kill_fails err) =>
            d_sigterm s = 1%nat /\ d_promise s = Rejected (ErrorEvent err)
        | _ => d_sigterm s = 0%nat
        end).
Proof.
  split.
  - intros events s. pose proof (discovery_invariant events) as Hinv.
    fold s in Hinv. unfold discovery_inv in Hinv.
    split; [|split; [|split]].
    + destruct (d_promise s) as [|ms|[|err|code txt|]]; intuition lia.
    + intros E. rewrite E in Hinv. apply Hinv.
    + intros E.
      destruct (d_promise s) as [|ms|[|err|code txt|]];
        [| |left; reflexivity|right; eexists; reflexivity| |];
        exfalso; intuition lia.
    + intros Hp more. unfold runAgentModels. rewrite fold_left_app.
      apply discovery_settled; [exact Hp|].
      destruct (d_promise s) as [|ms|why]; [congruence|apply Hinv|].
      destruct why; apply Hinv.
  - intros pre e post Hpre He s.
    destruct (discovery_first pre post e Hpre He) as [Hp Hk].
    fold s in Hp, Hk.
    destruct e as [c|c|[|err]|msg|code]; try discriminate He;
      first [split; assumption | exact Hk].
Qed.

(** ** The authentication commands *)

Lemma status_data (events : list child_event) (s : status_run) :
  forallb is_data events = true ->
  fold_left status_step events s
  = {| s_out := s_out s ++ output_text events; s_promise := s_promise s |}.
Proof.
  revert s. induction events as [|e events IH]; intros s H.
  - simpl. rewrite app_nil_r. destruct s; reflexivity.
  - simpl in H. apply andb_true_iff in H as [He H].
    destruct e; try discriminate He; simpl; rewrite (IH _ H); cbn;
      rewrite <- app_assoc; reflexivity.
Qed.

Lemma status_settled (events : list child_event) (s : status_run) :
  s_promise s <> Unsettled ->
  s_promise (fold_left status_step events s) = s_promise s.
Proof.
  revert s. induction events as [|e events IH]; intros s H; [reflexivity|].
  simpl. rewrite IH.
  - destruct e; cbn; try reflexivity; destruct (s_promise s);
      (reflexivity || congruence).
  - destruct e; cbn; try exact H; destruct (s_promise s);
      (discriminate || congruence).
Qed.

(** X10. [cursor-status] merges what the child wrote on both streams, in
    the order of arrival, and reports it trimmed at the level [info]
    whatever the exit code is; blank output gives the fallback text, and
    only an [error] event before [close] gives a failure. No notification
    has an empty text. *)
Theorem cursor_status_reports :
  (forall pre code post,
     forallb is_data pre = true ->
     cursor_status (ChildEvents (pre ++ ChildClose code :: post))
     = [(if bool_decide (trim (output_text pre) = [])
         then lit "No output from `agent status`."
         else trim (output_text pre), Level_info)])
  /\ (forall pre err post,
        forallb is_data pre = true ->
        cursor_status (ChildEvents (pre ++ ChildError err :: post))
        = [(lit "Could not get Cursor status: " ++ err, Level_error)])
  /\ (forall r, Forall (fun n => fst n <> []) (cursor_status r)).
Proof.
  split; [|split].
  - intros pre code post Hpre. unfold cursor_status, runAgentStatus.
    rewrite fold_left_app. simpl fold_left. rewrite status_settled.
    + rewrite (status_data pre _ Hpre). reflexivity.
    + rewrite (status_data pre _ Hpre). discriminate.
  - intros pre err post Hpre. unfold cursor_status, runAgentStatus.
    rewrite fold_left_app. simpl fold_left. rewrite status_settled.
    + rewrite (status_data pre _ Hpre). reflexivity.
    + rewrite (status_data pre _ Hpre). discriminate.
  - intros r. unfold cursor_status.
    destruct (runAgentStatus r) as [|status|msg]; constructor;
      try constructor; cbn [fst].
    + case_bool_decide as Hs; [discriminate | exact Hs].
    + discriminate.
Qed.

Lemma exit_fold_ignored (what : jstring) (events : list child_event)
    (p : settled_as unit) :
  forallb (fun e => negb (is_exit e)) events = true ->
  fold_left (exit_step what) events p = p.
Proof.
  revert p. induction events as [|e events IH]; intros p H; [reflexivity|].
  simpl in H. apply andb_true_iff in H as [He H].
  simpl. rewrite (IH _ H). destruct e; (discriminate He || reflexivity).
Qed.

Lemma exit_fold_settled (what : jstring) (events : list child_event)
    (p : settled_as unit) :
  p <> Unsettled -> fold_left (exit_step what) events p = p.
Proof.
  revert p. induction events as [|e events IH]; intros p H; [reflexivity|].
  simpl.
  assert (exit_step what p e = p) as ->.
  { destruct e as [c|c|kill|err|code]; cbn; try reflexivity.
    - destruct p; (reflexivity || congruence).
    - destruct (bool_decide _); destruct p; (reflexivity || congruence). }
  apply IH. exact H.
Qed.

Lemma exit_fold_first (what : jstring) (pre post : list child_event)
    (e : child_event) :
  forallb (fun e => negb (is_exit e)) pre = true -> is_exit e = true ->
  fold_left (exit_step what) (pre ++ e :: post) Unsettled
  = exit_result what e.
Proof.
  intros Hpre He. rewrite fold_left_app. simpl fold_left.
  rewrite (exit_fold_ignored what pre _ Hpre).
  assert (exit_step what Unsettled e = exit_result what e) as ->.
  { destruct e as [c|c|kill|err|code]; try discriminate He; cbn;
      [reflexivity | destruct (bool_decide _); reflexivity]. }
  apply exit_fold_settled.
  destruct e as [c|c|kill|err|code]; try discriminate He; cbn;
    [discriminate | destruct (bool_decide _); discriminate].
Qed.

(** X11. [cursor-login] announces the login and then reports once, by the
    first [error] or [close] event of the child: success for exit code 0,
    otherwise a failure with the code or with the message of the error.
    Later events change nothing: after an [error], a [close] is not
    reported. *)
Theorem cursor_login_reports (pre post : list child_event)
    (e : child_event) :
  forallb (fun e => negb (is_exit e)) pre = true -> is_exit e = true ->
  exists announce,
    cursor_login (ChildEvents pre) = [announce]
    /\ cursor_login (ChildEvents (pre ++ e :: post))
       = [announce;
          match e with
          | ChildClose (Some 0%Z) =>
              (lit "Cursor login successful.", Level_info)
          | ChildClose code =>
              (lit "Cursor login failed: agent login exited with code "
               ++ code_text code, Level_error)
          | ChildError err =>
              (lit "Cursor login failed: " ++ err, Level_error)
          | _ => announce
          end].
Proof.
  intros Hpre He. eexists. unfold cursor_login, runAgentLogin.
  rewrite (exit_fold_ignored _ pre _ Hpre).
  rewrite (exit_fold_first _ pre post e Hpre He).
  split; [reflexivity|].
  destruct e as [c|c|kill|err|code]; try discriminate He; cbn [exit_result].
  - reflexivity.
  - destruct code as [[|z|z]|]; reflexivity.
Qed.

Lemma cursor_login_reports_witness :
  let pre : list child_event := [] in
  let e := ChildError (lit "spawn agent ENOENT") in
  let post := [ChildClose (Some (-2)%Z)] in
  forallb (fun e => negb (is_exit e)) pre = true /\ is_exit e = true
  /\ exists announce,
       cursor_login (ChildEvents pre) = [announce]
       /\ cursor_login (ChildEvents (pre ++ e :: post))
          = [announce;
             (lit "Cursor login failed: spawn agent ENOENT", Level_error)].
Proof.
  intros pre e post. split; [reflexivity|]. split; [reflexivity|].
  exact (cursor_login_reports pre post e eq_refl eq_refl).
Defined.

(** X12. [cursor-logout] reports once, by the first [error] or [close]
    event of the child: success for exit code 0, otherwise a failure with
    the code or with the message of the error; nothing is reported before,
    and later events change nothing. *)
Theorem cursor_logout_reports (pre post : list child_event)
    (e : child_event) :
  forallb (fun e => negb (is_exit e)) pre = true -> is_exit e = true ->
  cursor_logout (ChildEvents pre) = []
  /\ cursor_logout (ChildEvents (pre ++ e :: post))
     = [match e with
        | ChildClose (Some 0%Z) => (lit "Logged out of Cursor.", Level_info)
        | ChildClose code =>
            (lit "Cursor logout failed: agent logout exited with code "
             ++ code_text code, Level_error)
        | ChildError err => (lit "Cursor logout failed: " ++ err, Level_error)
        | _ => ([], Level_info)
        end].
Proof.
  intros Hpre He. unfold cursor_logout, run_agent_logout.
  rewrite (exit_fold_ignored _ pre _ Hpre).
  rewrite (exit_fold_first _ pre post e Hpre He).
  split; [reflexivity|].
  destruct e as [c|c|kill|err|code]; try discriminate He; cbn [exit_result].
  - reflexivity.
  - destruct code as [[|z|z]|]; reflexivity.
Qed.

Lemma cursor_logout_reports_witness :
  let pre : list child_event := [] in
  let e := ChildClose (Some 1%Z) in
  let post := [ChildError (lit "late")] in
  forallb (fun e => negb (is_exit e)) pre = true /\ is_exit e = true
  /\ cursor_logout (ChildEvents pre) = []
  /\ cursor_logout (ChildEvents (pre ++ e :: post))
     = [(lit "Cursor logout failed: agent logout exited with code 1",
         Level_error)].
Proof.
  intros pre e post. split; [reflexivity|]. split; [reflexivity|].
  exact (cursor_logout_reports pre post e eq_refl eq_refl).
Defined.

(** ** More of the stream translator *)

(** X13. A line that is blank, that is not JSON, or whose value is no
    [assistant] and no [tool_call] event (a [result] event, [null], a
    number, an array) changes nothing: no event is pushed and the callback
    returns. *)
Theorem other_lines_are_ignored (JSON_parse : jstring -> option value)
    (line : jstring) (st : state) :
  trim line = [] \/ JSON_parse (trim line) = None
  \/ (exists v, JSON_parse (trim line) = Some v /\ other_event v) ->
  step JSON_parse (EvLine line) st = Returned st.
Proof.
  intros H. cbn [step]. unfold on_line.
  assert (other_event (parseLine JSON_parse line)) as Ho.
  { unfold parseLine. destruct H as [H|[H|(v & H & Hv)]].
    - rewrite bool_decide_eq_true_2 by exact H. intros ty [=].
    - case_bool_decide; [intros ty [=]|]. rewrite H. intros ty [=].
    - case_bool_decide; [intros ty [=]|]. rewrite H. exact Hv. }
  revert Ho. generalize (parseLine JSON_parse line). intros event Ho.
  unfold on_event. destruct (truthy event) eqn:Et; [|reflexivity]. cbn [negb].
  destruct (get (lit "type") event) as [ty|] eqn:E.
  - destruct (Ho ty E) as [-> ->]. reflexivity.
  - destruct event; discriminate.
Qed.

Lemma other_lines_are_ignored_witness :
  let line := dq "{'type':'result','subtype':'success','duration_ms':1234}" in
  (trim line = [] \/ JSON.parse (trim line) = None
   \/ (exists v, JSON.parse (trim line) = Some v /\ other_event v))
  /\ step JSON.parse (EvLine line) (spawned None) = Returned (spawned None).
Proof.
  intros line.
  assert (trim line = [] \/ JSON.parse (trim line) = None
          \/ (exists v, JSON.parse (trim line) = Some v /\ other_event v))
    as H.
  { right. right. eexists. split; [vm_compute; reflexivity|].
    intros ty [= <-]. split; reflexivity. }
  split; [exact H|].
  exact (other_lines_are_ignored JSON.parse line (spawned None) H).
Defined.

(** X14. A [tool_call] event whose subtype is not [started] (a completed
    call, with its result) changes nothing: results of tools are not
    shown. *)
Theorem tool_call_completed_is_ignored (event sub : value)
    (props : list (jstring * value)) (st : state) :
  get (lit "type") event = Some (VString (lit "tool_call")) ->
  get (lit "tool_call") event = Some (VObject props) ->
  get (lit "subtype") event = Some sub ->
  is_string (lit "started") sub = false ->
  on_event event st = Returned st
  /\ forall JSON_parse line,
       parseLine JSON_parse line = event ->
       step JSON_parse (EvLine line) st = Returned st.
Proof.
  intros Hty Htc Hsub Hns.
  assert (on_event event st = Returned st) as H.
  { apply (on_event_tool_call_other event props st Hty Htc).
    intros sub' E. rewrite Hsub in E. injection E as <-. exact Hns. }
  split; [exact H|].
  intros JSON_parse line <-. exact H.
Qed.

Lemma tool_call_completed_is_ignored_witness :
  let line := dq "{'type':'tool_call','subtype':'completed','tool_call':{'readToolCall':{'args':{'path':'a.txt'},'result':{'success':{'content':'x'}}}}}" in
  let event := parseLine JSON.parse line in
  let st := spawned (Some false) in
  get (lit "type") event = Some (VString (lit "tool_call"))
  /\ (exists props, get (lit "tool_call") event = Some (VObject props))
  /\ get (lit "subtype") event = Some (VString (lit "completed"))
  /\ is_string (lit "started") (VString (lit "completed")) = false
  /\ on_event event st = Returned st
  /\ forall JSON_parse line,
       parseLine JSON_parse line = event ->
       step JSON_parse (EvLine line) st = Returned st.
Proof.
  intros line event st.
  assert (get (lit "type") event = Some (VString (lit "tool_call"))) as H1
    by (vm_compute; reflexivity).
  assert (get (lit "subtype") event = Some (VString (lit "completed"))) as H3
    by (vm_compute; reflexivity).
  assert (exists props, get (lit "tool_call") event = Some (VObject props))
    as [props H2] by (eexists; vm_compute; reflexivity).
  split; [exact H1|]. split; [exists props; exact H2|].
  split; [exact H3|]. split; [reflexivity|].
  exact (tool_call_completed_is_ignored event _ props st H1 H2 H3 eq_refl).
Defined.

(** X15. An [assistant] event without a [message], and a [tool_call] event
    without a [tool_call] object, make the line callback throw before
    anything is pushed; the provider does not catch what a callback throws,
    so no later event is handled. *)
Theorem malformed_event_throws (JSON_parse : jstring -> option value)
    (line : jstring) (rest : list proc_event) (st : state) (missing : value) :
  missing = VUndefined \/ missing = VNull ->
  (get (lit "type") (parseLine JSON_parse line)
   = Some (VString (lit "assistant"))
   /\ get (lit "message") (parseLine JSON_parse line) = Some missing)
  \/ (get (lit "type") (parseLine JSON_parse line)
      = Some (VString (lit "tool_call"))
      /\ get (lit "tool_call") (parseLine JSON_parse line) = Some missing) ->
  run JSON_parse (EvLine line :: rest) st = Threw st.
Proof.
  intros Hm H. cbn [run step]. unfold on_line.
  revert H. generalize (parseLine JSON_parse line). intros event H.
  assert (on_event event st = Threw st) as ->; [|reflexivity].
  unfold on_event.
  assert (truthy event = true) as ->.
  { destruct H as [[H _]|[H _]];
      apply (get_object_truthy _ _ _ H); discriminate. }
  cbn [negb].
  destruct H as [[-> Hmsg]|[-> Htc]].
  - cbn [is_string]. unfold jstring_eqb.
    rewrite bool_decide_eq_true_2 by reflexivity.
    unfold on_assistant. rewrite Hmsg.
    destruct Hm as [-> | ->]; reflexivity.
  - cbn [is_string]. unfold jstring_eqb.
    rewrite bool_decide_eq_false_2 by discriminate.
    rewrite bool_decide_eq_true_2 by reflexivity.
    unfold on_tool_call. rewrite Htc.
    destruct Hm as [-> | ->]; reflexivity.
Qed.

Lemma malformed_event_throws_witness :
  let line := dq "{'type':'assistant'}" in
  let rest := [EvClose (Some 0%Z)] in
  (VUndefined = VUndefined \/ VUndefined = VNull)
  /\ ((get (lit "type") (parseLine JSON.parse line)
       = Some (VString (lit "assistant"))
       /\ get (lit "message") (parseLine JSON.parse line) = Some VUndefined)
      \/ (get (lit "type") (parseLine JSON.parse line)
          = Some (VString (lit "tool_call"))
          /\ get (lit "tool_call") (parseLine JSON.parse line)
             = Some VUndefined))
  /\ run JSON.parse (EvLine line :: rest) (spawned None)
     = Threw (spawned None).
Proof.
  intros line rest.
  assert ((get (lit "type") (parseLine JSON.parse line)
           = Some (VString (lit "assistant"))
           /\ get (lit "message") (parseLine JSON.parse line)
              = Some VUndefined)
          \/ (get (lit "type") (parseLine JSON.parse line)
              = Some (VString (lit "tool_call"))
              /\ get (lit "tool_call") (parseLine JSON.parse line)
                 = Some VUndefined)) as H.
  { left. split; vm_compute; reflexivity. }
  split; [left; reflexivity|]. split; [exact H|].
  exact (malformed_event_throws JSON.parse line rest (spawned None)
           VUndefined (or_introl eq_refl) H).
Defined.

(** ** The signal and the message of an invocation *)

Lemma same_signal_refl (st : state) : same_signal st st.
Proof. repeat split. Qed.

Lemma same_signal_trans (a b c : state) :
  same_signal a b -> same_signal b c -> same_signal a c.
Proof.
  intros (H1 & H2 & H3) (H4 & H5 & H6).
  repeat split; etransitivity; eassumption.
Qed.

Lemma emit_text_same_signal (t : jstring) (st : state) :
  same_signal st (final (emit_text t st)).
Proof.
  unfold emit_text. destruct (negb (textBlockOpen st)); cbv zeta;
    match goal with
    | |- context [match ?x with Some _ => _ | None => _ end] => destruct x
    end; repeat split.
Qed.

Lemma for_of_same_signal (body : value -> state -> outcome)
    (items : list value) (st : state) :
  (forall x s, same_signal s (final (body x s))) ->
  same_signal st (final (for_of body items st)).
Proof.
  intros Hb. revert st. induction items as [|x items IH]; intros st.
  - apply same_signal_refl.
  - simpl. pose proof (Hb x st) as H. destruct (body x st) as [st'|st'].
    + eapply same_signal_trans; [exact H | apply IH].
    + exact H.
Qed.

Lemma on_event_same_signal (event : value) (st : state) :
  same_signal st (final (on_event event st)).
Proof.
  unfold on_event.
  destruct (negb (truthy event)); [apply same_signal_refl|].
  destruct (get (lit "type") event) as [ty|]; [|apply same_signal_refl].
  destruct (is_string (lit "assistant") ty).
  - unfold on_assistant.
    destruct (get (lit "message") event) as [m|]; [|apply same_signal_refl].
    destruct (get (lit "content") m) as [c|]; [|apply same_signal_refl].
    destruct (iterate c) as [blocks|]; [|apply same_signal_refl].
    apply for_of_same_signal. intros x s. unfold on_block.
    destruct (get (lit "type") x) as [tx|]; [|apply same_signal_refl].
    destruct (negb _); [apply same_signal_refl|].
    destruct (get (lit "text") x) as [[| | | |t| |]|];
      try apply same_signal_refl.
    destruct (bool_decide _); [apply same_signal_refl|].
    apply emit_text_same_signal.
  - destruct (is_string (lit "tool_call") ty); [|apply same_signal_refl].
    unfold on_tool_call.
    destruct (get (lit "tool_call") event) as [tc|]; [|apply same_signal_refl].
    destruct (first_key tc) as [[k|]|]; try apply same_signal_refl.
    destruct (bool_decide _); [apply same_signal_refl|]. cbv zeta.
    destruct (get (lit "subtype") event) as [sub|]; [|apply same_signal_refl].
    destruct (is_string _ sub); [|apply same_signal_refl].
    destruct (get (lit "args") _) as [args|]; [|apply same_signal_refl].
    destruct (JSON_stringify _) as [snippet|]; [|apply same_signal_refl].
    apply emit_text_same_signal.
Qed.

Section Signal.
Variable JSON_parse : jstring -> option value.

Lemma run_inv (P : state -> Prop) (Q : proc_event -> Prop)
    (events : list proc_event) (st : state) :
  (forall e s, Q e -> P s -> P (final (step JSON_parse e s))) ->
  Forall Q events -> P st -> P (final (run JSON_parse events st)).
Proof.
  intros Hstep HQ. revert st.
  induction HQ as [|e events He _ IH]; intros st Hst; [exact Hst|].
  simpl. pose proof (Hstep e st He Hst) as H.
  destruct (step JSON_parse e st) as [st'|st']; [apply IH|]; exact H.
Qed.

Lemma run_app_final (a b : list proc_event) (st : state) :
  final (run JSON_parse (a ++ b) st)
  = match run JSON_parse a st with
    | Returned st' => final (run JSON_parse b st')
    | Threw st' => st'
    end.
Proof.
  revert st. induction a as [|e a IH]; intros st; [reflexivity|].
  simpl. destruct (step JSON_parse e st) as [st'|st']; [apply IH|reflexivity].
Qed.

Lemma step_line_same_signal (e : proc_event) (st : state) :
  match e with EvLine _ | EvStderr _ => True | _ => False end ->
  same_signal st (final (step JSON_parse e st)).
Proof.
  destruct e; intros []; cbn [step].
  - apply on_event_same_signal.
  - repeat split.
Qed.

(** No signal was sent, and none will be: the listener is off. *)
Lemma step_listener_off (e : proc_event) (st : state) :
  abort_listener st = false /\ sigterm st = 0%nat ->
  abort_listener (final (step JSON_parse e st)) = false
  /\ sigterm (final (step JSON_parse e st)) = 0%nat.
Proof.
  intros [Hl Hs]. destruct e as [line|chunk| |code|message].
  - destruct (step_line_same_signal (EvLine line) st I) as (_ & H1 & H2).
    rewrite <- H1, <- H2. split; assumption.
  - split; assumption.
  - cbn [step final]. unfold on_abort.
    destruct (signal_aborted st); [split; assumption|].
    cbn. rewrite Hl. split; [reflexivity | exact Hs].
  - cbn [step final]. split; [|rewrite <- Hs]; unfold on_close;
      cbv zeta; repeat match goal with
                       | |- context [if ?b then _ else _] => destruct b
                       end; reflexivity.
  - cbn [step final]. split; [reflexivity | exact Hs].
Qed.

(** The signal had fired before the listener was registered. *)
Lemma step_already_aborted (e : proc_event) (st : state) :
  signal_aborted st = true /\ sigterm st = 0%nat ->
  signal_aborted (final (step JSON_parse e st)) = true
  /\ sigterm (final (step JSON_parse e st)) = 0%nat.
Proof.
  intros [Ha Hs]. destruct e as [line|chunk| |code|message].
  - destruct (step_line_same_signal (EvLine line) st I) as (H1 & _ & H2).
    rewrite <- H1, <- H2. split; assumption.
  - split; assumption.
  - cbn [step final]. unfold on_abort. rewrite Ha. split; assumption.
  - cbn [step final]. split; [rewrite <- Ha | rewrite <- Hs]; unfold on_close;
      cbv zeta; repeat match goal with
                       | |- context [if ?b then _ else _] => destruct b
                       end; reflexivity.
  - cbn [step final]. split; [exact Ha | exact Hs].
Qed.

Lemma step_no_abort (e : proc_event) (st : state) :
  e <> EvAbort -> sigterm st = 0%nat ->
  sigterm (final (step JSON_parse e st)) = 0%nat.
Proof.
  intros He Hs. destruct e as [line|chunk| |code|message]; [| |congruence| |].
  - destruct (step_line_same_signal (EvLine line) st I) as (_ & _ & H2).
    rewrite <- H2. exact Hs.
  - exact Hs.
  - cbn [step final]. rewrite <- Hs. unfold on_close;
      cbv zeta; repeat match goal with
                       | |- context [if ?b then _ else _] => destruct b
                       end; reflexivity.
  - exact Hs.
Qed.

Lemma step_at_most_once (e : proc_event) (st : state) :
  (sigterm st <= 1)%nat /\ (signal_aborted st = false -> sigterm st = 0%nat) ->
  (sigterm (final (step JSON_parse e st)) <= 1)%nat
  /\ (signal_aborted (final (step JSON_parse e st)) = false ->
      sigterm (final (step JSON_parse e st)) = 0%nat).
Proof.
  intros [H1 H2]. destruct e as [line|chunk| |code|message].
  - destruct (step_line_same_signal (EvLine line) st I) as (Ha & _ & Hs).
    rewrite <- Ha, <- Hs. split; assumption.
  - split; assumption.
  - cbn [step final]. unfold on_abort.
    destruct (signal_aborted st) eqn:Ea.
    { cbn [final]. split; [exact H1|]. rewrite Ea. discriminate. }
    cbn. rewrite (H2 eq_refl). split; [destruct (abort_listener st); lia|].
    discriminate.
  - cbn [step final].
    assert (sigterm (on_close code st) = sigterm st
            /\ signal_aborted (on_close code st) = signal_aborted st)
      as [-> ->]; [|split; assumption].
    split; unfold on_close; cbv zeta;
      repeat match goal with
             | |- context [if ?b then _ else _] => destruct b
             end; reflexivity.
  - cbn [step final]. split; assumption.
Qed.

End Signal.

(** X16. Whatever the child and the signal do, the provider sends the
    child the termination signal at most once, and only for an abort of a
    signal that had not fired before the call. An abort that comes after
    the [close] or the [error] of the child sends nothing. *)
Theorem child_signalled_at_most_once (JSON_parse : jstring -> option value)
    (signal : option bool) (events : list proc_event) :
  let st := final (run JSON_parse events (spawned signal)) in
  (sigterm st <= 1)%nat
  /\ (signal <> Some false -> sigterm st = 0%nat)
  /\ (EvAbort ∉ events -> sigterm st = 0%nat)
  /\ (forall pre fin post,
        events = pre ++ fin :: post -> is_completion fin = true ->
        EvAbort ∉ pre -> sigterm st = 0%nat).
Proof.
  intros st. subst st. split; [|split; [|split]].
  - apply (run_inv JSON_parse
             (fun s => (sigterm s <= 1)%nat
                       /\ (signal_aborted s = false -> sigterm s = 0%nat))
             (fun _ => True)).
    + intros e s _. apply step_at_most_once.
    + apply Forall_true. intros e. exact I.
    + split; [cbn; lia | reflexivity].
  - intros Hs. destruct signal as [[|]|]; [| congruence |].
    + apply (run_inv JSON_parse
               (fun s => signal_aborted s = true /\ sigterm s = 0%nat)
               (fun _ => True)).
      * intros e s _. apply step_already_aborted.
      * apply Forall_true. intros e. exact I.
      * split; reflexivity.
    + apply (run_inv JSON_parse
               (fun s => abort_listener s = false /\ sigterm s = 0%nat)
               (fun _ => True)).
      * intros e s _. apply step_listener_off.
      * apply Forall_true. intros e. exact I.
      * split; reflexivity.
  - intros Hn.
    apply (run_inv JSON_parse (fun s => sigterm s = 0%nat)
             (fun e => e <> EvAbort)).
    + intros e s. apply step_no_abort.
    + apply Forall_forall. intros e He ->. exact (Hn He).
    + reflexivity.
  - intros pre fin post -> Hfin Hn. rewrite run_app_final.
    assert (sigterm (final (run JSON_parse pre (spawned signal))) = 0%nat)
      as Hpre.
    { apply (run_inv JSON_parse (fun s => sigterm s = 0%nat)
               (fun e => e <> EvAbort)).
      - intros e s. apply step_no_abort.
      - apply Forall_forall. intros e He ->. exact (Hn He).
      - reflexivity. }
    destruct (run JSON_parse pre (spawned signal)) as [s1|s1];
      [|exact Hpre].
    cbn [final] in Hpre.
    assert (exists s2, step JSON_parse fin s1 = Returned s2
                       /\ abort_listener s2 = false /\ sigterm s2 = 0%nat)
      as (s2 & E2 & Hl & Hs).
    { destruct fin as [line|chunk| |code|message]; try discriminate Hfin;
        cbn [step]; eexists; (split; [reflexivity|]).
      - split; [|rewrite <- Hpre]; unfold on_close; cbv zeta;
          repeat match goal with
                 | |- context [if ?b then _ else _] => destruct b
                 end; reflexivity.
      - split; [reflexivity | exact Hpre]. }
    cbn [run]. rewrite E2.
    apply (run_inv JSON_parse
             (fun s => abort_listener s = false /\ sigterm s = 0%nat)
             (fun _ => True)).
    + intros e s _. apply step_listener_off.
    + apply Forall_true. intros e. exact I.
    + split; assumption.
Qed.

Lemma deltas_app (l1 l2 : list stream_event) :
  deltas (l1 ++ l2) = deltas l1 ++ deltas l2.
Proof.
  induction l1 as [|e l1 IH]; [reflexivity|].
  destruct e; simpl; rewrite IH; reflexivity.
Qed.

Lemma deltas_map (i : Z) (ts : list jstring) :
  deltas (map (E_text_delta i) ts) = ts.
Proof. induction ts as [|t ts IH]; [reflexivity|]. simpl. f_equal. exact IH. Qed.

Lemma on_close_content (code : option Z) (st : state) :
  content (output (on_close code st)) = content (output st).
Proof.
  unfold on_close; cbv zeta;
    repeat match goal with
           | |- context [if ?b then _ else _] => destruct b
           end; reflexivity.
Qed.

(** X17. When the child closes after lines of the declared types, the
    message of the terminal event holds what was streamed: no content
    block when no [text_delta] was pushed, and otherwise one text block
    whose text is the texts of the [text_delta] events put together, with
    any exit code and also after an abort. *)
Theorem final_message_holds_the_stream (JSON_parse : jstring -> option value)
    (signal : option bool) (pre : list proc_event) (code : option Z) :
  forallb (fun e => negb (is_completion e)) pre = true ->
  Forall (line_conforms JSON_parse) pre ->
  exists st,
    run JSON_parse (pre ++ [EvClose code]) (spawned signal) = Returned st
    /\ content (output st)
       = match deltas (pushed st) with
         | [] => []
         | ts => [{| text := concat ts |}]
         end.
Proof.
  intros Hnc Hcf.
  destruct (run_running JSON_parse pre (spawned signal) [] Hnc Hcf
              (spawned_running signal)) as (st1 & ts & E1 & Hrun).
  exists (on_close code st1). split.
  - rewrite (run_app JSON_parse pre _ _ _ E1). reflexivity.
  - destruct (on_close_running code st1 ts Hrun) as (terminal & Ht & Hp & _).
    rewrite on_close_content, Hp.
    assert (deltas (opening ts
                    ++ (if bool_decide (ts = []) then []
                        else [E_text_end 0 (concat ts)]) ++ [terminal]) = ts)
      as ->.
    { rewrite !deltas_app. unfold opening.
      assert (deltas [terminal] = []) as ->
        by (destruct terminal; (discriminate Ht || reflexivity)).
      case_bool_decide as Hts.
      - subst ts. reflexivity.
      - cbn [deltas]. rewrite deltas_map, !app_nil_r. reflexivity. }
    destruct Hrun as (Hstr & Hopen & Hacc & _).
    unfold streaming in Hstr. rewrite Hopen in Hstr.
    destruct ts as [|t ts].
    + rewrite bool_decide_eq_true_2 in Hstr by reflexivity.
      cbn [negb] in Hstr. apply Hstr.
    + rewrite bool_decide_eq_false_2 in Hstr by discriminate.
      cbn [negb] in Hstr. rewrite Hstr, Hacc. reflexivity.
Qed.

Lemma final_message_holds_the_stream_witness :
  let pre := [EvLine (dq "{'type':'assistant','message':{'content':[{'type':'text','text':'Reading. '}]}}");
              EvLine (dq "{'type':'tool_call','subtype':'started','tool_call':{'readToolCall':{'args':{'path':'a.txt'}}}}");
              EvStderr (lit "warning")] in
  forallb (fun e => negb (is_completion e)) pre = true
  /\ Forall (line_conforms JSON.parse) pre
  /\ exists st,
       run JSON.parse (pre ++ [EvClose (Some 1%Z)]) (spawned None)
       = Returned st
       /\ content (output st)
          = match deltas (pushed st) with
            | [] => []
            | ts => [{| text := concat ts |}]
            end.
Proof.
  intros pre.
  assert (Forall (line_conforms JSON.parse) pre) as H.
  { constructor; [|constructor; [|constructor; [exact I|constructor]]].
    - right; left. exists [lit "Reading. "]. split; [vm_compute; reflexivity|].
      eexists _, _. split; [vm_compute; reflexivity|].
      split; [vm_compute; reflexivity|].
      constructor; [split; reflexivity | constructor].
    - right; right; left. split; [vm_compute; reflexivity|].
      eexists. split; [vm_compute; reflexivity|].
      constructor; [eexists; reflexivity | constructor]. }
  split; [reflexivity|]. split; [exact H|].
  exact (final_message_holds_the_stream JSON.parse None pre (Some 1%Z)
           eq_refl H).
Defined.






(** ** More of the listing parser *)

Lemma split_lines_not_nil (s : jstring) : split_lines s <> [].
Proof.
  destruct s as [|c s]; [discriminate|]. simpl.
  destruct (c =? 10); [discriminate|].
  destruct (split_lines s); discriminate.
Qed.

Lemma split_lines_app (a b : jstring) :
  split_lines (a ++ [10] ++ b) = split_lines a ++ split_lines b.
Proof.
  induction a as [|c a IH]; [reflexivity|].
  change ((c :: a) ++ [10] ++ b) with (c :: (a ++ [10] ++ b)).
  cbn [split_lines]. rewrite IH.
  destruct (c =? 10); [reflexivity|].
  pose proof (split_lines_not_nil a) as Ha.
  destruct (split_lines a) as [|l ls]; [congruence | reflexivity].
Qed.

Lemma parse_listing_app (a b : jstring) :
  parseAgentModelsOutput (a ++ [10] ++ b)
  = parseAgentModelsOutput a ++ parseAgentModelsOutput b.
Proof.
  unfold parseAgentModelsOutput. rewrite split_lines_app. apply omap_app.
Qed.

(** X19. The listing is parsed line by line: the result for two texts put
    together with a line break is the result for the first followed by the
    result for the second, in this order and with nothing merged or
    dropped; a line break at the end adds nothing. *)
Theorem parseAgentModelsOutput_app (a b : jstring) :
  parseAgentModelsOutput (a ++ [10] ++ b)
  = parseAgentModelsOutput a ++ parseAgentModelsOutput b
  /\ parseAgentModelsOutput (a ++ [10]) = parseAgentModelsOutput a
  /\ parseAgentModelsOutput [] = [].
Proof.
  assert (parseAgentModelsOutput [] = []) as H0 by reflexivity.
  assert (parseAgentModelsOutput (a ++ [10] ++ b)
          = parseAgentModelsOutput a ++ parseAgentModelsOutput b) as H1.
  { apply parse_listing_app. }
  split; [exact H1|]. split; [|exact H0].
  unfold parseAgentModelsOutput.
  replace (a ++ [10]) with (a ++ [10] ++ []) by reflexivity.
  rewrite split_lines_app, omap_app.
  change (omap parse_model_line (split_lines [])) with (@nil CursorModelDef).
  apply app_nil_r.
Qed.

Lemma re_star_lazy_Some {R} (p : N -> bool)
    (k : jstring -> jstring -> option R) (s acc : jstring) (r : R) :
  re_star_lazy p k acc s = Some r ->
  exists l s', s = l ++ s' /\ forallb p l = true /\ k (acc ++ l) s' = Some r.
Proof.
  revert acc. induction s as [|c s IH]; intros acc H; simpl in H.
  - exists [], []. rewrite (app_nil_r acc).
    destruct (k acc []) eqn:E; [|discriminate]. injection H as <-.
    repeat split.
  - destruct (k acc (c :: s)) eqn:E.
    + injection H as <-. exists [], (c :: s). rewrite (app_nil_r acc).
      repeat split. exact E.
    + destruct (p c) eqn:Ec; [|discriminate].
      destruct (IH _ H) as (l & s' & -> & Hl & Hk).
      exists (c :: l), s'. rewrite <- app_assoc in Hk.
      split; [reflexivity|]. split; [|exact Hk].
      simpl. rewrite Ec. exact Hl.
Qed.

Lemma re_plus_lazy_Some {R} (p : N -> bool)
    (k : jstring -> jstring -> option R) (s : jstring) (r : R) :
  re_plus_lazy p k s = Some r ->
  exists l s', s = l ++ s' /\ l <> [] /\ forallb p l = true
               /\ k l s' = Some r.
Proof.
  unfold re_plus_lazy, re_one. destruct s as [|c s]; [discriminate|].
  destruct (p c) eqn:Ec; [|discriminate]. intros H.
  apply re_star_lazy_Some in H as (l & s' & -> & Hl & Hk).
  exists (c :: l), s'. split; [reflexivity|]. split; [discriminate|].
  split; [|exact Hk]. simpl. rewrite Ec. exact Hl.
Qed.

(** What a match of [lineRe] is made of. *)
Lemma lineRe_exec_Some (t g1 g2 : jstring) :
  lineRe_exec t = Some (g1, g2) ->
  identifier g1
  /\ g2 <> [] /\ forallb is_dot g2 = true
  /\ exists w1 w2 m,
       t = g1 ++ w1 ++ lit "-" ++ w2 ++ g2 ++ m
       /\ blank w1 /\ blank w2
       /\ (m = [] \/ status_marker_text m).
Proof.
  unfold lineRe_exec, re_one. destruct t as [|c0 t]; [discriminate|].
  destruct (is_alnum c0) eqn:E0; [|discriminate]. intros H.
  apply re_star_Some in H as (l1 & s1 & -> & Hl1 & H).
  apply re_plus_Some in H as (w1 & s2 & -> & Hw1n & Hw1 & H).
  apply re_str_Some in H as (s3 & -> & H).
  apply re_plus_Some in H as (w2 & s4 & -> & Hw2n & Hw2 & H).
  apply re_plus_lazy_Some in H as (g & m & -> & Hgn & Hg & H).
  unfold re_opt in H.
  match type of H with
  | match ?x with _ => _ end = _ => destruct x as [r|] eqn:Em
  end.
  - injection H as ->.
    apply status_marker_Some in Em as (m' & s' & -> & Hm & He).
    apply re_end_Some in He as [-> [= <- <-]].
    split; [split; assumption|]. split; [exact Hgn|]. split; [exact Hg|].
    exists w1, w2, m'. rewrite app_nil_r. split; [reflexivity|].
    split; [split; assumption|]. split; [split; assumption|].
    right. exact Hm.
  - apply re_end_Some in H as [-> [= <- <-]].
    split; [split; assumption|]. split; [exact Hgn|]. split; [exact Hg|].
    exists w1, w2, []. split; [reflexivity|].
    split; [split; assumption|]. split; [split; assumption|].
    left. reflexivity.
Qed.

Lemma forallb_drop_while {A} (p q : A -> bool) (l : list A) :
  forallb q l = true -> forallb q (drop_while p l) = true.
Proof.
  induction l as [|x l IH]; [reflexivity|]. intros H. simpl.
  destruct (p x); [|exact H].
  simpl in H. apply andb_true_iff in H as [_ H]. apply IH. exact H.
Qed.

Lemma forallb_trim (q : N -> bool) (s : jstring) :
  forallb q s = true -> forallb q (trim s) = true.
Proof.
  intros H. unfold trim, trimEnd, trimStart.
  rewrite forallb_rev. apply forallb_drop_while. rewrite forallb_rev.
  apply forallb_drop_while. exact H.
Qed.

Lemma trim_trim (s : jstring) : trim (trim s) = trim s.
Proof.
  destruct (trim s) as [|c rest] eqn:E; [reflexivity|].
  rewrite <- E. clear c rest E.
  unfold trim, trimEnd, trimStart.
  set (a := drop_while is_white_space s).
  assert (drop_while is_white_space (rev (drop_while is_white_space (rev a)))
          = rev (drop_while is_white_space (rev a))) as ->.
  { assert (forall l, match l with
                      | x :: _ => is_white_space x = false
                      | [] => True
                      end ->
              match rev (drop_while is_white_space (rev l)) with
              | x :: _ => is_white_space x = false
              | [] => True
              end) as Hhead.
    { intros l Hl. induction l as [|x l IH] using rev_ind; [exact I|].
      rewrite rev_app_distr. simpl rev at 1. simpl app. simpl drop_while.
      destruct (is_white_space x) eqn:Ex.
      - apply IH. destruct l as [|y l]; [exact I|]. exact Hl.
      - rewrite <- (rev_involutive l). rewrite <- rev_unit.
        rewrite !rev_involutive. exact Hl. }
    assert (match a with
            | x :: _ => is_white_space x = false
            | [] => True
            end) as Ha.
    { subst a. induction s as [|x s IH]; [exact I|]. simpl.
      destruct (is_white_space x) eqn:Ex; [exact IH | exact Ex]. }
    specialize (Hhead a Ha).
    destruct (rev (drop_while is_white_space (rev a))) as [|x l];
      [reflexivity|]. simpl. rewrite Hhead. reflexivity. }
  rewrite rev_involutive. rewrite drop_while_idem. reflexivity.
Qed.

(** X20. Every model of the result has an identifier that starts with a
    letter or a digit and holds only letters, digits, dots, underscores
    and hyphens: it has no white space and does not start with a hyphen.
    The identifier is the first word of its line, and the name is on one
    line with no white space around it. *)
Theorem discovered_identifier_shape (output : jstring) (d : CursorModelDef) :
  d ∈ parseAgentModelsOutput output ->
  identifier (id d)
  /\ (forall c, c ∈ id d -> is_white_space c = false)
  /\ ~ (exists rest, id d = lit "-" ++ rest)
  /\ (exists line c rest,
        line ∈ split_lines output
        /\ trim line = id d ++ c :: rest /\ is_white_space c = true)
  /\ forallb is_dot (name d) = true
  /\ trim (name d) = name d.
Proof.
  intros Hd. unfold parseAgentModelsOutput in Hd.
  apply list_elem_of_omap in Hd as (line & Hline & Hp).
  apply parse_model_line_Some in Hp as (g1 & g2 & Hre & _ & ->).
  apply lineRe_exec_Some in Hre
    as (Hid & Hg2n & Hg2 & w1 & w2 & m & Ht & [Hw1n Hw1] & _ & _).
  cbn [id name discovered]. rewrite (trim_identifier g1 Hid).
  split; [exact Hid|]. split; [|split; [|split; [|split]]].
  - intros c Hc. apply id_char_not_white_space.
    destruct g1 as [|c0 g1]; [destruct Hid|]. destruct Hid as [H0 Hr].
    apply elem_of_cons in Hc as [->|Hc]; [apply alnum_id_char; exact H0|].
    rewrite forallb_forall in Hr. apply Hr. apply list_elem_of_In. exact Hc.
  - intros [rest E]. rewrite E in Hid. destruct Hid as [H0 _].
    discriminate H0.
  - destruct w1 as [|c w1]; [congruence|].
    exists line, c, (w1 ++ lit "-" ++ w2 ++ g2 ++ m).
    split; [exact Hline|]. split; [exact Ht|].
    simpl in Hw1. apply andb_true_iff in Hw1 as [Hc _]. exact Hc.
  - apply forallb_trim. exact Hg2.
  - apply trim_trim.
Qed.

Lemma discovered_identifier_shape_witness :
  let output := lit "Available models" ++ [10] ++ lit "  auto - Auto" ++ [10] in
  let d := discovered (lit "auto") (lit "Auto") in
  d ∈ parseAgentModelsOutput output
  /\ identifier (id d)
  /\ (forall c, c ∈ id d -> is_white_space c = false)
  /\ ~ (exists rest, id d = lit "-" ++ rest)
  /\ (exists line c rest,
        line ∈ split_lines output
        /\ trim line = id d ++ c :: rest /\ is_white_space c = true)
  /\ forallb is_dot (name d) = true
  /\ trim (name d) = name d.
Proof.
  intros output d.
  assert (d ∈ parseAgentModelsOutput output) as H.
  { unfold parseAgentModelsOutput. apply list_elem_of_omap.
    exists (lit "  auto - Auto"). split.
    - apply (bool_decide_unpack _). vm_compute. exact I.
    - apply (parse_model_line_listing _ (lit "auto") (lit " ") (lit " ")
               (lit "Auto") []).
      + reflexivity.
      + split; reflexivity.
      + split; [discriminate | reflexivity].
      + split; [discriminate | reflexivity].
      + split; [reflexivity|]. split.
        * eexists _, _. split; reflexivity.
        * exists (lit "Aut"), 111. split; reflexivity.
      + left. split; [reflexivity|].
        intros l1 l2 E Hl1 (w & t & [Hwn Hw] & _ & ->).
        destruct w as [|x w]; [congruence|].
        simpl in Hw. apply andb_true_iff in Hw as [Hx _].
        assert (x ∈ lit "Auto") as Hin.
        { rewrite E. apply elem_of_app. right. left. }
        vm_compute in Hin.
        repeat (apply elem_of_cons in Hin as [->|Hin]; [discriminate Hx|]).
        inversion Hin.
      + reflexivity. }
  split; [exact H|].
  exact (discovered_identifier_shape output d H).
Defined.

Lemma re_star_complete {R} (p : N -> bool)
    (k : jstring -> jstring -> option R) (l s acc : jstring) :
  forallb p l = true -> is_Some (k (acc ++ l) s) ->
  is_Some (re_star p k acc (l ++ s)).
Proof.
  revert acc. induction l as [|c l IH]; intros acc Hl Hk.
  - rewrite app_nil_r in Hk. simpl app.
    destruct s as [|c s]; simpl; [exact Hk|].
    destruct (p c); [|exact Hk].
    destruct (re_star p k (acc ++ [c]) s); [eexists; reflexivity | exact Hk].
  - simpl in Hl. apply andb_true_iff in Hl as [Hc Hl].
    simpl. rewrite Hc.
    destruct (IH (acc ++ [c]) Hl) as [r ->]; [|eexists; reflexivity].
    rewrite <- app_assoc. exact Hk.
Qed.

(** The greedy star gives the result of the longest run on which the rest
    of the expression matches. *)
Lemma re_star_longest {R} (p : N -> bool)
    (k : jstring -> jstring -> option R) (s acc : jstring) (r : R) :
  re_star p k acc s = Some r ->
  exists l s', s = l ++ s' /\ forallb p l = true /\ k (acc ++ l) s' = Some r
    /\ forall l2 s2, l2 <> [] -> s' = l2 ++ s2 -> forallb p l2 = true ->
                     k (acc ++ l ++ l2) s2 = None.
Proof.
  revert acc. induction s as [|c s IH]; intros acc H.
  - simpl in H. exists [], []. rewrite (app_nil_r acc).
    repeat split; [exact H|].
    intros l2 s2 Hn E. destruct l2; [congruence | discriminate].
  - simpl in H. destruct (p c) eqn:Ec.
    + destruct (re_star p k (acc ++ [c]) s) as [r0|] eqn:E.
      * injection H as <-.
        destruct (IH _ E) as (l & s' & -> & Hl & Hk & Hlong).
        exists (c :: l), s'. split; [reflexivity|].
        split; [simpl; rewrite Ec; exact Hl|].
        rewrite <- app_assoc in Hk. split; [exact Hk|].
        intros l2 s2 Hn E2 H2. specialize (Hlong l2 s2 Hn E2 H2).
        rewrite <- app_assoc in Hlong. exact Hlong.
      * exists [], (c :: s). rewrite (app_nil_r acc).
        repeat split; [exact H|].
        intros l2 s2 Hn E2 H2. destruct l2 as [|x l2]; [congruence|].
        injection E2 as <- ->. simpl in H2.
        apply andb_true_iff in H2 as [_ H2].
        destruct (k (acc ++ [] ++ c :: l2) s2) as [r1|] eqn:E1;
          [|reflexivity].
        exfalso.
        destruct (re_star_complete p k l2 s2 (acc ++ [c]) H2) as [r2 Hr2].
        { rewrite <- app_assoc. eexists. exact E1. }
        rewrite Hr2 in E. discriminate E.
    + exists [], (c :: s). rewrite (app_nil_r acc).
      repeat split; [exact H|].
      intros l2 s2 Hn E2 H2. destruct l2 as [|x l2]; [congruence|].
      injection E2 as <- ->. simpl in H2. rewrite Ec in H2. discriminate H2.
Qed.

Lemma re_plus_longest {R} (p : N -> bool)
    (k : jstring -> jstring -> option R) (s : jstring) (r : R) :
  re_plus p k s = Some r ->
  exists l s', s = l ++ s' /\ l <> [] /\ forallb p l = true
    /\ k l s' = Some r
    /\ forall l2 s2, l2 <> [] -> s' = l2 ++ s2 -> forallb p l2 = true ->
                     k (l ++ l2) s2 = None.
Proof.
  unfold re_plus, re_one. destruct s as [|c s]; [discriminate|].
  destruct (p c) eqn:Ec; [|discriminate]. intros H.
  apply re_star_longest in H as (l & s' & -> & Hl & Hk & Hlong).
  exists (c :: l), s'. split; [reflexivity|]. split; [discriminate|].
  split; [simpl; rewrite Ec; exact Hl|]. split; [exact Hk|]. exact Hlong.
Qed.

Lemma re_star_lazy_complete {R} (p : N -> bool)
    (k : jstring -> jstring -> option R) (l s acc : jstring) :
  forallb p l = true -> is_Some (k (acc ++ l) s) ->
  is_Some (re_star_lazy p k acc (l ++ s)).
Proof.
  revert acc. induction l as [|c l IH]; intros acc Hl Hk.
  - rewrite app_nil_r in Hk. simpl app. destruct Hk as [r Hk].
    destruct s; simpl; rewrite Hk; eexists; reflexivity.
  - simpl in Hl. apply andb_true_iff in Hl as [Hc Hl].
    simpl. destruct (k acc (c :: l ++ s)); [eexists; reflexivity|].
    rewrite Hc. apply IH; [exact Hl|]. rewrite <- app_assoc. exact Hk.
Qed.

Lemma re_plus_lazy_complete {R} (p : N -> bool)
    (k : jstring -> jstring -> option R) (l s : jstring) :
  l <> [] -> forallb p l = true -> is_Some (k l s) ->
  is_Some (re_plus_lazy p k (l ++ s)).
Proof.
  intros Hn Hl Hk. destruct l as [|c l]; [congruence|].
  simpl in Hl. apply andb_true_iff in Hl as [Hc Hl].
  unfold re_plus_lazy, re_one. simpl. rewrite Hc.
  apply re_star_lazy_complete; assumption.
Qed.

Lemma drop_while_head {A} (p : A -> bool) (l : list A) :
  match drop_while p l with
  | x :: _ => p x = false
  | [] => True
  end.
Proof.
  induction l as [|x l IH]; [exact I|]. simpl.
  destruct (p x) eqn:E; [exact IH | exact E].
Qed.

Lemma trim_last (s init : jstring) (y : N) :
  trim s = init ++ [y] -> is_white_space y = false.
Proof.
  unfold trim, trimEnd. intros E.
  pose proof (drop_while_head is_white_space (rev (trimStart s))) as H.
  apply (f_equal (@rev N)) in E. rewrite rev_involutive, rev_unit in E.
  rewrite E in H. exact H.
Qed.

(** In a match of [lineRe] on a trimmed text all on one line, the second
    group holds a character that is not white space. *)
Lemma lineRe_exec_name (line g1 g2 : jstring) :
  forallb is_dot (trim line) = true ->
  lineRe_exec (trim line) = Some (g1, g2) ->
  trim g2 <> [].
Proof.
  intros Hdot H.
  assert (forallb is_white_space g2 = false) as Hg2.
  { destruct (forallb is_white_space g2) eqn:Hws; [exfalso|reflexivity].
    revert Hdot H. generalize (eq_refl (trim line)).
    generalize (trim line) at 2 3 4. intros t Et Hdot H.
    unfold lineRe_exec, re_one in H. destruct t as [|c0 t]; [discriminate|].
    destruct (is_alnum c0) eqn:E0; [|discriminate].
    apply re_star_Some in H as (l1 & s1 & -> & Hl1 & H).
    apply re_plus_Some in H as (w1 & s2 & -> & Hw1n & Hw1 & H).
    apply re_str_Some in H as (s3 & -> & H).
    apply re_plus_longest in H as (w2 & s4 & -> & Hw2n & Hw2 & H & Hlong).
    apply re_plus_lazy_Some in H as (g & m & -> & Hgn & Hg & H).
    unfold re_opt in H.
    match type of H with
    | match ?x with _ => _ end = _ => destruct x as [r|] eqn:Em
    end.
    - injection H as ->.
      apply status_marker_Some in Em as (m' & s' & -> & Hm & He).
      apply re_end_Some in He as [-> [= <- <-]].
      destruct Hm as (w & st & [Hwn Hw] & Hst & ->).
      rewrite app_nil_r in *.
      specialize (Hlong (g ++ w) (lit "(" ++ st ++ lit ")")).
      rewrite <- app_assoc in Hlong.
      assert (is_Some
                (re_plus_lazy is_dot
                   (fun g2 : jstring =>
                      re_opt status_marker (re_end ([c0] ++ l1, g2)))
                   ((lit "(" ++ st ++ lit ")") ++ []))) as [r Hr].
      { apply re_plus_lazy_complete.
        - discriminate.
        - assert (c0 :: l1 ++ w1 ++ lit "-" ++ w2 ++ g ++ w
                  ++ lit "(" ++ st ++ lit ")"
                  = (c0 :: l1 ++ w1 ++ lit "-" ++ w2 ++ g ++ w)
                    ++ (lit "(" ++ st ++ lit ")")) as Ea.
          { rewrite <- app_comm_cons. rewrite <- !app_assoc. reflexivity. }
          rewrite Ea, forallb_app in Hdot.
          apply andb_true_iff in Hdot as [_ Hdot]. exact Hdot.
        - eexists. reflexivity. }
      rewrite app_nil_r in Hr.
      assert (g ++ w <> []) as Hgw by (destruct g; [congruence | discriminate]).
      assert (forallb is_white_space (g ++ w) = true) as Hgws
        by (rewrite forallb_app, Hws, Hw; reflexivity).
      specialize (Hlong Hgw eq_refl Hgws).
      pose proof (eq_trans (eq_sym Hr) Hlong) as Habs. discriminate Habs.
    - apply re_end_Some in H as [-> [= <- <-]].
      rewrite app_nil_r in Et.
      destruct (forallb_last is_white_space g Hgn Hws) as (init & y & -> & Hy).
      assert (is_white_space y = false) as Hy'.
      { apply (trim_last line
                 (c0 :: l1 ++ w1 ++ lit "-" ++ w2 ++ init)).
        rewrite Et. rewrite <- app_comm_cons. rewrite <- !app_assoc.
        reflexivity. }
      congruence. }
  intros E.
  assert (forall s, forallb is_white_space s = false -> trim s <> []) as Ht.
  { clear. intros s Hs Et. unfold trim, trimEnd in Et.
    apply (f_equal (@rev N)) in Et. rewrite rev_involutive in Et. simpl in Et.
    assert (forall l, drop_while is_white_space l = [] ->
                      forallb is_white_space l = true) as Hd.
    { induction l as [|x l IH]; [reflexivity|]. simpl.
      destruct (is_white_space x); [exact IH | discriminate]. }
    apply Hd in Et. rewrite forallb_rev in Et. unfold trimStart in Et.
    assert (forall l, forallb is_white_space (drop_while is_white_space l)
                      = true -> forallb is_white_space l = true) as Hd2.
    { induction l as [|x l IH]; [reflexivity|]. simpl.
      destruct (is_white_space x) eqn:Ex; [exact IH|].
      simpl. rewrite Ex. discriminate. }
    apply Hd2 in Et. congruence. }
  exact (Ht g2 Hg2 E).
Qed.

(** X21. When no line of the listing holds a carriage return or another
    line terminator inside (one at the end of a line is trimmed away),
    every model of the result has a name that is not empty. *)
Theorem discovered_name_not_empty (output : jstring) (d : CursorModelDef) :
  (forall line, line ∈ split_lines output ->
                forallb is_dot (trim line) = true) ->
  d ∈ parseAgentModelsOutput output ->
  name d <> [].
Proof.
  intros Hlines Hd. unfold parseAgentModelsOutput in Hd.
  apply list_elem_of_omap in Hd as (line & Hline & Hp).
  apply parse_model_line_Some in Hp as (g1 & g2 & Hre & _ & ->).
  cbn [name discovered].
  exact (lineRe_exec_name line g1 g2 (Hlines line Hline) Hre).
Qed.

Lemma discovered_name_not_empty_witness :
  let output := lit "Available models" ++ [13; 10]
                ++ lit "auto - Auto" ++ [13; 10] in
  let d := discovered (lit "auto") (lit "Auto") in
  (forall line, line ∈ split_lines output ->
                forallb is_dot (trim line) = true)
  /\ d ∈ parseAgentModelsOutput output
  /\ name d <> [].
Proof.
  intros output d.
  assert (forall line, line ∈ split_lines output ->
                       forallb is_dot (trim line) = true) as H1.
  { intros line Hin. vm_compute in Hin.
    repeat (apply elem_of_cons in Hin as [->|Hin]; [reflexivity|]).
    inversion Hin. }
  assert (d ∈ parseAgentModelsOutput output) as H2.
  { unfold parseAgentModelsOutput. apply list_elem_of_omap.
    exists (lit "auto - Auto" ++ [13]). split.
    - apply (bool_decide_unpack _). vm_compute. exact I.
    - apply (parse_model_line_listing _ (lit "auto") (lit " ") (lit " ")
               (lit "Auto") []).
      + reflexivity.
      + split; reflexivity.
      + split; [discriminate | reflexivity].
      + split; [discriminate | reflexivity].
      + split; [reflexivity|]. split.
        * eexists _, _. split; reflexivity.
        * exists (lit "Aut"), 111. split; reflexivity.
      + left. split; [reflexivity|].
        intros l1 l2 E Hl1 (w & t & [Hwn Hw] & _ & ->).
        destruct w as [|x w]; [congruence|].
        simpl in Hw. apply andb_true_iff in Hw as [Hx _].
        assert (x ∈ lit "Auto") as Hin.
        { rewrite E. apply elem_of_app. right. left. }
        vm_compute in Hin.
        repeat (apply elem_of_cons in Hin as [->|Hin]; [discriminate Hx|]).
        inversion Hin.
      + reflexivity. }
  split; [exact H1|]. split; [exact H2|].
  exact (discovered_name_not_empty output d H1 H2).
Defined.

(** A line with a carriage return inside the status marker: the name is
    the empty string. *)
Example name_empty_with_carriage_return :
  name <$> parseAgentModelsOutput
             (lit "a -   (current," ++ [13] ++ lit "default)")
  = [[]].
Proof. vm_compute. reflexivity. Qed.

Lemma drop_while_app {A} (p : A -> bool) (l m : list A) :
  drop_while p (l ++ m)
  = if forallb p l then drop_while p m else drop_while p l ++ m.
Proof.
  induction l as [|x l IH]; [reflexivity|]. simpl.
  destruct (p x); [exact IH | reflexivity].
Qed.

Lemma drop_while_all {A} (p : A -> bool) (l : list A) :
  forallb p l = true -> drop_while p l = [].
Proof.
  induction l as [|x l IH]; [reflexivity|]. simpl.
  destruct (p x); [exact IH | discriminate].
Qed.

Lemma trim_snoc_white_space (l : jstring) (c : N) :
  is_white_space c = true -> trim (l ++ [c]) = trim l.
Proof.
  intros Hc. unfold trim, trimEnd, trimStart. rewrite drop_while_app.
  destruct (forallb is_white_space l) eqn:E.
  - rewrite (drop_while_all _ l E). simpl. rewrite Hc. reflexivity.
  - rewrite rev_unit. simpl. rewrite Hc. reflexivity.
Qed.

Lemma parse_model_line_trim (l l' : jstring) :
  trim l = trim l' -> parse_model_line l = parse_model_line l'.
Proof. intros E. unfold parse_model_line. rewrite E. reflexivity. Qed.

Lemma split_lines_snoc (a : jstring) (c : N) :
  c <> 10 ->
  exists ls l, split_lines a = ls ++ [l]
               /\ split_lines (a ++ [c]) = ls ++ [l ++ [c]].
Proof.
  intros Hc. induction a as [|x a (ls & l & E1 & E2)].
  - exists [], []. split; [reflexivity|]. simpl.
    destruct (c =? 10) eqn:E; [apply N.eqb_eq in E; congruence|reflexivity].
  - change ((x :: a) ++ [c]) with (x :: (a ++ [c])).
    cbn [split_lines]. rewrite E1, E2.
    destruct (x =? 10).
    + exists ([] :: ls), l. split; reflexivity.
    + destruct ls as [|l0 ls].
      * exists [], (x :: l). split; reflexivity.
      * exists ((x :: l0) :: ls), l. split; reflexivity.
Qed.

(** X22. A carriage return, or any other white space, before a line break
    changes nothing: a listing with the line ends of Windows parses as the
    same listing with plain line breaks. *)
Theorem parseAgentModelsOutput_crlf (a b : jstring) (c : N) :
  is_white_space c = true -> c <> 10 ->
  parseAgentModelsOutput (a ++ [c; 10] ++ b)
  = parseAgentModelsOutput (a ++ [10] ++ b)
  /\ parseAgentModelsOutput (a ++ [c]) = parseAgentModelsOutput a.
Proof.
  intros Hws Hc.
  assert (parseAgentModelsOutput (a ++ [c]) = parseAgentModelsOutput a) as H.
  { unfold parseAgentModelsOutput.
    destruct (split_lines_snoc a c Hc) as (ls & l & -> & ->).
    rewrite !omap_app. f_equal. cbn [omap list_omap].
    rewrite (parse_model_line_trim (l ++ [c]) l
               (trim_snoc_white_space l c Hws)).
    reflexivity. }
  split; [|exact H].
  change (a ++ [c; 10] ++ b) with (a ++ [c] ++ [10] ++ b).
  rewrite app_assoc.
  rewrite (parse_listing_app (a ++ [c]) b).
  rewrite (parse_listing_app a b).
  rewrite H. reflexivity.
Qed.

Lemma parseAgentModelsOutput_crlf_witness :
  is_white_space 13 = true /\ 13 <> 10
  /\ parseAgentModelsOutput (lit "auto - Auto" ++ [13; 10] ++ lit "grok - Grok")
     = parseAgentModelsOutput (lit "auto - Auto" ++ [10] ++ lit "grok - Grok")
  /\ parseAgentModelsOutput (lit "auto - Auto" ++ [13])
     = parseAgentModelsOutput (lit "auto - Auto").
Proof.
  split; [reflexivity|]. split; [discriminate|].
  apply (parseAgentModelsOutput_crlf (lit "auto - Auto") (lit "grok - Grok")
           13); [reflexivity | discriminate].
Defined.

(** ** The static table and the inferred flag *)

Lemma STATIC_MODELS_reasoning (k : CursorModelDef) :
  k ∈ STATIC_MODELS ->
  reasoning k
  = inferReasoning (id k) || bool_decide (id k ∈ reasoning_by_table).
Proof.
  assert (forallb (fun m => Bool.eqb (reasoning m)
                              (inferReasoning (id m)
                               || bool_decide (id m ∈ reasoning_by_table)))
            STATIC_MODELS = true) as H by (vm_compute; reflexivity).
  rewrite forallb_forall in H. intros Hk.
  apply Bool.eqb_prop. apply H. apply list_elem_of_In. exact Hk.
Qed.

Lemma reasoning_by_table_static (i : jstring) :
  i ∈ reasoning_by_table -> exists k, k ∈ STATIC_MODELS /\ id k = i.
Proof.
  intros Hi.
  assert (forallb (fun i => bool_decide (i ∈ (id <$> STATIC_MODELS)))
            reasoning_by_table = true) as H by (vm_compute; reflexivity).
  rewrite forallb_forall in H. apply list_elem_of_In in Hi.
  apply H in Hi. apply bool_decide_eq_true in Hi.
  apply list_elem_of_fmap in Hi as (k & -> & Hk). exists k. split; [exact Hk|].
  reflexivity.
Qed.

(** X23. A model of a listing has the reasoning flag exactly when its
    identifier ends in a suffix of [inferReasoning], or is one of five
    identifiers of the static table: the four [-high-fast] and
    [-xhigh-fast] models and [gpt-5.1-codex-max]. The table never clears
    a flag that the identifier implies. *)
Theorem reasoning_flag_of_listing (output : jstring) (d : CursorModelDef) :
  d ∈ parseAgentModelsOutput output ->
  (reasoning d = true
   <-> inferReasoning (id d) = true \/ id d ∈ reasoning_by_table).
Proof.
  intros Hd. unfold parseAgentModelsOutput in Hd.
  apply list_elem_of_omap in Hd as (line & _ & Hp).
  apply parse_model_line_Some in Hp as (g1 & g2 & _ & _ & ->).
  cbn [id reasoning discovered].
  destruct (STATIC_MODELS_MAP !! trim g1) as [k|] eqn:E.
  - apply STATIC_MODELS_MAP_lookup in E as [Hk <-].
    rewrite (STATIC_MODELS_reasoning k Hk). rewrite orb_true_iff.
    rewrite bool_decide_eq_true. reflexivity.
  - split; [left; assumption|]. intros [H|H]; [exact H|].
    apply reasoning_by_table_static in H as (k & Hk & Hi).
    rewrite STATIC_MODELS_MAP_None in E. destruct (E k Hk Hi).
Qed.

Lemma reasoning_flag_of_listing_witness :
  let output := lit "gpt-5.1-codex-max - GPT-5.1 Codex Max" in
  let d := discovered (lit "gpt-5.1-codex-max") (lit "GPT-5.1 Codex Max") in
  d ∈ parseAgentModelsOutput output
  /\ (reasoning d = true
      <-> inferReasoning (id d) = true \/ id d ∈ reasoning_by_table).
Proof.
  intros output d.
  assert (d ∈ parseAgentModelsOutput output) as H.
  { unfold parseAgentModelsOutput. apply list_elem_of_omap.
    exists output. split; [left|].
    apply (parse_model_line_listing _ (lit "gpt-5.1-codex-max") (lit " ")
             (lit " ") (lit "GPT-5.1 Codex Max") []).
    - reflexivity.
    - split; reflexivity.
    - split; [discriminate | reflexivity].
    - split; [discriminate | reflexivity].
    - split; [reflexivity|]. split.
      + eexists _, _. split; reflexivity.
      + exists (lit "GPT-5.1 Codex Ma"), 120. split; reflexivity.
    - left. split; [reflexivity|].
      intros l1 l2 E Hl1 (w & t & _ & _ & E2).
      assert (41 ∈ lit "GPT-5.1 Codex Max") as Hin.
      { rewrite E, E2. rewrite !elem_of_app. right. right. right. right.
        left. }
      vm_compute in Hin.
      repeat (apply elem_of_cons in Hin as [Hin|Hin]; [discriminate Hin|]).
      inversion Hin.
    - reflexivity. }
  split; [exact H|].
  exact (reasoning_flag_of_listing output d H).
Defined.

(** ** What the prompt keeps *)

Lemma join_infix (sep x : jstring) (l : list jstring) :
  x ∈ l -> exists a b, join sep l = a ++ x ++ b.
Proof.
  induction l as [|y l IH]; intros Hx; [inversion Hx|].
  destruct l as [|z l].
  - apply elem_of_cons in Hx as [->|Hx]; [|inversion Hx].
    exists [], []. simpl. rewrite app_nil_r. reflexivity.
  - rewrite join_cons by discriminate.
    apply elem_of_cons in Hx as [->|Hx].
    + exists [], (sep ++ join sep (z :: l)). reflexivity.
    + destruct (IH Hx) as (a & b & ->).
      exists (y ++ sep ++ a), b. rewrite <- !app_assoc. reflexivity.
Qed.

(** X24. Nothing of what the user wrote is cut or escaped: the text of
    every user message given as a string, and the system prompt when it is
    not empty, stand in the prompt as they are, after their marker. *)
Theorem prompt_keeps_user_text (context : Context) :
  (forall t, Msg_user (ContentString t) ∈ messages context ->
     exists a b,
       serializeContext context = a ++ (lit "[User]" ++ [10] ++ t) ++ b)
  /\ (forall p, systemPrompt context = Some p -> p <> [] ->
        exists b,
          serializeContext context
          = (lit "[System]" ++ [10] ++ p ++ [10]) ++ b).
Proof.
  destruct context as [sp ms]. cbn [messages systemPrompt]. split.
  - intros t Ht. rewrite serializeContext_lines.
    apply join_infix. apply elem_of_app. right.
    apply list_elem_of_split in Ht as (l1 & l2 & ->).
    rewrite fold_push_message_app. apply elem_of_app. right.
    change (fold_left push_message (Msg_user (ContentString t) :: l2) [])
      with (fold_left push_message l2
              (push_message [] (Msg_user (ContentString t)))).
    rewrite fold_push_message. apply elem_of_app. left.
    cbn [push_message app]. left.
  - intros p -> Hp. rewrite serializeContext_lines. cbn [system_lines].
    rewrite bool_decide_eq_false_2 by exact Hp.
    destruct (fold_left push_message ms []) as [|y l] eqn:E.
    + exists []. simpl. rewrite !app_nil_r. reflexivity.
    + change ([lit "[System]" ++ [10] ++ p ++ [10]] ++ y :: l)
        with ((lit "[System]" ++ [10] ++ p ++ [10]) :: y :: l).
      rewrite join_cons by discriminate. eexists. reflexivity.
Qed.
